(** * even-dev: event normalisation and dual-surface synchronisation

    A shallow embedding of the two application instances of the repository,
    [apps/base_app/main.ts] (module [BaseApp]) and the REST-API instance
    (module [RestApi]), and of the configuration of the development server,
    [vite.config.ts] (module [ViteConfig]), together with the properties
    their specification states about them and further properties of the
    code.

    Conventions of the embedding.
    - A JavaScript [number] is an integer or [NaN] ([Js.number]): the bridge
      sends integer codes and indices, and [Number.parseInt] is the only
      producer of [NaN].
    - A JavaScript string is a [string] of 8-bit characters; case conversion
      and white space follow the ASCII tables.
    - A value of TypeScript type [unknown] is a [Js.value].
    - An object used as a dictionary ([jsonData]) is a [gmap string Js.value];
      an absent key reads as [undefined].
    - An [async] function is a computation of the monad [Eff]: it threads the
      mutable store, appends the requests sent to the remote display to a
      trace, and either returns or raises (a rejected promise). The replies of
      the remote display come from an oracle. A handler runs to its end
      before the next one starts: a call that is not awaited ([void]) runs at
      once and its rejection is dropped.
    - Logging ([appendEventLog], [console.error]) is left out. *)

From Stdlib Require Import ZArith Ascii String Bool Lia.
From stdpp Require Import base tactics option list strings gmap pretty.

Local Open Scope Z_scope.

(** ** JavaScript values *)

Module Js.

(** [number], restricted to the integers and [NaN]. *)
Inductive number := Int (z : Z) | NaN.

(** Values of type [unknown]. [VObject] stands for any object, array or
    function. *)
Inductive value :=
| VUndefined
| VNull
| VNumber (n : number)
| VString (s : string)
| VBoolean (b : bool)
| VObject.

Global Instance number_eq_dec : EqDecision number.
Proof. solve_decision. Defined.

Global Instance value_eq_dec : EqDecision value.
Proof. solve_decision. Defined.

(** [a ?? b] *)
Definition nullish (a b : value) : value :=
  match a with
  | VUndefined | VNull => b
  | _ => a
  end.

(** [a || b] on strings: [a] when it is not empty. *)
Definition or_else (a b : string) : string :=
  match a with
  | EmptyString => b
  | _ => a
  end.

(** [arr[i]] *)
Definition at_index {A} (arr : list A) (i : number) : option A :=
  match i with
  | Int z => if 0 <=? z then arr !! Z.to_nat z else None
  | NaN => None
  end.

(** [arr.length] *)
Definition len {A} (arr : list A) : Z := Z.of_nat (length arr).

(** [obj.key] on a dictionary object. *)
Definition get (raw : gmap string value) (key : string) : value :=
  default VUndefined (raw !! key).

(** *** Arithmetic and comparison on [number] *)

Definition nadd (a b : number) : number :=
  match a, b with
  | Int x, Int y => Int (x + y)
  | _, _ => NaN
  end.

Definition nsub (a b : number) : number :=
  match a, b with
  | Int x, Int y => Int (x - y)
  | _, _ => NaN
  end.

(** [Math.max] and [Math.min]: [NaN] if either argument is. *)
Definition Math_max (a b : number) : number :=
  match a, b with
  | Int x, Int y => Int (Z.max x y)
  | _, _ => NaN
  end.

Definition Math_min (a b : number) : number :=
  match a, b with
  | Int x, Int y => Int (Z.min x y)
  | _, _ => NaN
  end.

(** [a >= b], [a < b], [a > b], [a <= b]: false when an operand is [NaN]. *)
Definition nge (a b : number) : bool :=
  match a, b with
  | Int x, Int y => y <=? x
  | _, _ => false
  end.

Definition nlt (a b : number) : bool :=
  match a, b with
  | Int x, Int y => x <? y
  | _, _ => false
  end.

Definition ngt (a b : number) : bool := nlt b a.
Definition nle (a b : number) : bool := nge b a.

(** [a !== b] on numbers: [NaN] differs from everything, itself included. *)
Definition nneq (a b : number) : bool :=
  match a, b with
  | Int x, Int y => negb (x =? y)
  | _, _ => true
  end.

Definition isFinite (a : number) : bool :=
  match a with Int _ => true | NaN => false end.

Definition isNaN (a : number) : bool :=
  match a with Int _ => false | NaN => true end.

(** *** Strings *)

Fixpoint map_string (f : ascii -> ascii) (s : string) : string :=
  match s with
  | EmptyString => EmptyString
  | String c s' => String (f c) (map_string f s')
  end.

Definition is_lower (c : ascii) : bool :=
  let n := N_of_ascii c in ((97 <=? n) && (n <=? 122))%N.

Definition is_upper (c : ascii) : bool :=
  let n := N_of_ascii c in ((65 <=? n) && (n <=? 90))%N.

Definition upper_char (c : ascii) : ascii :=
  if is_lower c then ascii_of_N (N_of_ascii c - 32) else c.

Definition lower_char (c : ascii) : ascii :=
  if is_upper c then ascii_of_N (N_of_ascii c + 32) else c.

Definition toUpperCase : string -> string := map_string upper_char.
Definition toLowerCase : string -> string := map_string lower_char.

(** [w] is an initial segment of [s]. *)
Fixpoint is_prefix (w s : string) : bool :=
  match w, s with
  | EmptyString, _ => true
  | String a w', String b s' => bool_decide (a = b) && is_prefix w' s'
  | String _ _, EmptyString => false
  end.

(** [s.startsWith(w)] *)
Definition startsWith (s w : string) : bool := is_prefix w s.

(** [s.includes(w)] *)
Fixpoint includes (s w : string) : bool :=
  is_prefix w s ||
  match s with
  | EmptyString => false
  | String _ s' => includes s' w
  end.

Fixpoint trimStart (s : string) : string :=
  match s with
  | EmptyString => EmptyString
  | String c s' => if Ascii.is_space c then trimStart s' else s
  end.

Definition trimEnd (s : string) : string :=
  String.rev (trimStart (String.rev s)).

(** [s.trim()] *)
Definition trim (s : string) : string := trimEnd (trimStart s).

(** [s.slice(0, n)] for [0 <= n]. *)
Fixpoint slice0 (n : nat) (s : string) : string :=
  match n, s with
  | S n', String c s' => String c (slice0 n' s')
  | _, _ => EmptyString
  end.

(** Truthiness of a string: non-empty. *)
Definition truthy (s : string) : bool :=
  match s with EmptyString => false | _ => true end.

(** [Number.parseInt(s, 10)]: leading white space, an optional sign, then
    the longest run of decimal digits; [NaN] when there is no digit. *)
Fixpoint digits (acc : option Z) (s : string) : option Z :=
  match s with
  | EmptyString => acc
  | String c s' =>
      match Ascii.is_nat c with
      | Some d => digits (Some (10 * default 0 acc + Z.of_nat d)) s'
      | None => acc
      end
  end.

Definition parseInt (s : string) : number :=
  let body := trimStart s in
  let '(neg, rest) :=
    match body with
    | String "-" r => (true, r)
    | String "+" r => (false, r)
    | _ => (false, body)
    end in
  match digits None rest with
  | Some n => Int (if neg then - n else n)
  | None => NaN
  end.

(** [arr.findIndex(p)] *)
Definition findIndex {A} (p : A -> bool) (arr : list A) : Z :=
  match list_find (fun x => p x = true) arr with
  | Some (i, _) => Z.of_nat i
  | None => -1
  end.

(** [arr.indexOf(x)] on an array of strings (strict equality). *)
Definition indexOf (arr : list string) (x : string) : Z :=
  findIndex (fun y => bool_decide (y = x)) arr.

End Js.

Notation "a ?? b" := (Js.nullish a b) (at level 50, left associativity).

(** ** The bridge SDK, at its interface *)

Module Sdk.
Import Js.

(** Modelled from the spec: the members of the SDK enumeration
    [OsEventTypeList] that the applications name, with the numeric
    convention [0=Click, 1=ScrollUp, 2=ScrollDown, 3=DoubleClick]. The
    result [undefined] of the normaliser (the kind Unknown of the
    specification) is [None]. *)
Inductive OsEventTypeList :=
| CLICK_EVENT
| SCROLL_TOP_EVENT
| SCROLL_BOTTOM_EVENT
| DOUBLE_CLICK_EVENT.

Global Instance OsEventTypeList_eq_dec : EqDecision OsEventTypeList.
Proof. solve_decision. Defined.

(** The fields of [EvenHubEvent] that the applications read. An absent
    field holds [VUndefined]; an absent sub-event is [None]. *)
Record ListEvent := {
  list_eventType : value;
  currentSelectItemIndex : value;
  currentSelectItemName : value;
}.

Record EvenHubEvent := {
  listEvent : option ListEvent;
  textEvent : option value;   (* [textEvent.eventType] when present *)
  sysEvent : option value;    (* [sysEvent.eventType] when present *)
  eventType : value;          (* [(event as Record).eventType] *)
  jsonData : option (gmap string value);
}.

(** [obj?.field] *)
Definition opt_chain {A} (obj : option A) (field : A -> value) : value :=
  match obj with
  | Some o => field o
  | None => VUndefined
  end.

(** [event.jsonData ?? {}] *)
Definition raw_of (event : EvenHubEvent) : gmap string value :=
  default ∅ (jsonData event).

(** *** Promises and the remote display *)

(** How a promise settles, and at which instant (in ms after the race
    starts) its reaction runs. *)
Inductive Acquisition (A : Type) :=
| Resolves (at_ms : Z) (v : A)
| Rejects (at_ms : Z) (message : string)
| Pending.
Global Arguments Resolves {A} _ _.
Global Arguments Rejects {A} _ _.
Global Arguments Pending {A}.

(** How a call ends: with a value, or with an error and its message. *)
Inductive completion (A : Type) :=
| Returned (a : A)
| Raised (message : string).
Global Arguments Returned {A} _.
Global Arguments Raised {A} _.

Definition timeout_message (timeoutMs : Z) : string :=
  "Operation timed out after " +:+ pretty timeoutMs +:+ "ms".

(** [withTimeout(promise, timeoutMs)]: the first of the promise and the
    timer to settle decides; the timer rejects. A promise whose reaction
    runs at the very instant of the timer is given to the timer. *)
Definition withTimeout {A} (promise : Acquisition A) (timeoutMs : Z)
  : completion A :=
  match promise with
  | Resolves t v =>
      if t <? timeoutMs then Returned v
      else Raised (timeout_message timeoutMs)
  | Rejects t message =>
      if t <? timeoutMs then Raised message
      else Raised (timeout_message timeoutMs)
  | Pending => Raised (timeout_message timeoutMs)
  end.

(** The promise fails, or does not resolve within the budget. *)
Definition unavailable {A} (promise : Acquisition A) (budget : Z) : Prop :=
  match promise with
  | Resolves t _ => budget < t
  | Rejects _ _ => True
  | Pending => True
  end.

(** The reply of the remote display to one request. *)
Inductive reply := Resolved (b : bool) | Rejected (message : string).

(** Effectful computations over a store [St] that send requests [Req]. *)
Section Eff.
Context {Req St : Type}.

Definition Eff (A : Type) : Type :=
  (Req -> reply) -> St -> list Req -> St * list Req * completion A.

Definition ret {A} (a : A) : Eff A :=
  fun _ s tr => (s, tr, Returned a).

Definition bind {A B} (m : Eff A) (k : A -> Eff B) : Eff B :=
  fun o s tr =>
    match m o s tr with
    | (s', tr', Returned a) => k a o s' tr'
    | (s', tr', Raised e) => (s', tr', Raised e)
    end.

(** [await request]: the request is sent, the reply decides. *)
Definition call (r : Req) : Eff bool :=
  fun o s tr =>
    match o r with
    | Resolved b => (s, tr ++ [r], Returned b)
    | Rejected e => (s, tr ++ [r], Raised e)
    end.

Definition gets {A} (f : St -> A) : Eff A :=
  fun _ s tr => (s, tr, Returned (f s)).

Definition modify (f : St -> St) : Eff unit :=
  fun _ s tr => (f s, tr, Returned tt).

(** [try { m } catch (error) { h error.message }] *)
Definition catch {A} (m : Eff A) (h : string -> Eff A) : Eff A :=
  fun o s tr =>
    match m o s tr with
    | (s', tr', Raised e) => h e o s' tr'
    | r => r
    end.

(** [try { m } finally { f }], for an [f] that does not raise. *)
Definition finally {A} (m : Eff A) (f : St -> St) : Eff A :=
  fun o s tr =>
    match m o s tr with
    | (s', tr', r) => (f s', tr', r)
    end.

(** [void m()]: the promise is dropped, and so is its rejection. *)
Definition void (m : Eff unit) : Eff unit :=
  fun o s tr =>
    match m o s tr with
    | (s', tr', _) => (s', tr', Returned tt)
    end.

(** Lift the outcome of a settled promise. *)
Definition settle {A} (c : completion A) : Eff A :=
  fun _ s tr => (s, tr, c).

Definition run {A} (m : Eff A) (o : Req -> reply) (s : St)
  : St * list Req * completion A := m o s [].

(** The three components of a result. *)
Definition final {A} (r : St * list Req * completion A) : St := r.1.1.
Definition requests {A} (r : St * list Req * completion A) : list Req :=
  r.1.2.
Definition outcome {A} (r : St * list Req * completion A)
  : completion A := r.2.

(** [hoare P m Q]: started in a store that satisfies [P], the
    computation [m] ends, by returning or by raising, in a store that
    satisfies [Q], whatever the remote display replies. *)
Definition hoare {A} (P : St -> Prop) (m : Eff A) (Q : St -> Prop)
  : Prop :=
  forall o s tr, P s -> Q (final (m o s tr)).
End Eff.
Global Arguments Eff : clear implicits.

End Sdk.

Notation "'let!' x ':=' m 'in' k" := (Sdk.bind m (fun x => k))
  (at level 10, x name, m at level 100, k at level 200, only parsing).
Notation "m ;;; k" := (Sdk.bind m (fun _ => k))
  (at level 100, right associativity, only parsing).

(** ** The base_app instance ([apps/base_app/main.ts]) *)

Module BaseApp.
Import Js Sdk.

Definition THEME_OPTIONS : list string := ["Blue"; "Green"; "Orange"].

Record TemplateState := {
  counter : Z;
  active : bool;
  selectedTheme : number;
  lastEvent : string;
}.

Definition initial_state : TemplateState :=
  {| counter := 0; active := false; selectedTheme := Int 0;
     lastEvent := "none" |}.

Definition set_counter (v : Z) (s : TemplateState) : TemplateState :=
  {| counter := v; active := active s; selectedTheme := selectedTheme s;
     lastEvent := lastEvent s |}.
Definition set_active (v : bool) (s : TemplateState) : TemplateState :=
  {| counter := counter s; active := v; selectedTheme := selectedTheme s;
     lastEvent := lastEvent s |}.
Definition set_selectedTheme (v : number) (s : TemplateState)
  : TemplateState :=
  {| counter := counter s; active := active s; selectedTheme := v;
     lastEvent := lastEvent s |}.
Definition set_lastEvent (v : string) (s : TemplateState) : TemplateState :=
  {| counter := counter s; active := active s;
     selectedTheme := selectedTheme s; lastEvent := v |}.

Definition clampThemeIndex (index : number) : number :=
  Math_max (Int 0) (Math_min (Int (len THEME_OPTIONS - 1)) index).

(** [undefined] (an index that is no position of the list) is [None]. *)
Definition getCurrentTheme (s : TemplateState) : option string :=
  at_index THEME_OPTIONS (clampThemeIndex (selectedTheme s)).

Definition getPreviewBackground (theme : option string) (active : bool)
  : string :=
  let alpha := if active then "0.95" else "0.45" in
  match theme with
  | Some "Green" =>
      "linear-gradient(135deg, rgba(12, 90, 46, " +:+ alpha +:+
      "), rgba(27, 140, 90, " +:+ alpha +:+ "))"
  | Some "Orange" =>
      "linear-gradient(135deg, rgba(125, 56, 12, " +:+ alpha +:+
      "), rgba(185, 92, 34, " +:+ alpha +:+ "))"
  | _ =>
      "linear-gradient(135deg, rgba(18, 64, 130, " +:+ alpha +:+
      "), rgba(40, 120, 202, " +:+ alpha +:+ "))"
  end.

Definition getEventTypeLabel (type : option OsEventTypeList) : string :=
  match type with
  | Some CLICK_EVENT => "click"
  | Some DOUBLE_CLICK_EVENT => "double-click"
  | Some SCROLL_TOP_EVENT => "scroll-up"
  | Some SCROLL_BOTTOM_EVENT => "scroll-down"
  | None => "unknown"
  end.

Definition getRawEventType (event : EvenHubEvent) : value :=
  let raw := raw_of event in
  opt_chain (listEvent event) list_eventType ??
  opt_chain (textEvent event) id ??
  opt_chain (sysEvent event) id ??
  eventType event ??
  get raw "eventType" ??
  get raw "event_type" ??
  get raw "Event_Type" ??
  get raw "type".

Definition normalizeEventType (rawEventType : value)
  : option OsEventTypeList :=
  match rawEventType with
  | VNumber n =>
      match n with
      | Int 0 => Some CLICK_EVENT
      | Int 1 => Some SCROLL_TOP_EVENT
      | Int 2 => Some SCROLL_BOTTOM_EVENT
      | Int 3 => Some DOUBLE_CLICK_EVENT
      | _ => None
      end
  | VString s =>
      let value := toUpperCase s in
      if includes value "DOUBLE" then Some DOUBLE_CLICK_EVENT
      else if includes value "CLICK" then Some CLICK_EVENT
      else if includes value "SCROLL_TOP" || includes value "UP"
           then Some SCROLL_TOP_EVENT
      else if includes value "SCROLL_BOTTOM" || includes value "DOWN"
           then Some SCROLL_BOTTOM_EVENT
      else None
  | _ => None
  end.

Definition parseIndex (v : value) : number :=
  match v with
  | VNumber n => n
  | VString s => parseInt s
  | _ => Int (-1)
  end.

Definition normalizeName (v : value) : string :=
  match v with
  | VString s => toLowerCase (trim s)
  | _ => ""
  end.

Definition in_theme_range (n : number) : bool :=
  isFinite n && nge n (Int 0) && nlt n (Int (len THEME_OPTIONS)).

(** The local constants of [parseIncomingThemeIndex]. *)
Definition indexFromList (event : EvenHubEvent) : value :=
  opt_chain (listEvent event) currentSelectItemIndex.

Definition indexFromRaw (event : EvenHubEvent) : value :=
  let raw := raw_of event in
  get raw "currentSelectItemIndex" ??
  get raw "current_select_item_index" ??
  get raw "currentSelectedIndex" ??
  get raw "current_selected_index".

Definition nameFromList (event : EvenHubEvent) : value :=
  opt_chain (listEvent event) currentSelectItemName.

Definition nameFromRaw (event : EvenHubEvent) : value :=
  let raw := raw_of event in
  get raw "currentSelectItemName" ??
  get raw "current_select_item_name" ??
  get raw "currentSelectedName" ??
  get raw "current_selected_name".

Definition incomingName (event : EvenHubEvent) : string :=
  or_else (normalizeName (nameFromList event))
          (normalizeName (nameFromRaw event)).

Definition parseIncomingThemeIndex (event : EvenHubEvent) : number :=
  let parsed := parseIndex (indexFromList event) in
  if in_theme_range parsed then parsed else
  let parsedRaw := parseIndex (indexFromRaw event) in
  if in_theme_range parsedRaw then parsedRaw else
  let incomingName := incomingName event in
  if truthy incomingName then
    let byExactName :=
      findIndex (fun name => String.eqb (toLowerCase name) incomingName)
                THEME_OPTIONS in
    if 0 <=? byExactName then Int byExactName else
    let byPrefix :=
      findIndex (fun name => startsWith incomingName (toLowerCase name))
                THEME_OPTIONS in
    if 0 <=? byPrefix then Int byPrefix else Int (-1)
  else Int (-1).

Definition hasIncomingIndex (event : EvenHubEvent) : bool :=
  let incomingIndex := parseIncomingThemeIndex event in
  nge incomingIndex (Int 0) && nlt incomingIndex (Int (len THEME_OPTIONS)).

Definition updateStateFromHubSelection
    (event : EvenHubEvent) (eventType : option OsEventTypeList)
    (state : TemplateState) : TemplateState :=
  let incomingIndex := parseIncomingThemeIndex event in
  let hasIncomingIndex := hasIncomingIndex event in
  let hasListEvent := bool_decide (is_Some (listEvent event)) in
  match eventType with
  | Some SCROLL_TOP_EVENT =>
      set_selectedTheme
        (if hasIncomingIndex then clampThemeIndex incomingIndex
         else clampThemeIndex (nsub (selectedTheme state) (Int 1))) state
  | Some SCROLL_BOTTOM_EVENT =>
      set_selectedTheme
        (if hasIncomingIndex then clampThemeIndex incomingIndex
         else clampThemeIndex (nadd (selectedTheme state) (Int 1))) state
  | Some CLICK_EVENT =>
      set_selectedTheme
        (if hasIncomingIndex then clampThemeIndex incomingIndex else Int 0)
        state
  | _ =>
      if bool_decide (eventType = None) && hasListEvent then
        let state1 :=
          set_selectedTheme
            (if hasIncomingIndex then clampThemeIndex incomingIndex
             else Int 0) state in
        if negb hasIncomingIndex
        then set_lastEvent "glasses: list-fallback -> Blue" state1
        else state1
      else if hasIncomingIndex
      then set_selectedTheme (clampThemeIndex incomingIndex) state
      else state
  end.

(** *** The two surfaces *)

Inductive SurfaceMode := Bridge | Mock.

(** A [TemplateClient] object. Each bridge client owns its private
    [startupRendered] flag, kept in the store [clients] under the client's
    number; [templateClient] and the value returned by [initTemplate] may
    refer to the same client. *)
Inductive ClientRef := MockClient | BridgeClient (id : nat).

Definition mode (c : ClientRef) : SurfaceMode :=
  match c with MockClient => Mock | BridgeClient _ => Bridge end.

(** What the browser panel shows. *)
Record BrowserUi := {
  counterValue : string;
  stateValue : string;
  themeValue : string;
  lastEventValue : string;
  previewBackground : string;
  barFillWidth : string;
}.

Record World := {
  state : TemplateState;
  clients : list bool;
  templateClient : option ClientRef;
  browserUi : option BrowserUi;
  status : string;
}.

Definition on_state (f : TemplateState -> TemplateState) (w : World)
  : World :=
  {| state := f (state w); clients := clients w;
     templateClient := templateClient w; browserUi := browserUi w;
     status := status w |}.
Definition set_clients (v : list bool) (w : World) : World :=
  {| state := state w; clients := v; templateClient := templateClient w;
     browserUi := browserUi w; status := status w |}.
Definition set_templateClient (v : option ClientRef) (w : World) : World :=
  {| state := state w; clients := clients w; templateClient := v;
     browserUi := browserUi w; status := status w |}.
Definition set_browserUi (v : option BrowserUi) (w : World) : World :=
  {| state := state w; clients := clients w;
     templateClient := templateClient w; browserUi := v;
     status := status w |}.
Definition setStatus (v : string) (w : World) : World :=
  {| state := state w; clients := clients w;
     templateClient := templateClient w; browserUi := browserUi w;
     status := v |}.

(** Requests to the remote display, with the text they carry. *)
Inductive Request :=
| PageRender (stateText counterText : string)
| UpdateStateText (content : string)
| UpdateCounterText (content : string).

Definition panel_of (s : TemplateState) : BrowserUi :=
  let theme := getCurrentTheme s in
  let normalizedCounter := Z.max 0 (Z.min 100 (counter s)) in
  {| counterValue := pretty (counter s);
     stateValue := if active s then "active" else "idle";
     themeValue := default "" theme;
     lastEventValue := lastEvent s;
     previewBackground := getPreviewBackground theme (active s);
     barFillWidth := pretty normalizedCounter +:+ "%" |}.

Definition renderBrowserPanel (w : World) : World :=
  match browserUi w with
  | None => w
  | Some _ => set_browserUi (Some (panel_of (state w))) w
  end.

Definition stateTextContent (s : TemplateState) : string :=
  "Base Template | State: " +:+ (if active s then "active" else "idle") +:+
  " | Theme: " +:+ default "undefined" (getCurrentTheme s).

Definition counterTextContent (s : TemplateState) : string :=
  "Counter: " +:+ pretty (counter s) +:+ " | Last: " +:+ lastEvent s.

(** [syncToGlasses] of the bridge client [id]. *)
Definition syncToGlasses (id : nat) : Eff Request World unit :=
  let! s := gets state in
  let stateText := stateTextContent s in
  let counterText := counterTextContent s in
  let! startupRendered := gets (fun w => default false (clients w !! id)) in
  if negb startupRendered then
    call (PageRender stateText counterText) ;;;
    modify (fun w => set_clients (<[id := true]> (clients w)) w)
  else
    let! stateUpdated := call (UpdateStateText stateText) in
    let! counterUpdated := call (UpdateCounterText counterText) in
    if negb stateUpdated || negb counterUpdated then
      call (PageRender stateText counterText) ;;; ret tt
    else ret tt.

Definition client_syncToGlasses (c : ClientRef) : Eff Request World unit :=
  match c with
  | MockClient => ret tt
  | BridgeClient id => syncToGlasses id
  end.

Definition client_start (c : ClientRef) : Eff Request World unit :=
  match c with
  | MockClient => ret tt
  | BridgeClient id => syncToGlasses id
  end.

(** The listener that the bridge client [id] registers. *)
Definition listener (id : nat) (event : EvenHubEvent)
  : Eff Request World unit :=
  let eventType := normalizeEventType (getRawEventType event) in
  modify (on_state (updateStateFromHubSelection event eventType)) ;;;
  modify (on_state (fun s =>
    match eventType with
    | Some CLICK_EVENT => set_active (negb (active s)) s
    | Some DOUBLE_CLICK_EVENT => set_active false (set_counter 0 s)
    | _ => s
    end)) ;;;
  modify (on_state
    (set_lastEvent ("glasses: " +:+ getEventTypeLabel eventType))) ;;;
  modify renderBrowserPanel ;;;
  void (syncToGlasses id).

(** [getBridgeTemplateClient]: a new client, its flag false. *)
Definition getBridgeTemplateClient : Eff Request World ClientRef :=
  let! id := gets (fun w => length (clients w)) in
  modify (fun w => set_clients (clients w ++ [false]) w) ;;;
  ret (BridgeClient id).

Definition getMockTemplateClient : Eff Request World ClientRef :=
  ret MockClient.

Definition initTemplate (getRawBridge : Acquisition unit)
    (timeoutMs : option Z) : Eff Request World ClientRef :=
  let timeoutMs := default 4000 timeoutMs in
  catch
    (settle (withTimeout getRawBridge timeoutMs) ;;;
     let! held := gets templateClient in
     match held with
     | Some (BridgeClient id) => ret (BridgeClient id)
     | _ =>
         let! fresh := getBridgeTemplateClient in
         modify (set_templateClient (Some fresh)) ;;;
         ret fresh
     end)
    (fun _ => getMockTemplateClient).

(** The callback handed to the panel: [templateClient.syncToGlasses()]
    when a client is held. *)
Definition panel_sync : Eff Request World unit :=
  let! held := gets templateClient in
  match held with
  | Some c => client_syncToGlasses c
  | None => ret tt
  end.

(** The buttons of the browser panel. *)
Inductive Button := Minus | Plus | Reset | Sync.

Definition click (b : Button) : Eff Request World unit :=
  modify (on_state (fun s =>
    match b with
    | Minus => set_lastEvent "web: counter -1"
                 (set_counter (Z.max 0 (counter s - 1)) s)
    | Plus => set_lastEvent "web: counter +1" (set_counter (counter s + 1) s)
    | Reset => set_lastEvent "web: reset"
                 (set_active false (set_counter 0 s))
    | Sync => set_lastEvent "web: manual sync" s
    end)) ;;;
  modify renderBrowserPanel ;;;
  void panel_sync.

(** [ensureBrowserPanel], when the page has its [#app] root. *)
Definition ensureBrowserPanel (w : World) : World :=
  match browserUi w with
  | Some _ => w
  | None => set_browserUi (Some (panel_of (state w))) w
  end.

Definition connect (getRawBridge : Acquisition unit)
  : Eff Request World unit :=
  modify (setStatus "Base template: connecting to Even bridge...") ;;;
  catch
    (let! template := initTemplate getRawBridge None in
     modify (set_templateClient (Some template)) ;;;
     client_start template ;;;
     modify renderBrowserPanel ;;;
     match mode template with
     | Bridge =>
         modify (setStatus
           "Base template: connected. Web panel + glasses view are synchronized.")
     | Mock =>
         modify (setStatus
           "Base template: bridge unavailable. Running browser-only mock mode.")
     end)
    (fun _ => modify (setStatus "Base template: connection failed")).

Definition action : Eff Request World unit :=
  let! held := gets templateClient in
  match held with
  | None => modify (setStatus "Base template: not connected")
  | Some c =>
      modify (on_state (fun s =>
        set_lastEvent "web: main action button"
          (set_counter (counter s + 1) s))) ;;;
      modify renderBrowserPanel ;;;
      client_syncToGlasses c ;;;
      modify (setStatus "Base template: counter incremented and synced.")
  end.

Definition initial_world : World :=
  {| state := initial_state; clients := []; templateClient := None;
     browserUi := None; status := "" |}.

End BaseApp.

(** ** The browser's [select] element, at its interface

    A drop-down [HTMLSelectElement] as the REST-API panel uses it: the values
    of its options in order, and [selectedIndex] ([-1] when no option is
    selected). After an insertion or a removal the browser selects the first
    option when none is selected. *)

Module Dom.
Import Js.

Record HTMLSelectElement := {
  options : list string;
  selectedIndex : Z;
}.

Definition in_options (i : Z) (opts : list string) : bool :=
  (0 <=? i) && (i <? len opts).

Definition reselect (s : HTMLSelectElement) : HTMLSelectElement :=
  if in_options (selectedIndex s) (options s) then s
  else {| options := options s;
          selectedIndex := if 0 <? len (options s) then 0 else -1 |}.

(** [select.value] *)
Definition value (s : HTMLSelectElement) : string :=
  default "" (at_index (options s) (Int (selectedIndex s))).

(** [select.value = v] *)
Definition set_value (v : string) (s : HTMLSelectElement)
  : HTMLSelectElement :=
  {| options := options s;
     selectedIndex := indexOf (options s) v |}.

(** [select.selectedIndex = n] *)
Definition set_selectedIndex (n : number) (s : HTMLSelectElement)
  : HTMLSelectElement :=
  let i := match n with Int z => z | NaN => 0 end in
  {| options := options s;
     selectedIndex := if in_options i (options s) then i else -1 |}.

(** [select.append(option)] *)
Definition append (v : string) (s : HTMLSelectElement) : HTMLSelectElement :=
  reselect {| options := options s ++ [v];
              selectedIndex := selectedIndex s |}.

(** [select.remove(i)] *)
Definition remove (i : Z) (s : HTMLSelectElement) : HTMLSelectElement :=
  if in_options i (options s) then
    reselect
      {| options := delete (Z.to_nat i) (options s);
         selectedIndex :=
           if i <? selectedIndex s then selectedIndex s - 1
           else if i =? selectedIndex s then -1
           else selectedIndex s |}
  else s.

Definition empty : HTMLSelectElement :=
  {| options := []; selectedIndex := -1 |}.

End Dom.

(** ** The REST-API instance *)

Module RestApi.
Import Js Sdk.

Definition DEFAULT_URLS : list string :=
  ["http://livingkitchen.local/rest/system/clock";
   "http://livingkitchen.local/rest/rgb/toggle"].

Inductive SurfaceMode := Bridge | Mock.

(** [bridgeState]. A bridge handle is known by its number;
    [onSelectAndRun] tells whether the runner is installed (the only runner
    is [runRequestByIndex]). *)
Record BridgeState := {
  bridge : option nat;
  startupRendered : bool;
  eventLoopRegistered : bool;
  selectedIndex : number;
  statusMessage : string;
  onSelectAndRun : bool;
}.

Definition initial_bridgeState : BridgeState :=
  {| bridge := None; startupRendered := false;
     eventLoopRegistered := false; selectedIndex := Int 0;
     statusMessage := "Select URL and click"; onSelectAndRun := false |}.

Definition set_bridge (v : option nat) (b : BridgeState) : BridgeState :=
  {| bridge := v; startupRendered := startupRendered b;
     eventLoopRegistered := eventLoopRegistered b;
     selectedIndex := selectedIndex b; statusMessage := statusMessage b;
     onSelectAndRun := onSelectAndRun b |}.
Definition set_startupRendered (v : bool) (b : BridgeState) : BridgeState :=
  {| bridge := bridge b; startupRendered := v;
     eventLoopRegistered := eventLoopRegistered b;
     selectedIndex := selectedIndex b; statusMessage := statusMessage b;
     onSelectAndRun := onSelectAndRun b |}.
Definition set_eventLoopRegistered (v : bool) (b : BridgeState)
  : BridgeState :=
  {| bridge := bridge b; startupRendered := startupRendered b;
     eventLoopRegistered := v;
     selectedIndex := selectedIndex b; statusMessage := statusMessage b;
     onSelectAndRun := onSelectAndRun b |}.
Definition set_selectedIndex (v : number) (b : BridgeState) : BridgeState :=
  {| bridge := bridge b; startupRendered := startupRendered b;
     eventLoopRegistered := eventLoopRegistered b;
     selectedIndex := v; statusMessage := statusMessage b;
     onSelectAndRun := onSelectAndRun b |}.
Definition set_statusMessage (v : string) (b : BridgeState) : BridgeState :=
  {| bridge := bridge b; startupRendered := startupRendered b;
     eventLoopRegistered := eventLoopRegistered b;
     selectedIndex := selectedIndex b; statusMessage := v;
     onSelectAndRun := onSelectAndRun b |}.
Definition set_onSelectAndRun (v : bool) (b : BridgeState) : BridgeState :=
  {| bridge := bridge b; startupRendered := startupRendered b;
     eventLoopRegistered := eventLoopRegistered b;
     selectedIndex := selectedIndex b; statusMessage := statusMessage b;
     onSelectAndRun := v |}.

(** The panel [RestUiState]: the [select] element, the response area and
    the text of the input field. *)
Record RestUiState := {
  select : Dom.HTMLSelectElement;
  response : string;
  addInput : string;
}.

(** The store. [ui] and [activeSelectEl] are assigned together by
    [connect] and [activeSelectEl] is [ui.select] itself, so that one field
    stands for both. *)
Record World := {
  bridgeState : BridgeState;
  bridgeDisplay : option SurfaceMode;
  ui : option RestUiState;
  uiInitialized : bool;
  isFetching : bool;
  status : string;
}.

Definition on_bridgeState (f : BridgeState -> BridgeState) (w : World)
  : World :=
  {| bridgeState := f (bridgeState w); bridgeDisplay := bridgeDisplay w;
     ui := ui w; uiInitialized := uiInitialized w;
     isFetching := isFetching w; status := status w |}.
Definition set_bridgeDisplay (v : option SurfaceMode) (w : World) : World :=
  {| bridgeState := bridgeState w; bridgeDisplay := v;
     ui := ui w; uiInitialized := uiInitialized w;
     isFetching := isFetching w; status := status w |}.
Definition set_ui (v : option RestUiState) (w : World) : World :=
  {| bridgeState := bridgeState w; bridgeDisplay := bridgeDisplay w;
     ui := v; uiInitialized := uiInitialized w;
     isFetching := isFetching w; status := status w |}.
Definition set_uiInitialized (v : bool) (w : World) : World :=
  {| bridgeState := bridgeState w; bridgeDisplay := bridgeDisplay w;
     ui := ui w; uiInitialized := v;
     isFetching := isFetching w; status := status w |}.
Definition set_isFetching (v : bool) (w : World) : World :=
  {| bridgeState := bridgeState w; bridgeDisplay := bridgeDisplay w;
     ui := ui w; uiInitialized := uiInitialized w;
     isFetching := v; status := status w |}.
Definition setStatus (v : string) (w : World) : World :=
  {| bridgeState := bridgeState w; bridgeDisplay := bridgeDisplay w;
     ui := ui w; uiInitialized := uiInitialized w;
     isFetching := isFetching w; status := v |}.

Definition on_select
    (f : Dom.HTMLSelectElement -> Dom.HTMLSelectElement) (w : World)
  : World :=
  set_ui ((fun u => {| select := f (select u); response := response u;
                       addInput := addInput u |}) <$> ui w) w.
Definition set_response (v : string) (w : World) : World :=
  set_ui ((fun u => {| select := select u; response := v;
                       addInput := addInput u |}) <$> ui w) w.
Definition set_addInput (v : string) (w : World) : World :=
  set_ui ((fun u => {| select := select u; response := response u;
                       addInput := v |}) <$> ui w) w.

Definition getRawEventType (event : EvenHubEvent) : value :=
  let raw := raw_of event in
  opt_chain (listEvent event) list_eventType ??
  opt_chain (textEvent event) id ??
  opt_chain (sysEvent event) id ??
  eventType event ??
  get raw "eventType" ??
  get raw "event_type" ??
  get raw "Event_Type" ??
  get raw "type".

Definition normalizeEventType (rawEventType : value)
  : option OsEventTypeList :=
  match rawEventType with
  | VNumber n =>
      match n with
      | Int 0 => Some CLICK_EVENT
      | Int 1 => Some SCROLL_TOP_EVENT
      | Int 2 => Some SCROLL_BOTTOM_EVENT
      | Int 3 => Some DOUBLE_CLICK_EVENT
      | _ => None
      end
  | VString s =>
      let value := toUpperCase s in
      if includes value "DOUBLE" then Some DOUBLE_CLICK_EVENT
      else if includes value "CLICK" then Some CLICK_EVENT
      else if includes value "SCROLL_TOP" || includes value "UP"
           then Some SCROLL_TOP_EVENT
      else if includes value "SCROLL_BOTTOM" || includes value "DOWN"
           then Some SCROLL_BOTTOM_EVENT
      else None
  | _ => None
  end.

Definition clampIndex (index : number) (length : Z) : number :=
  if length <=? 0 then Int 0
  else Math_max (Int 0) (Math_min (Int (length - 1)) index).

Definition toListLabel (url : string) : string :=
  if Z.of_nat (String.length url) <=? 62 then url
  else slice0 59 url +:+ "...".

(** *** The remote display *)

(** The part of the page description that depends on the state: the text
    of the status container, the list items and the selected item. *)
Record PageConfig := {
  statusContent : string;
  itemCount : Z;
  itemName : list string;
  currentSelectedItem : number;
}.

Inductive Request :=
| CreateStartUpPageContainer (bridge : nat) (config : PageConfig)
| RebuildPageContainer (bridge : nat) (config : PageConfig).

(** The local constant [config] of [renderBridgePage]. *)
Definition pageConfig (urls : list string) (selectedIndex : number)
    (statusMessage : string) : PageConfig :=
  let safeUrls := if 0 <? len urls then urls else ["No URL configured"] in
  let safeSelected := clampIndex selectedIndex (len safeUrls) in
  {| statusContent := statusMessage;
     itemCount := len safeUrls;
     itemName := toListLabel <$> safeUrls;
     currentSelectedItem := safeSelected |}.

Definition renderBridgePage (bridge : nat) (urls : list string)
    (selectedIndex : number) (statusMessage : string)
  : Eff Request World unit :=
  let config := pageConfig urls selectedIndex statusMessage in
  let! rendered := gets (fun w => startupRendered (bridgeState w)) in
  if negb rendered then
    call (CreateStartUpPageContainer bridge config) ;;;
    modify (on_bridgeState (set_startupRendered true))
  else
    call (RebuildPageContainer bridge config) ;;; ret tt.

Definition getAllUrls (s : Dom.HTMLSelectElement) : list string :=
  Dom.options s.

Definition getActiveUrls (w : World) : list string :=
  match ui w with
  | None => DEFAULT_URLS
  | Some u => getAllUrls (select u)
  end.

Definition syncBrowserSelection (index : number) (w : World) : World :=
  match ui w with
  | None => w
  | Some u =>
      let urls := getAllUrls (select u) in
      if len urls =? 0 then w
      else
        let clamped := clampIndex index (len urls) in
        on_bridgeState (set_selectedIndex clamped)
          (on_select (Dom.set_selectedIndex clamped) w)
  end.

(** The methods of a [BridgeDisplay], by its mode. *)
Definition display_show (d : SurfaceMode) (message : string)
  : Eff Request World unit :=
  match d with
  | Mock => ret tt
  | Bridge =>
      let! urls := gets getActiveUrls in
      modify (on_bridgeState (set_statusMessage message)) ;;;
      let! b := gets bridgeState in
      match bridge b with
      | Some h => renderBridgePage h urls (selectedIndex b) (statusMessage b)
      | None => settle (Raised "TypeError: bridge is null")
      end
  end.

Definition display_renderList (d : SurfaceMode) (urls : list string)
    (index : number) (message : option string) : Eff Request World unit :=
  match d with
  | Mock => ret tt
  | Bridge =>
      modify (on_bridgeState (set_selectedIndex (clampIndex index (len urls)))) ;;;
      modify (on_bridgeState (fun b =>
        match message with
        | Some m => if truthy m then set_statusMessage m b else b
        | None => b
        end)) ;;;
      let! b := gets bridgeState in
      match bridge b with
      | Some h => renderBridgePage h urls (selectedIndex b) (statusMessage b)
      | None => settle (Raised "TypeError: bridge is null")
      end
  end.

Definition display_onSelectAndRun (d : SurfaceMode) (w : World) : World :=
  match d with
  | Mock => w
  | Bridge => on_bridgeState (set_onSelectAndRun true) w
  end.

Definition show_if_display (message : string) : Eff Request World unit :=
  let! d := gets bridgeDisplay in
  match d with
  | Some m => display_show m message
  | None => ret tt
  end.

Definition newline : string := String (ascii_of_nat 10) "".

(** [s.replace(/\s+/g, ' ')] *)
Fixpoint collapse (in_space : bool) (s : string) : string :=
  match s with
  | EmptyString => EmptyString
  | String c s' =>
      if Ascii.is_space c then
        if in_space then collapse true s' else String " " (collapse true s')
      else String c (collapse false s')
  end.

(** [fetchAsText] is the network: it yields a status line and a body, or
    fails with a message. *)
Definition runRequestByIndex
    (fetchAsText : string -> completion (string * string))
    (index : number) : Eff Request World unit :=
  let! shown := gets ui in
  match shown with
  | None => ret tt
  | Some u =>
      let urls := getAllUrls (select u) in
      if len urls =? 0 then modify (setStatus "No URL selected")
      else
        let clamped := clampIndex index (len urls) in
        modify (on_select (Dom.set_selectedIndex clamped)) ;;;
        modify (on_bridgeState (set_selectedIndex clamped)) ;;;
        let! busy := gets isFetching in
        if busy then modify (setStatus "Request already in progress")
        else
          let url := default "undefined" (at_index urls clamped) in
          modify (setStatus ("Fetching " +:+ url +:+ " ...")) ;;;
          show_if_display "Loading..." ;;;
          modify (set_isFetching true) ;;;
          finally
            (catch
               (let! r := settle (fetchAsText url) in
                let statusLine := fst r in
                let body := snd r in
                let preview :=
                  if 200 <? Z.of_nat (String.length body)
                  then slice0 200 body +:+ "..." else body in
                modify (set_response body) ;;;
                modify (setStatus ("GET complete: " +:+ statusLine)) ;;;
                let compactPreview := slice0 96 (collapse false preview) in
                show_if_display
                  ("GET " +:+ statusLine +:+ newline +:+ compactPreview))
               (fun message =>
                  modify (set_response
                    ("Request failed:" +:+ newline +:+ message)) ;;;
                  modify (setStatus "GET failed") ;;;
                  show_if_display ("GET failed: " +:+ slice0 80 message)))
            (set_isFetching false)
  end.

(** *** Events of the bridge *)

Definition registerBridgeEvents (w : World) : World :=
  if eventLoopRegistered (bridgeState w) then w
  else on_bridgeState (set_eventLoopRegistered true) w.

Definition run_selected
    (fetchAsText : string -> completion (string * string))
  : Eff Request World unit :=
  let! b := gets bridgeState in
  if onSelectAndRun b then runRequestByIndex fetchAsText (selectedIndex b)
  else ret tt.

(** The local constants of the handler of bridge events. *)
Definition hasListEvent (event : EvenHubEvent) : bool :=
  bool_decide (is_Some (listEvent event)).

Definition parsedIncomingIndex (urls : list string) (event : EvenHubEvent)
  : number :=
  let labels := toListLabel <$> urls in
  let incomingIndexRaw :=
    opt_chain (listEvent event) currentSelectItemIndex in
  let incomingName := opt_chain (listEvent event) currentSelectItemName in
  let incomingIndexByName :=
    match incomingName with
    | VString name => Int (indexOf labels name)
    | _ => Int (-1)
    end in
  match incomingIndexRaw with
  | VNumber n => n
  | VString s => parseInt s
  | _ => incomingIndexByName
  end.

Definition incomingIndex (urls : list string) (event : EvenHubEvent)
  : number :=
  let parsed := parsedIncomingIndex urls event in
  if hasListEvent event && (isNaN parsed || nlt parsed (Int 0))
  then Int 0 else parsed.

Definition hasIncomingIndex (urls : list string) (event : EvenHubEvent)
  : bool :=
  nge (incomingIndex urls event) (Int 0) &&
  nlt (incomingIndex urls event) (Int (len urls)).

(** [eventType] after the handler has replaced an unknown type of a list
    event. *)
Definition eventTypeOf (urls : list string) (current : number)
    (event : EvenHubEvent) : option OsEventTypeList :=
  let eventType := normalizeEventType (getRawEventType event) in
  if bool_decide (eventType = None) && hasListEvent event then
    if hasIncomingIndex urls event && ngt (incomingIndex urls event) current
    then Some SCROLL_BOTTOM_EVENT
    else if hasIncomingIndex urls event
            && nlt (incomingIndex urls event) current
    then Some SCROLL_TOP_EVENT
    else Some CLICK_EVENT
  else eventType.

(** The handler that [registerBridgeEvents] installs on [bridge]. *)
Definition onEvenHubEvent
    (fetchAsText : string -> completion (string * string))
    (bridge : nat) (event : EvenHubEvent) : Eff Request World unit :=
  let! urls := gets getActiveUrls in
  if len urls =? 0 then ret tt
  else
    let incomingIndex := incomingIndex urls event in
    let hasIncomingIndex := hasIncomingIndex urls event in
    let hasListEvent := hasListEvent event in
    let! current := gets (fun w => selectedIndex (bridgeState w)) in
    let eventType := eventTypeOf urls current event in
    let scroll (step : number -> number) : Eff Request World unit :=
      let previousIndex := current in
      modify (on_bridgeState (set_selectedIndex
        (clampIndex (if hasIncomingIndex then incomingIndex
                     else step current) (len urls)))) ;;;
      let! sel := gets (fun w => selectedIndex (bridgeState w)) in
      modify (syncBrowserSelection sel) ;;;
      let! b := gets bridgeState in
      renderBridgePage bridge urls (selectedIndex b) (statusMessage b) ;;;
      let! sel := gets (fun w => selectedIndex (bridgeState w)) in
      if nneq sel previousIndex then run_selected fetchAsText else ret tt in
    if bool_decide (eventType = Some SCROLL_BOTTOM_EVENT) then
      scroll (fun i => nadd i (Int 1))
    else if bool_decide (eventType = Some SCROLL_TOP_EVENT) then
      scroll (fun i => nsub i (Int 1))
    else if bool_decide (eventType = Some CLICK_EVENT)
            || (bool_decide (eventType = None) && hasListEvent) then
      let selected :=
        if hasIncomingIndex then clampIndex incomingIndex (len urls)
        else current in
      modify (on_bridgeState (set_selectedIndex selected)) ;;;
      modify (syncBrowserSelection selected) ;;;
      run_selected fetchAsText
    else ret tt.

Definition initBridgeDisplay (waitForEvenAppBridge : Acquisition nat)
    (timeoutMs : option Z) : Eff Request World SurfaceMode :=
  let timeoutMs := default 4000 timeoutMs in
  catch
    (let! h := settle (withTimeout waitForEvenAppBridge timeoutMs) in
     modify (on_bridgeState (set_bridge (Some h))) ;;;
     modify registerBridgeEvents ;;;
     let! d := gets bridgeDisplay in
     match d with
     | Some Bridge => ret Bridge
     | _ => modify (set_bridgeDisplay (Some Bridge)) ;;; ret Bridge
     end)
    (fun _ =>
       modify (on_bridgeState (set_bridge None)) ;;;
       modify (on_bridgeState (set_startupRendered false)) ;;;
       modify (on_bridgeState (set_statusMessage "Select URL and click")) ;;;
       modify (set_bridgeDisplay (Some Mock)) ;;;
       ret Mock).

(** *** The browser panel *)

Definition ensureOption (url : string) (s : Dom.HTMLSelectElement)
  : Dom.HTMLSelectElement :=
  let trimmed := trim url in
  if negb (truthy trimmed) then s
  else if existsb (String.eqb trimmed) (Dom.options s) then s
  else Dom.append trimmed s.

Definition selectedUrl (s : Dom.HTMLSelectElement) : string :=
  trim (Dom.value s).

(** [ensureUi], when the page has its [#app] root: the controls are built
    once and found again afterwards. *)
Definition ensureUi (w : World) : World :=
  match ui w with
  | Some _ => w
  | None =>
      set_ui (Some
        {| select := foldl (fun s url => ensureOption url s)
                           Dom.empty DEFAULT_URLS;
           response := "Response output will appear here.";
           addInput := "" |}) w
  end.

Definition updateBridgeListFromBrowserSelect : Eff Request World unit :=
  let! d := gets bridgeDisplay in
  match d with
  | Some Bridge =>
      let! shown := gets ui in
      match shown with
      | None => ret tt
      | Some u =>
          let urls := getAllUrls (select u) in
          let index :=
            clampIndex (Int (Dom.selectedIndex (select u))) (len urls) in
          modify (on_bridgeState (set_selectedIndex index)) ;;;
          void (display_renderList Bridge urls index None)
      end
  | _ => ret tt
  end.

Definition select_onchange : Eff Request World unit :=
  let! shown := gets ui in
  match shown with
  | None => ret tt
  | Some u =>
      let urls := getAllUrls (select u) in
      modify (on_bridgeState (set_selectedIndex
        (clampIndex (Int (Dom.selectedIndex (select u))) (len urls)))) ;;;
      updateBridgeListFromBrowserSelect
  end.

Definition addButton_onclick : Eff Request World unit :=
  let! shown := gets ui in
  match shown with
  | None => ret tt
  | Some u =>
      let inputUrl := trim (addInput u) in
      if negb (truthy inputUrl)
      then modify (setStatus "Enter a URL before adding")
      else
        modify (on_select (ensureOption inputUrl)) ;;;
        modify (on_select (Dom.set_value inputUrl)) ;;;
        modify (set_addInput "") ;;;
        modify (setStatus ("Added URL: " +:+ inputUrl)) ;;;
        updateBridgeListFromBrowserSelect
  end.

Definition removeButton_onclick : Eff Request World unit :=
  let! shown := gets ui in
  match shown with
  | None => ret tt
  | Some u =>
      let current := selectedUrl (select u) in
      if negb (truthy current) then modify (setStatus "No URL selected")
      else
        let selectedIndex := Dom.selectedIndex (select u) in
        modify (on_select (Dom.remove selectedIndex)) ;;;
        modify (on_select (fun s =>
          if 0 <? len (Dom.options s)
          then Dom.set_selectedIndex (Int (Z.max 0 (selectedIndex - 1))) s
          else s)) ;;;
        modify (setStatus ("Removed URL: " +:+ current)) ;;;
        updateBridgeListFromBrowserSelect
  end.

(** The user's gestures on the panel. *)
Definition choose (i : Z) : Eff Request World unit :=
  modify (on_select (Dom.set_selectedIndex (Int i))) ;;; select_onchange.

Definition add_url (text : string) : Eff Request World unit :=
  modify (set_addInput text) ;;; addButton_onclick.

Definition connect (waitForEvenAppBridge : Acquisition nat)
  : Eff Request World unit :=
  modify ensureUi ;;;
  modify (set_uiInitialized true) ;;;
  let! d := initBridgeDisplay waitForEvenAppBridge None in
  modify (set_bridgeDisplay (Some d)) ;;;
  modify (display_onSelectAndRun d) ;;;
  let! shown := gets ui in
  match shown with
  | None => ret tt
  | Some u =>
      let urls := getAllUrls (select u) in
      modify (on_bridgeState (set_selectedIndex
        (clampIndex (Int (Dom.selectedIndex (select u))) (len urls)))) ;;;
      let! b := gets bridgeState in
      match d with
      | Bridge =>
          display_renderList d urls (selectedIndex b)
            (Some "Select URL and click") ;;;
          modify (setStatus
            "REST API ready. Use glasses Up/Down and Click to run URL.")
      | Mock =>
          modify (setStatus
            "REST API controls ready. Bridge not found, browser mode active.")
      end
  end.

Definition action (fetchAsText : string -> completion (string * string))
  : Eff Request World unit :=
  let! shown := gets ui in
  match shown with
  | None => modify (setStatus "Run setup first")
  | Some u =>
      runRequestByIndex fetchAsText (Int (Dom.selectedIndex (select u)))
  end.

Definition initial_world : World :=
  {| bridgeState := initial_bridgeState; bridgeDisplay := None;
     ui := None; uiInitialized := false; isFetching := false;
     status := "" |}.

End RestApi.

(** ** The development server's configuration ([vite.config.ts])

    [path.resolve] and [fs.existsSync] belong to Node and are taken as
    parameters; [process.env] and the parsed [apps.json] are dictionaries of
    strings. *)

Module ViteConfig.
Import Js.

(** [s.split(sep)] for a separator of one character: never empty. *)
Fixpoint split (sep : ascii) (s : string) : list string :=
  match s with
  | EmptyString => [EmptyString]
  | String c s' =>
      if bool_decide (c = sep) then EmptyString :: split sep s'
      else
        match split sep s' with
        | x :: xs => String c x :: xs
        | [] => [String c EmptyString]
        end
  end.

Definition isGitUrl (value : string) : bool :=
  let base := default "" (split "#" value !! 0%nat) in
  startsWith base "https://" || startsWith base "git@".

(** [a ?? b] on the variables of the environment. *)
Definition env_or (a b : option string) : option string :=
  match a with
  | Some _ => a
  | None => b
  end.

(** The quotation mark. *)
Definition dquote : ascii := ascii_of_nat 34.

(** [s.slice(n)] for [0 <= n]. *)
Fixpoint slice_from (n : nat) (s : string) : string :=
  match n, s with
  | S n', String _ s' => slice_from n' s'
  | _, _ => s
  end.

(** What the pattern asks for after the name of the attribute: an equals
    sign, a double or single quotation mark, and a slash that is not
    followed by a slash, an at sign or [http]. The result is the mark. *)
Definition quoted_root (rest : string) : option ascii :=
  match rest with
  | String e (String q (String sl tail)) =>
      if bool_decide (e = "="%char)
         && (bool_decide (q = dquote) || bool_decide (q = "'"%char))
         && bool_decide (sl = "/"%char)
         && negb (is_prefix "/" tail || is_prefix "@" tail
                  || is_prefix "http" tail)
      then Some q
      else None
  | _ => None
  end.

(** One attempt of the pattern at the head of [s]: the attribute [src] or
    [href], then [quoted_root]. The result holds the text of the two
    groups and the number of characters that the match takes. *)
Definition match_here (s : string) : option (string * ascii * nat) :=
  if is_prefix "src" s then
    match quoted_root (slice_from 3 s) with
    | Some q => Some ("src", q, 6%nat)
    | None => None
    end
  else if is_prefix "href" s then
    match quoted_root (slice_from 4 s) with
    | Some q => Some ("href", q, 7%nat)
    | None => None
    end
  else None.

(** [html.replace(pattern, `$1=$2/@fs/${absAppDir}/`)] with the global
    flag, for a directory name that holds no [$]: [skip] counts the
    characters of the last match that are still to be passed over. *)
Fixpoint rewrite_from (absAppDir : string) (skip : nat) (html : string)
  : string :=
  match html with
  | EmptyString => EmptyString
  | String c rest =>
      match skip with
      | S n => rewrite_from absAppDir n rest
      | O =>
          match match_here html with
          | Some (attr, q, n) =>
              attr +:+ "=" +:+ String q ("/@fs/" +:+ absAppDir +:+ "/")
              +:+ rewrite_from absAppDir (Nat.pred n) rest
          | None => String c (rewrite_from absAppDir 0 rest)
          end
      end
  end.

Definition rewriteHtml (absAppDir html : string) : string :=
  rewrite_from absAppDir 0 html.

Section node.
Variable resolve : list string -> string.
Variable existsSync : string -> bool.

Definition APPS_CACHE_DIR : string := resolve [".apps-cache"].

Definition resolveGitEntry (name value : string) : string :=
  let subpath := split "#" value !! 1%nat in
  let base := resolve [APPS_CACHE_DIR; name] in
  match subpath with
  | Some p => if truthy p then resolve [base; p] else base
  | None => base
  end.

(** [apps_json] is the parsed [apps.json], [None] when the file does not
    exist. *)
Definition loadExternalApps (apps_json : option (gmap string string))
    (env : gmap string string) : gmap string string :=
  let apps :=
    match apps_json with
    | Some raw =>
        map_imap (fun name value =>
          Some (if isGitUrl value then resolveGitEntry name value
                else resolve [value])) raw
    | None => ∅
    end in
  let appName :=
    default "" (env_or (env !! "APP_NAME") (env !! "VITE_APP_NAME")) in
  let appPath := default "" (env !! "APP_PATH") in
  if truthy appName && truthy appPath
  then <[appName := resolve [appPath]]> apps
  else apps.

(** [externalAppHtmlPlugin]: the directory of the selected application and
    the path of its [index.html], or [None] ([null], no plugin). The name
    of an application is taken not to be a property that every object
    inherits. *)
Definition externalAppHtmlPlugin (externalApps env : gmap string string)
  : option (string * string) :=
  let selectedApp :=
    default "" (env_or (env !! "VITE_APP_NAME") (env !! "APP_NAME")) in
  match externalApps !! selectedApp with
  | Some appDir =>
      if truthy appDir then
        let absAppDir := resolve [appDir] in
        let htmlPath := resolve [absAppDir; "index.html"] in
        if existsSync htmlPath then Some (absAppDir, htmlPath) else None
      else None
  | None => None
  end.
End node.

End ViteConfig.

(** ** Concrete stores and events, used to exhibit behaviours *)

Module Scenario.
Import Js Sdk.

(** A remote display that accepts every request. *)
Definition accepting {Req : Type} : Req -> reply := fun _ => Resolved true.

(** A network that is down. *)
Definition offline : string -> completion (string * string) :=
  fun _ => Raised "Failed to fetch".

(** base_app once [connect] has succeeded. *)
Definition base_connected : BaseApp.World :=
  final (run (BaseApp.connect (Resolves 10 tt)) accepting
           (BaseApp.ensureBrowserPanel BaseApp.initial_world)).

(** The REST-API instance once [connect] has succeeded on handle 7, and
    once it has failed. *)
Definition rest_connected : RestApi.World :=
  final (run (RestApi.connect (Resolves 10 7%nat)) accepting
           RestApi.initial_world).

Definition rest_mock : RestApi.World :=
  final (run (RestApi.connect Pending) accepting RestApi.initial_world).

(** An event with a list payload [{eventType, index, name}] only. *)
Definition list_event (type index name : value) : EvenHubEvent :=
  {| listEvent := Some {| list_eventType := type;
                          currentSelectItemIndex := index;
                          currentSelectItemName := name |};
     textEvent := None; sysEvent := None; eventType := VUndefined;
     jsonData := None |}.

(** An event with a system payload [{eventType}] only. *)
Definition sys_event (type : value) : EvenHubEvent :=
  {| listEvent := None; textEvent := None; sysEvent := Some type;
     eventType := VUndefined; jsonData := None |}.

End Scenario.

(** ** The specification's own wording, for comparison with the code *)

Module Spec.
Import Js Sdk.

(** Two characters that differ at most in case. *)
Definition same_letter (a b : ascii) : bool :=
  bool_decide (upper_char a = upper_char b).

Fixpoint prefix_nocase (w s : string) : bool :=
  match w, s with
  | EmptyString, _ => true
  | String a w', String b s' => same_letter a b && prefix_nocase w' s'
  | String _ _, EmptyString => false
  end.

(** Case-insensitive substring match: [w] occurs somewhere in [s]. *)
Fixpoint contains_nocase (s w : string) : bool :=
  prefix_nocase w s ||
  match s with
  | EmptyString => false
  | String _ s' => contains_nocase s' w
  end.

(** The string domain of the normaliser, in the stated precedence. *)
Definition normalize_string (s : string) : option OsEventTypeList :=
  if contains_nocase s "DOUBLE" then Some DOUBLE_CLICK_EVENT
  else if contains_nocase s "CLICK" then Some CLICK_EVENT
  else if contains_nocase s "SCROLL_TOP" || contains_nocase s "UP"
  then Some SCROLL_TOP_EVENT
  else if contains_nocase s "SCROLL_BOTTOM" || contains_nocase s "DOWN"
  then Some SCROLL_BOTTOM_EVENT
  else None.

(** [s] contains the lower-case word [w] written in any case. *)
Definition occurs_in_any_case (w s : string) : Prop :=
  exists pre mid post, s = pre +:+ mid +:+ post /\ toLowerCase mid = w.

(** [a] is a prefix of [b]. *)
Definition is_prefix_of (a b : string) : Prop :=
  exists rest, b = a +:+ rest.

(** [r] is the position of the first element of [opts] that satisfies
    [P], or [-1] when there is none. *)
Definition first_match (P : string -> Prop) (opts : list string) (r : Z)
  : Prop :=
  (exists (i : nat) label,
      r = Z.of_nat i /\ opts !! i = Some label /\ P label /\
      forall (j : nat) other,
        (j < i)%nat -> opts !! j = Some other -> ~ P other)
  \/ (r = -1 /\ forall label, label ∈ opts -> ~ P label).

(** [n] is an index of a list of length [L]. *)
Definition index_in_range (L : Z) (n : number) : Prop :=
  exists i, n = Int i /\ 0 <= i <= L - 1.

(** The selection that the reconciler of base_app leaves, from the
    selection [i]: the resolved index when there is one; otherwise one step
    up or down within the list, row 0 on a click and on a list payload of
    unknown type, and no change in the other cases. *)
Definition base_reconcile (event : EvenHubEvent)
    (eventType : option OsEventTypeList) (i : Z) : number :=
  if BaseApp.hasIncomingIndex event then BaseApp.parseIncomingThemeIndex event
  else
    match eventType with
    | Some SCROLL_TOP_EVENT => Int (Z.max 0 (i - 1))
    | Some SCROLL_BOTTOM_EVENT => Int (Z.min 2 (i + 1))
    | Some CLICK_EVENT => Int 0
    | Some DOUBLE_CLICK_EVENT => Int i
    | None => if bool_decide (is_Some (listEvent event)) then Int 0 else Int i
    end.

(** The selection that the handler of the REST-API instance leaves, from
    the selection [c] over the list [urls]: the resolved index when there is
    one; otherwise one step up or down within the list, and no change on a
    click and in the other cases. *)
Definition rest_reconcile (urls : list string) (event : EvenHubEvent)
    (c : Z) : number :=
  match RestApi.eventTypeOf urls (Int c) event with
  | Some SCROLL_TOP_EVENT =>
      if RestApi.hasIncomingIndex urls event
      then RestApi.incomingIndex urls event else Int (Z.max 0 (c - 1))
  | Some SCROLL_BOTTOM_EVENT =>
      if RestApi.hasIncomingIndex urls event
      then RestApi.incomingIndex urls event
      else Int (Z.min (len urls - 1) (c + 1))
  | Some CLICK_EVENT =>
      if RestApi.hasIncomingIndex urls event
      then RestApi.incomingIndex urls event else Int c
  | _ => Int c
  end.

(** A store of the REST-API instance whose panel satisfies [Φ], whose
    display is [d] and whose stored selection is [X]. *)
Definition rest_store (Φ : RestApi.RestUiState -> Prop)
    (d : option RestApi.SurfaceMode) (X : number) (w : RestApi.World)
  : Prop :=
  (exists u, RestApi.ui w = Some u /\ Φ u) /\
  RestApi.bridgeDisplay w = d /\
  RestApi.selectedIndex (RestApi.bridgeState w) = X.

(** The panel lists the options [opts]. *)
Definition has_options (opts : list string) (u : RestApi.RestUiState)
  : Prop :=
  Dom.options (RestApi.select u) = opts.

(** The [select] element of the panel is [e]. *)
Definition is_select (e : Dom.HTMLSelectElement) (u : RestApi.RestUiState)
  : Prop :=
  RestApi.select u = e.

(** The panel's [select] element is [e] and its input field holds [text]. *)
Definition is_panel (e : Dom.HTMLSelectElement) (text : string)
    (u : RestApi.RestUiState) : Prop :=
  RestApi.select u = e /\ RestApi.addInput u = text.

(** The stored selection after [updateBridgeListFromBrowserSelect]: the
    clamped index of the [select] element in Bridge mode, the former
    selection [X] otherwise. *)
Definition bridge_selection (d : option RestApi.SurfaceMode)
    (e : Dom.HTMLSelectElement) (X : number) : number :=
  match d with
  | Some RestApi.Bridge =>
      RestApi.clampIndex (Int (Dom.selectedIndex e)) (len (Dom.options e))
  | _ => X
  end.

(** The stored selection of the REST-API instance is an index of the
    list of options, when the list is not empty. *)
Definition rest_selection_in_range (w : RestApi.World) : Prop :=
  let L := len (RestApi.getActiveUrls w) in
  0 < L -> index_in_range L (RestApi.selectedIndex (RestApi.bridgeState w)).

(** The [select] element after the add button has taken the label [x], and
    after the remove button. *)
Definition select_after_add (x : string) (e : Dom.HTMLSelectElement)
  : Dom.HTMLSelectElement :=
  Dom.set_value x (RestApi.ensureOption x e).

Definition select_after_remove (e : Dom.HTMLSelectElement)
  : Dom.HTMLSelectElement :=
  let e' := Dom.remove (Dom.selectedIndex e) e in
  if 0 <? len (Dom.options e')
  then Dom.set_selectedIndex (Int (Z.max 0 (Dom.selectedIndex e - 1))) e'
  else e'.

End Spec.

(** ** Gestures and the conditions that the handlers maintain *)

Module Props.
Import Js Sdk.

(** What can happen to base_app: a button of the panel, an event on the
    listener of a bridge client, the two actions of the application. *)
Inductive BaseGesture :=
| Press (b : BaseApp.Button)
| Glasses (id : nat) (event : EvenHubEvent)
| ConnectBase (getRawBridge : Acquisition unit)
| ActionBase.

Definition base_perform (g : BaseGesture)
  : Eff BaseApp.Request BaseApp.World unit :=
  match g with
  | Press b => BaseApp.click b
  | Glasses id event => BaseApp.listener id event
  | ConnectBase getRawBridge => BaseApp.connect getRawBridge
  | ActionBase => BaseApp.action
  end.

(** The panel, when it is built, shows the state. *)
Definition panel_in_sync (w : BaseApp.World) : Prop :=
  forall p, BaseApp.browserUi w = Some p ->
            p = BaseApp.panel_of (BaseApp.state w).

(** What can happen to the REST-API instance: the controls of the panel,
    an event on the handler bound to a bridge handle, the two actions. *)
Inductive RestGesture :=
| Choose (i : Z)
| Add (text : string)
| Remove
| BridgeEvent (bridge : nat) (event : EvenHubEvent)
| ConnectRest (waitForEvenAppBridge : Acquisition nat)
| ActionRest.

Definition rest_perform
    (fetchAsText : string -> completion (string * string))
    (g : RestGesture) : Eff RestApi.Request RestApi.World unit :=
  match g with
  | Choose i => RestApi.choose i
  | Add text => RestApi.add_url text
  | Remove => RestApi.removeButton_onclick
  | BridgeEvent bridge event => RestApi.onEvenHubEvent fetchAsText bridge event
  | ConnectRest waitForEvenAppBridge => RestApi.connect waitForEvenAppBridge
  | ActionRest => RestApi.action fetchAsText
  end.

(** Labels without repetition, each one trimmed and not empty. *)
Definition clean_labels (opts : list string) : Prop :=
  NoDup opts /\ Forall (fun x => trim x = x /\ x <> "") opts.

Definition panel_clean (w : RestApi.World) : Prop :=
  forall u, RestApi.ui w = Some u ->
            clean_labels (Dom.options (RestApi.select u)).

(** An operation on the [select] element that keeps its labels clean. *)
Definition keeps_clean (g : Dom.HTMLSelectElement -> Dom.HTMLSelectElement)
  : Prop :=
  forall s, clean_labels (Dom.options s) -> clean_labels (Dom.options (g s)).

(** In Bridge mode the store holds a bridge handle. *)
Definition handle_present (w : RestApi.World) : Prop :=
  RestApi.bridgeDisplay w = Some RestApi.Bridge ->
  is_Some (RestApi.bridge (RestApi.bridgeState w)).

(** A condition on the store that the elementary updates of the handlers
    keep: the status line, the fields of [bridgeState] other than the
    handle, the response area, the input field, and the operations on the
    [select] element that keep its labels clean. *)
Definition frame_closed (I : RestApi.World -> Prop) : Prop :=
  (forall v w, I w -> I (RestApi.setStatus v w)) /\
  (forall f w, (forall b, RestApi.bridge (f b) = RestApi.bridge b) ->
               I w -> I (RestApi.on_bridgeState f w)) /\
  (forall g w, keeps_clean g -> I w -> I (RestApi.on_select g w)) /\
  (forall v w, I w -> I (RestApi.set_response v w)) /\
  (forall v w, I w -> I (RestApi.set_addInput v w)).

(** The page holds an equals sign followed by a double or a single
    quotation mark and a slash, as every attribute that the rewriting of
    the served page touches does. *)
Definition rooted_attribute (html : string) : bool :=
  includes html (String "=" (String ViteConfig.dquote "/"))
  || includes html "='/".

(** The character [c] does not occur in [s]. *)
Fixpoint lacks (c : ascii) (s : string) : bool :=
  match s with
  | EmptyString => true
  | String a s' => negb (bool_decide (a = c)) && lacks c s'
  end.

(** The display took the request. *)
Definition accepted (r : reply) : bool :=
  match r with Resolved _ => true | Rejected _ => false end.

(** The computation adds to the requests sent so far, and drops none. *)
Definition appends {Req St A} (m : Eff Req St A) : Prop :=
  forall o s tr, exists sent, requests (m o s tr) = tr ++ sent.

End Props.

(** * Properties *)

(** ** Strings *)

Section strings.
Import Js.

Lemma upper_lower_char c : upper_char (lower_char c) = upper_char c.
Proof. by destruct c as [[] [] [] [] [] [] [] []]. Qed.

Lemma upper_char_idem c : upper_char (upper_char c) = upper_char c.
Proof. by destruct c as [[] [] [] [] [] [] [] []]. Qed.

Lemma map_string_app f a b :
  map_string f (a +:+ b) = map_string f a +:+ map_string f b.
Proof. induction a as [|c a IH]; simpl; [done|]. by rewrite IH. Qed.

Lemma upper_of_lower s : toUpperCase (toLowerCase s) = toUpperCase s.
Proof.
  unfold toUpperCase, toLowerCase.
  induction s as [|c s IH]; cbn [map_string]; [done|].
  by rewrite upper_lower_char, IH.
Qed.

Lemma prefix_app_true w r : is_prefix w (w +:+ r) = true.
Proof.
  induction w as [|c w IH]; [done|]. simpl.
  by rewrite bool_decide_eq_true_2.
Qed.

Lemma prefix_is_prefix w s :
  is_prefix w s = true <-> Spec.is_prefix_of w s.
Proof.
  split.
  - revert s. induction w as [|c w IH]; intros s H.
    + by exists s.
    + destruct s as [|d s]; simpl in H; [done|].
      apply andb_true_iff in H as [->%bool_decide_eq_true H].
      destruct (IH _ H) as [r ->]. by exists r.
  - intros [r ->]. apply prefix_app_true.
Qed.

Lemma includes_app pre w post : includes (pre +:+ w +:+ post) w = true.
Proof.
  induction pre as [|c pre IH].
  - change (includes (w +:+ post) w = true).
    pose proof (prefix_app_true w post) as H.
    destruct (w +:+ post); simpl; by rewrite H.
  - change (includes (String c (pre +:+ w +:+ post)) w = true).
    cbn [includes]. rewrite IH. apply orb_true_r.
Qed.

Lemma prefix_upper w s :
  toUpperCase w = w ->
  is_prefix w (toUpperCase s) = Spec.prefix_nocase w s.
Proof.
  revert s. induction w as [|a w IH]; intros s Hw; [done|].
  injection Hw as Ha Hw. destruct s as [|b s]; simpl; [done|].
  unfold Spec.same_letter. rewrite Ha. f_equal. by apply IH.
Qed.

Lemma includes_upper w s :
  toUpperCase w = w ->
  includes (toUpperCase s) w = Spec.contains_nocase s w.
Proof.
  intros Hw. induction s as [|b s IH].
  - simpl. change EmptyString with (toUpperCase EmptyString) at 1.
    by rewrite prefix_upper.
  - change (toUpperCase (String b s))
      with (String (upper_char b) (toUpperCase s)).
    cbn [includes Spec.contains_nocase]. rewrite <- IH. f_equal.
    change (String (upper_char b) (toUpperCase s))
      with (toUpperCase (String b s)).
    by apply prefix_upper.
Qed.

Lemma includes_any_case (w s : string) :
  Spec.occurs_in_any_case w s ->
  includes (toUpperCase s) (toUpperCase w) = true.
Proof.
  intros (pre & mid & post & -> & <-).
  unfold toUpperCase at 1. rewrite !map_string_app.
  fold (toUpperCase mid). rewrite upper_of_lower. apply includes_app.
Qed.
End strings.

(** ** Event decoder and normaliser *)

Section normaliser.
Import Js Sdk.

(** C10. The event decoder [getRawEventType] and the event normaliser
    [normalizeEventType] of the base_app instance and of the REST-API
    instance are extensionally equal: on every raw event and on every raw
    event-type value the two instances return the same result. *)
Theorem decoder_normaliser_instances_agree :
  (forall event : EvenHubEvent,
      BaseApp.getRawEventType event = RestApi.getRawEventType event) /\
  (forall raw : value,
      BaseApp.normalizeEventType raw = RestApi.normalizeEventType raw).
Proof. split; intros; reflexivity. Qed.

Lemma normalize_string_spec s :
  BaseApp.normalizeEventType (VString s) = Spec.normalize_string s.
Proof.
  unfold BaseApp.normalizeEventType, Spec.normalize_string.
  by rewrite !includes_upper.
Qed.

(** C4. The normaliser maps the numbers [0], [1], [2], [3] to Click,
    ScrollUp, ScrollDown, DoubleClick and every other number to Unknown;
    on a string it performs case-insensitive substring checks in the order
    DOUBLE, CLICK, SCROLL_TOP or UP, SCROLL_BOTTOM or DOWN, else Unknown;
    hence a string that contains both "double" and "click" in any case
    normalises to DoubleClick; a value of any other type normalises to
    Unknown. *)
Theorem normalizeEventType_table (n : number) (s : string) (raw : value) :
  BaseApp.normalizeEventType (VNumber (Int 0)) = Some CLICK_EVENT /\
  BaseApp.normalizeEventType (VNumber (Int 1)) = Some SCROLL_TOP_EVENT /\
  BaseApp.normalizeEventType (VNumber (Int 2)) = Some SCROLL_BOTTOM_EVENT /\
  BaseApp.normalizeEventType (VNumber (Int 3)) = Some DOUBLE_CLICK_EVENT /\
  (n ∉ [Int 0; Int 1; Int 2; Int 3] ->
   BaseApp.normalizeEventType (VNumber n) = None) /\
  BaseApp.normalizeEventType (VString s) = Spec.normalize_string s /\
  (Spec.occurs_in_any_case "double" s ->
   Spec.occurs_in_any_case "click" s ->
   BaseApp.normalizeEventType (VString s) = Some DOUBLE_CLICK_EVENT) /\
  ((forall m, raw <> VNumber m) -> (forall t, raw <> VString t) ->
   BaseApp.normalizeEventType raw = None).
Proof.
  repeat split; try reflexivity.
  - intros Hn. destruct n as [z|]; [|done].
    assert (z <> 0 /\ z <> 1 /\ z <> 2 /\ z <> 3) as (?&?&?&?).
    { repeat split; intros ->; apply Hn; set_solver. }
    destruct z as [|[[]|[]|]|]; simpl; congruence.
  - apply normalize_string_spec.
  - intros Hd _. apply includes_any_case in Hd.
    unfold BaseApp.normalizeEventType.
    change (toUpperCase "double") with "DOUBLE" in Hd. by rewrite Hd.
  - intros Hnum Hstr. destruct raw; simpl; try done.
    + by destruct (Hnum n0).
    + by destruct (Hstr s0).
Qed.

Lemma normalizeEventType_table_witness :
  BaseApp.normalizeEventType (VNumber (Int 7)) = None /\
  BaseApp.normalizeEventType (VString "Double_Click") =
    Some DOUBLE_CLICK_EVENT /\
  BaseApp.normalizeEventType VNull = None.
Proof.
  pose proof (normalizeEventType_table (Int 7) "Double_Click" VNull)
    as (_ & _ & _ & _ & Hn & _ & Hs & Hr).
  split; [|split].
  - apply Hn. rewrite !elem_of_cons, elem_of_nil.
    intros [?|[?|[?|[?|[]]]]]; discriminate.
  - apply Hs.
    + by exists "", "Double", "_Click".
    + by exists "Double_", "Click", "".
  - by apply Hr.
Defined.
End normaliser.

(** ** Reasoning about effectful computations *)

Section hoare.
Import Sdk.
Context {Req St : Type}.
Implicit Types P Q R : St -> Prop.

Lemma hoare_conseq {A} P P' Q Q' (m : Eff Req St A) :
  (forall s, P s -> P' s) -> (forall s, Q' s -> Q s) ->
  hoare P' m Q' -> hoare P m Q.
Proof. unfold hoare. eauto. Qed.

Lemma hoare_ret {A} P (a : A) : hoare P (ret a : Eff Req St A) P.
Proof. by intros o s tr. Qed.

Lemma hoare_settle {A} P (c : completion A) :
  hoare P (settle c : Eff Req St A) P.
Proof. by intros o s tr. Qed.

Lemma hoare_call P (r : Req) : hoare P (call r) P.
Proof. intros o s tr H. unfold call. by destruct (o r). Qed.

Lemma hoare_gets {A} P (f : St -> A) : hoare P (gets f : Eff Req St A) P.
Proof. by intros o s tr. Qed.

Lemma hoare_modify P Q (f : St -> St) :
  (forall s, P s -> Q (f s)) -> hoare P (modify f : Eff Req St unit) Q.
Proof. intros H o s tr. apply H. Qed.

Lemma hoare_bind {A B} P R Q (m : Eff Req St A) (k : A -> Eff Req St B) :
  hoare P m R -> (forall s, R s -> Q s) -> (forall a, hoare R (k a) Q) ->
  hoare P (bind m k) Q.
Proof.
  intros Hm HRQ Hk o s tr HP. specialize (Hm o s tr HP).
  unfold bind, final in *. destruct (m o s tr) as [[s' tr'] [a|e]]; simpl in *.
  - by apply Hk.
  - by apply HRQ.
Qed.

(** The value read by [gets] is tied to the store that [k] starts from. *)
Lemma hoare_gets_bind {A B} P Q (f : St -> A) (k : A -> Eff Req St B) :
  (forall a, hoare (fun s => P s /\ f s = a) (k a) Q) ->
  hoare P (bind (gets f) k) Q.
Proof. intros Hk o s tr HP. by apply (Hk (f s) o s tr). Qed.

Lemma hoare_modify_bind {B} P R Q (f : St -> St) (k : Eff Req St B) :
  (forall s, P s -> R (f s)) -> hoare R k Q ->
  hoare P (bind (modify f) (fun _ => k)) Q.
Proof. intros Hf Hk o s tr HP. apply (Hk o (f s) tr). by apply Hf. Qed.

Lemma hoare_settle_bind {A B} P Q (c : completion A)
    (k : A -> Eff Req St B) :
  (forall s, P s -> Q s) -> (forall a, hoare P (k a) Q) ->
  hoare P (bind (settle c) k) Q.
Proof.
  intros HPQ Hk. eapply hoare_bind; [apply hoare_settle | done | done].
Qed.

Lemma hoare_catch {A} P R Q (m : Eff Req St A) (h : string -> Eff Req St A) :
  hoare P m R -> (forall s, R s -> Q s) -> (forall e, hoare R (h e) Q) ->
  hoare P (catch m h) Q.
Proof.
  intros Hm HRQ Hh o s tr HP. specialize (Hm o s tr HP).
  unfold catch, final in *. destruct (m o s tr) as [[s' tr'] [a|e]]; simpl in *.
  - by apply HRQ.
  - by apply Hh.
Qed.

Lemma hoare_finally {A} P R Q (m : Eff Req St A) (f : St -> St) :
  hoare P m R -> (forall s, R s -> Q (f s)) -> hoare P (finally m f) Q.
Proof.
  intros Hm Hf o s tr HP. specialize (Hm o s tr HP).
  unfold finally, final in *. destruct (m o s tr) as [[s' tr'] r]; simpl in *.
  by apply Hf.
Qed.

Lemma hoare_void P Q (m : Eff Req St unit) : hoare P m Q -> hoare P (void m) Q.
Proof.
  intros Hm o s tr HP. specialize (Hm o s tr HP).
  unfold void, final in *. by destruct (m o s tr) as [[s' tr'] r].
Qed.

Lemma hoare_if {A} P Q (b : bool) (m1 m2 : Eff Req St A) :
  (b = true -> hoare P m1 Q) -> (b = false -> hoare P m2 Q) ->
  hoare P (if b then m1 else m2) Q.
Proof. destruct b; auto. Qed.

Lemma hoare_false {A} P Q (m : Eff Req St A) :
  (forall s, ~ P s) -> hoare P m Q.
Proof. intros H o s tr HP. by destruct (H s). Qed.

Lemma hoare_run {A} P Q (m : Eff Req St A) o s :
  hoare P m Q -> P s -> Q (final (run m o s)).
Proof. intros H. apply H. Qed.
End hoare.

(** ** The render cycle *)

Section render_cycle.
Import Js Sdk.

Lemma withTimeout_unavailable {A} (promise : Acquisition A) budget :
  unavailable promise budget ->
  exists e, withTimeout promise budget = Raised e.
Proof.
  destruct promise as [t v|t e|]; simpl; intros H.
  - rewrite (proj2 (Z.ltb_ge t budget)) by lia. eauto.
  - destruct (t <? budget); eauto.
  - eauto.
Qed.

Lemma withTimeout_in_time {A} t (v : A) budget :
  t < budget -> withTimeout (Resolves t v) budget = Returned v.
Proof. intros H. simpl. by rewrite (proj2 (Z.ltb_lt t budget)). Qed.

(** What [syncToGlasses] of base_app does, by the flag of the client. *)
Lemma syncToGlasses_first id o w tr :
  BaseApp.clients w !! id = Some false ->
  let full := BaseApp.PageRender (BaseApp.stateTextContent (BaseApp.state w))
                (BaseApp.counterTextContent (BaseApp.state w)) in
  BaseApp.syncToGlasses id o w tr =
    match o full with
    | Resolved _ =>
        (BaseApp.set_clients (<[id := true]> (BaseApp.clients w)) w,
         tr ++ [full], Returned tt)
    | Rejected e => (w, tr ++ [full], Raised e)
    end.
Proof.
  intros Hflag. unfold BaseApp.syncToGlasses, bind, gets, call, modify.
  simpl. rewrite Hflag. simpl. by destruct (o _).
Qed.

Lemma syncToGlasses_next id o w tr :
  BaseApp.clients w !! id = Some true ->
  let st := BaseApp.stateTextContent (BaseApp.state w) in
  let ct := BaseApp.counterTextContent (BaseApp.state w) in
  let u1 := BaseApp.UpdateStateText st in
  let u2 := BaseApp.UpdateCounterText ct in
  let full := BaseApp.PageRender st ct in
  BaseApp.syncToGlasses id o w tr =
    match o u1, o u2 with
    | Resolved true, Resolved true => (w, tr ++ [u1; u2], Returned tt)
    | Resolved _, Resolved _ =>
        match o full with
        | Resolved _ => (w, tr ++ [u1; u2; full], Returned tt)
        | Rejected e => (w, tr ++ [u1; u2; full], Raised e)
        end
    | Resolved _, Rejected e => (w, tr ++ [u1; u2], Raised e)
    | Rejected e, _ => (w, tr ++ [u1], Raised e)
    end.
Proof.
  intros Hflag. unfold BaseApp.syncToGlasses, bind, gets, call, modify.
  simpl. rewrite Hflag. simpl.
  destruct (o (BaseApp.UpdateStateText
                 (BaseApp.stateTextContent (BaseApp.state w)))) as [[]|];
    simpl; [| |done];
    (destruct (o (BaseApp.UpdateCounterText
                    (BaseApp.counterTextContent (BaseApp.state w))))
       as [[]|]; simpl; rewrite <- ?app_assoc; [| |done]);
    try done;
    destruct (o (BaseApp.PageRender _ _)); by rewrite <- ?app_assoc.
Qed.

(** What [renderBridgePage] of the REST-API instance does, by the flag. *)
Lemma renderBridgePage_spec h urls index msg o w tr :
  let config := RestApi.pageConfig urls index msg in
  let request :=
    if RestApi.startupRendered (RestApi.bridgeState w)
    then RestApi.RebuildPageContainer h config
    else RestApi.CreateStartUpPageContainer h config in
  RestApi.renderBridgePage h urls index msg o w tr =
    match o request with
    | Resolved _ =>
        (RestApi.on_bridgeState (RestApi.set_startupRendered true) w,
         tr ++ [request], Returned tt)
    | Rejected e => (w, tr ++ [request], Raised e)
    end.
Proof.
  unfold RestApi.renderBridgePage, bind, gets, call, modify, ret. simpl.
  destruct w as [[? [] ? ? ? ?] ? ? ? ? ?]; simpl; by destruct (o _).
Qed.
End render_cycle.

(** ** Connecting *)

Section connecting.
Import Js Sdk.

Lemma initTemplate_in_time t o w tr :
  t < 4000 ->
  BaseApp.initTemplate (Resolves t tt) None o w tr =
    match BaseApp.templateClient w with
    | Some (BaseApp.BridgeClient id) =>
        (w, tr, Returned (BaseApp.BridgeClient id))
    | _ =>
        let id := length (BaseApp.clients w) in
        (BaseApp.set_templateClient (Some (BaseApp.BridgeClient id))
           (BaseApp.set_clients (BaseApp.clients w ++ [false]) w),
         tr, Returned (BaseApp.BridgeClient id))
    end.
Proof.
  intros Ht. unfold BaseApp.initTemplate, catch, bind, settle. simpl.
  rewrite (proj2 (Z.ltb_lt t 4000) Ht). simpl.
  by destruct (BaseApp.templateClient w) as [[|id]|].
Qed.

Lemma initTemplate_unavailable (promise : Acquisition unit) budget o w tr :
  unavailable promise (default 4000 budget) ->
  BaseApp.initTemplate promise budget o w tr =
    (w, tr, Returned BaseApp.MockClient).
Proof.
  intros [e He]%withTimeout_unavailable.
  unfold BaseApp.initTemplate, catch, bind, settle. simpl. by rewrite He.
Qed.

Lemma initBridgeDisplay_in_time t h o w tr :
  t < 4000 ->
  RestApi.initBridgeDisplay (Resolves t h) None o w tr =
    (RestApi.set_bridgeDisplay (Some RestApi.Bridge)
       (RestApi.registerBridgeEvents
          (RestApi.on_bridgeState (RestApi.set_bridge (Some h)) w)),
     tr, Returned RestApi.Bridge).
Proof.
  intros Ht. unfold RestApi.initBridgeDisplay, catch, bind, settle. simpl.
  rewrite (proj2 (Z.ltb_lt t 4000) Ht). simpl.
  destruct w as [[? ? [] ? ? ?] [[]|] ? ? ? ?]; done.
Qed.

Lemma initBridgeDisplay_unavailable (promise : Acquisition nat) budget
    o w tr :
  unavailable promise (default 4000 budget) ->
  RestApi.initBridgeDisplay promise budget o w tr =
    (RestApi.set_bridgeDisplay (Some RestApi.Mock)
       (RestApi.on_bridgeState
          (fun b => RestApi.set_statusMessage "Select URL and click"
                      (RestApi.set_startupRendered false
                         (RestApi.set_bridge None b))) w),
     tr, Returned RestApi.Mock).
Proof.
  intros [e He]%withTimeout_unavailable.
  unfold RestApi.initBridgeDisplay, catch, bind, settle. simpl.
  rewrite He. by destruct w as [[] ? ? ? ? ?].
Qed.
End connecting.

(** ** Claims on the render cycle and on connecting *)

Section render_claims.
Import Js Sdk.

(** C7, as the claim states it, fails on the REST-API instance: with the
    flag set, a render sends a full rebuild at once and attempts no
    incremental update. *)
Lemma rest_render_attempts_no_incremental_update :
  RestApi.startupRendered (RestApi.bridgeState Scenario.rest_connected)
    = true /\
  requests (run (RestApi.renderBridgePage 7 RestApi.DEFAULT_URLS (Int 0)
                   "Select URL and click")
              Scenario.accepting Scenario.rest_connected)
  = [RestApi.RebuildPageContainer 7
       (RestApi.pageConfig RestApi.DEFAULT_URLS (Int 0)
          "Select URL and click")].
Proof. split; reflexivity. Qed.

(** C7, amended. While the flag is false a remote render sends one full
    page construction and sets the flag only if that request succeeds, in
    both instances. With the flag set, base_app first sends the two
    incremental text updates and, when one of them reports failure, sends
    a full render in the same call; the REST-API instance has no
    incremental path and sends a full rebuild on every such render. *)
Theorem render_cycle_protocol
    (id : nat) (o : BaseApp.Request -> reply) (w : BaseApp.World)
    (h : nat) (urls : list string) (index : number) (msg : string)
    (oR : RestApi.Request -> reply) (wR : RestApi.World) :
  let st := BaseApp.stateTextContent (BaseApp.state w) in
  let ct := BaseApp.counterTextContent (BaseApp.state w) in
  let r := run (BaseApp.syncToGlasses id) o w in
  let config := RestApi.pageConfig urls index msg in
  let rR := run (RestApi.renderBridgePage h urls index msg) oR wR in
  (BaseApp.clients w !! id = Some false ->
     requests r = [BaseApp.PageRender st ct] /\
     match o (BaseApp.PageRender st ct) with
     | Resolved _ =>
         outcome r = Returned tt /\
         BaseApp.clients (final r) !! id = Some true
     | Rejected e =>
         outcome r = Raised e /\ BaseApp.clients (final r) !! id = Some false
     end) /\
  (BaseApp.clients w !! id = Some true ->
     BaseApp.clients (final r) !! id = Some true /\
     match o (BaseApp.UpdateStateText st),
           o (BaseApp.UpdateCounterText ct) with
     | Resolved true, Resolved true =>
         requests r =
           [BaseApp.UpdateStateText st; BaseApp.UpdateCounterText ct]
     | Resolved _, Resolved _ =>
         requests r =
           [BaseApp.UpdateStateText st; BaseApp.UpdateCounterText ct;
            BaseApp.PageRender st ct]
     | Resolved _, Rejected e =>
         requests r =
           [BaseApp.UpdateStateText st; BaseApp.UpdateCounterText ct]
         /\ outcome r = Raised e
     | Rejected e, _ =>
         requests r = [BaseApp.UpdateStateText st] /\ outcome r = Raised e
     end) /\
  (RestApi.startupRendered (RestApi.bridgeState wR) = false ->
     requests rR = [RestApi.CreateStartUpPageContainer h config] /\
     match oR (RestApi.CreateStartUpPageContainer h config) with
     | Resolved _ =>
         outcome rR = Returned tt /\
         RestApi.startupRendered (RestApi.bridgeState (final rR)) = true
     | Rejected e =>
         outcome rR = Raised e /\
         RestApi.startupRendered (RestApi.bridgeState (final rR)) = false
     end) /\
  (RestApi.startupRendered (RestApi.bridgeState wR) = true ->
     requests rR = [RestApi.RebuildPageContainer h config] /\
     RestApi.startupRendered (RestApi.bridgeState (final rR)) = true).
Proof.
  intros st ct r config rR. repeat apply conj.
  - intros Hflag. unfold r, run. rewrite syncToGlasses_first by done.
    fold st ct. destruct (o (BaseApp.PageRender st ct)); simpl;
      repeat split; try done.
    apply list_lookup_insert_eq. by eapply lookup_lt_Some.
  - intros Hflag. unfold r, run. rewrite syncToGlasses_next by done.
    fold st ct.
    destruct (o (BaseApp.UpdateStateText st)) as [[]|];
      [destruct (o (BaseApp.UpdateCounterText ct)) as [[]|]..|];
      try done; by destruct (o (BaseApp.PageRender st ct)).
  - intros Hflag. unfold rR, run. rewrite renderBridgePage_spec.
    fold config. rewrite Hflag.
    by destruct (oR (RestApi.CreateStartUpPageContainer h config)).
  - intros Hflag. unfold rR, run. rewrite renderBridgePage_spec.
    fold config. rewrite Hflag.
    by destruct (oR (RestApi.RebuildPageContainer h config)).
Qed.

Lemma render_cycle_protocol_witness :
  requests (run (BaseApp.syncToGlasses 0) Scenario.accepting
              Scenario.base_connected)
  = [BaseApp.UpdateStateText "Base Template | State: idle | Theme: Blue";
     BaseApp.UpdateCounterText "Counter: 0 | Last: none"] /\
  requests (run (RestApi.renderBridgePage 7 RestApi.DEFAULT_URLS (Int 0) "")
              Scenario.accepting RestApi.initial_world)
  = [RestApi.CreateStartUpPageContainer 7
       (RestApi.pageConfig RestApi.DEFAULT_URLS (Int 0) "")].
Proof.
  pose proof (render_cycle_protocol 0 Scenario.accepting
                Scenario.base_connected 7 RestApi.DEFAULT_URLS (Int 0) ""
                Scenario.accepting RestApi.initial_world)
    as (_ & Hnext & Hfirst & _).
  split.
  - apply Hnext. reflexivity.
  - apply Hfirst. reflexivity.
Defined.
End render_claims.

Section connect_claims.
Import Js Sdk.

Lemma renderBrowserPanel_frame w :
  BaseApp.state (BaseApp.renderBrowserPanel w) = BaseApp.state w /\
  BaseApp.clients (BaseApp.renderBrowserPanel w) = BaseApp.clients w /\
  BaseApp.templateClient (BaseApp.renderBrowserPanel w)
    = BaseApp.templateClient w.
Proof. unfold BaseApp.renderBrowserPanel. by destruct (BaseApp.browserUi w). Qed.

Lemma connect_unavailable_base (promise : Acquisition unit) o w :
  unavailable promise 4000 ->
  run (BaseApp.connect promise) o w =
    (BaseApp.setStatus
       "Base template: bridge unavailable. Running browser-only mock mode."
       (BaseApp.renderBrowserPanel
          (BaseApp.set_templateClient (Some BaseApp.MockClient)
             (BaseApp.setStatus
                "Base template: connecting to Even bridge..." w))),
     [], Returned tt).
Proof.
  intros H. unfold run, BaseApp.connect, bind, catch, modify. simpl.
  by rewrite (initTemplate_unavailable promise None).
Qed.

Lemma connect_in_time_base t o w :
  t < 4000 ->
  let st := BaseApp.stateTextContent (BaseApp.state w) in
  let ct := BaseApp.counterTextContent (BaseApp.state w) in
  let r := run (BaseApp.connect (Resolves t tt)) o w in
  match BaseApp.templateClient w with
  | Some (BaseApp.BridgeClient id) =>
      BaseApp.clients w !! id = Some true ->
      head (requests r) = Some (BaseApp.UpdateStateText st) /\
      BaseApp.clients (final r) = BaseApp.clients w
  | _ =>
      requests r = [BaseApp.PageRender st ct]
  end.
Proof.
  intros Ht st ct r. subst r.
  assert (forall c, (c = None \/ c = Some BaseApp.MockClient) ->
            BaseApp.templateClient w = c ->
            requests (run (BaseApp.connect (Resolves t tt)) o w)
            = [BaseApp.PageRender st ct]) as Hfresh.
  { intros c Hc Hheld.
    unfold run, BaseApp.connect, bind, catch, modify. simpl.
    rewrite initTemplate_in_time by done. simpl.
    assert (BaseApp.templateClient w = None \/
            BaseApp.templateClient w = Some BaseApp.MockClient) as Hw
      by (rewrite Hheld; done).
    assert (forall w', BaseApp.clients w' = BaseApp.clients w ++ [false] ->
              BaseApp.clients w' !! length (BaseApp.clients w) = Some false)
      as Hflag by (intros w' ->; by apply list_lookup_middle).
    destruct Hw as [-> | ->]; simpl;
      rewrite syncToGlasses_first by (by apply Hflag); simpl; fold st ct;
      by destruct (o (BaseApp.PageRender st ct)). }
  destruct (BaseApp.templateClient w) as [[|id]|] eqn:Hheld.
  - eapply Hfresh; [|done]. by right.
  - intros Hflag.
    unfold run, BaseApp.connect, bind, catch, modify. simpl.
    rewrite initTemplate_in_time by done. simpl. rewrite Hheld. simpl.
    rewrite syncToGlasses_next by done. simpl. fold st ct.
    destruct (o (BaseApp.UpdateStateText st)) as [[]|];
      [destruct (o (BaseApp.UpdateCounterText ct)) as [[]|]..|];
      simpl; try destruct (o (BaseApp.PageRender st ct)); simpl;
      by rewrite ?(proj1 (proj2 (renderBrowserPanel_frame _))).
  - eapply Hfresh; [|done]. by left.
Qed.
Lemma connect_fresh_final t o w :
  t < 4000 ->
  BaseApp.templateClient w = None \/
  BaseApp.templateClient w = Some BaseApp.MockClient ->
  (exists b, o (BaseApp.PageRender
                  (BaseApp.stateTextContent (BaseApp.state w))
                  (BaseApp.counterTextContent (BaseApp.state w)))
             = Resolved b) ->
  let w' := final (run (BaseApp.connect (Resolves t tt)) o w) in
  let id := length (BaseApp.clients w) in
  BaseApp.templateClient w' = Some (BaseApp.BridgeClient id) /\
  BaseApp.clients w' !! id = Some true /\
  BaseApp.state w' = BaseApp.state w.
Proof.
  intros Ht Hheld [b Hb].
  unfold run, BaseApp.connect, bind, catch, modify. simpl.
  rewrite initTemplate_in_time by done. simpl.
  assert (forall w', BaseApp.clients w' = BaseApp.clients w ++ [false] ->
            BaseApp.clients w' !! length (BaseApp.clients w) = Some false)
    as Hflag by (intros w' ->; by apply list_lookup_middle).
  destruct Hheld as [-> | ->]; simpl;
    rewrite syncToGlasses_first by (by apply Hflag); simpl; rewrite Hb;
    simpl; destruct (renderBrowserPanel_frame
      (BaseApp.set_clients
         (<[length (BaseApp.clients w):=true]> (BaseApp.clients w ++ [false]))
         (BaseApp.set_templateClient
            (Some (BaseApp.BridgeClient (length (BaseApp.clients w))))
            (BaseApp.set_templateClient
               (Some (BaseApp.BridgeClient (length (BaseApp.clients w))))
               (BaseApp.set_clients (BaseApp.clients w ++ [false])
                  (BaseApp.setStatus
                     "Base template: connecting to Even bridge..." w))))))
      as (-> & -> & ->);
    (split; [done|]); (split; [|done]); simpl;
    apply list_lookup_insert_eq; rewrite length_app; simpl; lia.
Qed.

(** C1, as the claim states it, fails: a successful reconnect that follows
    a successful connect keeps the flag. In base_app the render issued by
    the second connect is an incremental attempt, not a full construction;
    in the REST-API instance the flag is still set after the second
    connect, on a new handle. *)
Lemma reconnect_does_not_reset_render_flag :
  requests (run (BaseApp.connect (Resolves 10 tt)) Scenario.accepting
              Scenario.base_connected)
  = [BaseApp.UpdateStateText "Base Template | State: idle | Theme: Blue";
     BaseApp.UpdateCounterText "Counter: 0 | Last: none"] /\
  RestApi.startupRendered (RestApi.bridgeState Scenario.rest_connected)
    = true /\
  RestApi.startupRendered
    (RestApi.bridgeState
       (final (run (RestApi.initBridgeDisplay (Resolves 10 8%nat) None)
                 Scenario.accepting Scenario.rest_connected))) = true.
Proof. repeat split; reflexivity. Qed.

Lemma connect_unavailable_rest (promise : Acquisition nat) o w :
  unavailable promise 4000 ->
  let r := run (RestApi.connect promise) o w in
  outcome r = Returned tt /\ requests r = [] /\
  RestApi.bridgeDisplay (final r) = Some RestApi.Mock /\
  RestApi.ui (final r) = RestApi.ui (RestApi.ensureUi w).
Proof.
  intros H. unfold run, RestApi.connect, bind, modify, gets. simpl.
  rewrite initBridgeDisplay_unavailable by done. simpl.
  destruct w as [? ? [u|] ? ? ?]; simpl; done.
Qed.

(** When the acquisition of the bridge fails or does not resolve
    within the budget (4000 ms by default), connect returns Mock mode and
    raises nothing. The operations of the Mock client and of the Mock
    display send nothing and leave the store as it is, and a button of the
    panel that is pressed while the Mock client is held sends nothing and
    draws the panel from the new state. *)
Lemma unavailable_bridge_gives_mock
    (promise : Acquisition unit) (promiseR : Acquisition nat)
    (budget : option Z)
    (o : BaseApp.Request -> reply) (w : BaseApp.World)
    (oR : RestApi.Request -> reply) (wR : RestApi.World)
    (b : BaseApp.Button) (message : string) (urls : list string)
    (index : number) (status : option string) :
  unavailable promise (default 4000 budget) ->
  unavailable promiseR (default 4000 budget) ->
  let r := run (BaseApp.initTemplate promise budget) o w in
  let rR := run (RestApi.initBridgeDisplay promiseR budget) oR wR in
  (outcome r = Returned BaseApp.MockClient /\ requests r = [] /\
   BaseApp.mode BaseApp.MockClient = BaseApp.Mock) /\
  (outcome rR = Returned RestApi.Mock /\ requests rR = [] /\
   RestApi.bridgeDisplay (final rR) = Some RestApi.Mock) /\
  (forall w', run (BaseApp.client_syncToGlasses BaseApp.MockClient) o w'
              = (w', [], Returned tt)) /\
  (forall w', run (RestApi.display_show RestApi.Mock message) oR w'
              = (w', [], Returned tt)) /\
  (forall w', run (RestApi.display_renderList RestApi.Mock urls index status)
                oR w'
              = (w', [], Returned tt)) /\
  (forall w',
     BaseApp.templateClient w' = Some BaseApp.MockClient ->
     BaseApp.browserUi w' <> None ->
     let r' := run (BaseApp.click b) o w' in
     outcome r' = Returned tt /\ requests r' = [] /\
     BaseApp.browserUi (final r')
     = Some (BaseApp.panel_of (BaseApp.state (final r')))) /\
  (budget = None ->
   let c := run (BaseApp.connect promise) o w in
   let cR := run (RestApi.connect promiseR) oR wR in
   (outcome c = Returned tt /\ requests c = [] /\
    BaseApp.templateClient (final c) = Some BaseApp.MockClient) /\
   (outcome cR = Returned tt /\ requests cR = [] /\
    RestApi.bridgeDisplay (final cR) = Some RestApi.Mock)).
Proof.
  intros H HR r rR. repeat apply conj; try done.
  - unfold r, run. by rewrite initTemplate_unavailable.
  - unfold r, run. by rewrite initTemplate_unavailable.
  - unfold rR, run. by rewrite initBridgeDisplay_unavailable.
  - unfold rR, run. by rewrite initBridgeDisplay_unavailable.
  - unfold rR, run. by rewrite initBridgeDisplay_unavailable.
  - intros w' Hheld Hui.
    unfold run, BaseApp.click, BaseApp.panel_sync, bind, modify, void, gets.
    simpl. rewrite (proj2 (proj2 (renderBrowserPanel_frame _))). simpl.
    rewrite Hheld. simpl. repeat split.
    unfold BaseApp.renderBrowserPanel. simpl.
    by destruct (BaseApp.browserUi w').
  - intros ->. simpl in H, HR. split.
    + rewrite connect_unavailable_base by done. repeat split. simpl.
      by rewrite (proj2 (proj2 (renderBrowserPanel_frame _))).
    + destruct (connect_unavailable_rest promiseR oR wR HR) as (?&?&?&?).
      done.
Qed.

Lemma unavailable_bridge_gives_mock_witness :
  outcome (run (BaseApp.initTemplate Pending None) Scenario.accepting
             BaseApp.initial_world) = Returned BaseApp.MockClient /\
  outcome (run (RestApi.initBridgeDisplay (Resolves 5000 7%nat) None)
             Scenario.accepting RestApi.initial_world)
  = Returned RestApi.Mock.
Proof.
  assert (unavailable (Resolves 5000 7%nat) (default 4000 None)) as HR
    by (simpl; lia).
  pose proof (unavailable_bridge_gives_mock Pending (Resolves 5000 7%nat)
                None Scenario.accepting BaseApp.initial_world
                Scenario.accepting RestApi.initial_world BaseApp.Plus ""
                [] (Int 0) None I HR)
    as ((H1 & _) & (H2 & _) & _).
  split; [exact H1 | exact H2].
Defined.
End connect_claims.

(** ** The selection resolver of base_app *)

Section resolver.
Import Js Sdk.

Lemma findIndex_first_match (p : string -> bool) (P : string -> Prop) opts :
  (forall x, p x = true <-> P x) ->
  Spec.first_match P opts (findIndex p opts).
Proof.
  intros HpP. unfold findIndex.
  destruct (list_find (fun x => p x = true) opts) as [[i x]|] eqn:Hfind.
  - left. apply list_find_Some in Hfind as (Hi & Hx & Hleast).
    exists i, x. repeat split; [done | by apply HpP |].
    intros j y Hj Hy HPy. by apply (Hleast j y Hy Hj), HpP.
  - right. split; [done|]. intros x Hx HPx.
    apply list_find_None in Hfind.
    by apply (proj1 (Forall_forall _ _) Hfind x Hx), HpP.
Qed.

Lemma findIndex_range {A} (p : A -> bool) (l : list A) :
  findIndex p l = -1 \/ 0 <= findIndex p l < len l.
Proof.
  unfold findIndex, len.
  destruct (list_find (fun x => p x = true) l) as [[i x]|] eqn:Hfind;
    [right | by left].
  apply list_find_Some in Hfind as (Hi%lookup_lt_Some & _). lia.
Qed.

Lemma findIndex_none {A} (p : A -> bool) (l : list A) :
  (forall x, x ∈ l -> p x = false) -> findIndex p l = -1.
Proof.
  intros H. unfold findIndex.
  destruct (list_find (fun x => p x = true) l) as [[i x]|] eqn:Hfind; [|done].
  apply list_find_Some in Hfind as (Hi%list_elem_of_lookup_2 & Hx & _).
  rewrite (H x Hi) in Hx. done.
Qed.

(** The result of [parseIncomingThemeIndex] is an index of the list, or
    [-1]. *)
Lemma parseIncomingThemeIndex_range event :
  exists r, BaseApp.parseIncomingThemeIndex event = Int r /\
            (r = -1 \/ 0 <= r < 3).
Proof.
  unfold BaseApp.parseIncomingThemeIndex.
  assert (forall n, BaseApp.in_theme_range n = true ->
            exists r, n = Int r /\ (r = -1 \/ 0 <= r < 3)) as Hin.
  { intros [z|]; [|done]. unfold BaseApp.in_theme_range. simpl.
    change (len BaseApp.THEME_OPTIONS) with 3.
    intros [Hge%Z.leb_le Hlt%Z.ltb_lt]%andb_true_iff.
    exists z. split; [done|]. right. lia. }
  destruct (BaseApp.in_theme_range _) eqn:H1; [by apply Hin|].
  destruct (BaseApp.in_theme_range (BaseApp.parseIndex (BaseApp.indexFromRaw _)))
    eqn:H2; [by apply Hin|].
  destruct (truthy _); [|exists (-1); split; [done | by left]].
  repeat match goal with
  | |- context [findIndex ?p ?l] =>
      let H := fresh in
      destruct (findIndex_range p l) as [H|H];
      [rewrite H; simpl | rewrite (proj2 (Z.leb_le 0 _) (proj1 H)); eauto]
  end.
  exists (-1). split; [done | by left].
Qed.

Lemma hasIncomingIndex_true event :
  BaseApp.hasIncomingIndex event = true <->
  exists r, BaseApp.parseIncomingThemeIndex event = Int r /\ 0 <= r < 3.
Proof.
  unfold BaseApp.hasIncomingIndex.
  destruct (parseIncomingThemeIndex_range event) as (r & -> & Hr). simpl.
  change (len BaseApp.THEME_OPTIONS) with 3.
  rewrite andb_true_iff, Z.leb_le, Z.ltb_lt. split.
  - intros H. exists r. split; [done | lia].
  - intros (r' & [= <-] & H). lia.
Qed.

Lemma hasIncomingIndex_false event :
  BaseApp.hasIncomingIndex event = false <->
  BaseApp.parseIncomingThemeIndex event = Int (-1).
Proof.
  unfold BaseApp.hasIncomingIndex.
  destruct (parseIncomingThemeIndex_range event) as (r & -> & Hr). simpl.
  change (len BaseApp.THEME_OPTIONS) with 3.
  rewrite andb_false_iff, Z.leb_gt, Z.ltb_ge. split.
  - intros H. f_equal. lia.
  - intros [= ->]. lia.
Qed.

(** C3, as the claim states it, fails: the name "or" is a case-insensitive
    prefix of the label "Orange" and of no earlier label, no explicit index
    and no exact match exist, and the resolver answers [-1], not [2]. *)
Lemma prefix_rule_is_not_name_prefix_of_label :
  let event := Scenario.list_event VUndefined VUndefined (VString "or") in
  BaseApp.in_theme_range (BaseApp.parseIndex (BaseApp.indexFromList event))
    = false /\
  BaseApp.in_theme_range (BaseApp.parseIndex (BaseApp.indexFromRaw event))
    = false /\
  (forall label, label ∈ BaseApp.THEME_OPTIONS ->
     toLowerCase label <> BaseApp.incomingName event) /\
  Spec.first_match
    (fun label =>
       Spec.is_prefix_of (BaseApp.incomingName event) (toLowerCase label))
    BaseApp.THEME_OPTIONS 2 /\
  BaseApp.parseIncomingThemeIndex event = Int (-1).
Proof.
  repeat split.
  - intros label Hl. unfold BaseApp.THEME_OPTIONS in Hl.
    rewrite !elem_of_cons, elem_of_nil in Hl.
    destruct Hl as [->|[->|[->|[]]]]; discriminate.
  - left. exists 2%nat, "Orange". repeat split.
    + by exists "ange".
    + intros j other Hj Hother [rest Hrest].
      destruct j as [|[|j]]; [| |lia]; simpl in Hother;
        injection Hother as <-; discriminate.
Qed.

(** C3, amended. When no in-range explicit index and no exact
    case-insensitive name match exist, the resolver answers the position of
    the first option, in list order, whose lower-cased label is a prefix of
    the resolved (trimmed, lower-cased) incoming name, and [-1] when there
    is none. Resolving "orange" against ["Blue"; "Green"; "Orange"] yields
    [2], by the exact match. *)
Theorem name_resolves_to_first_label_prefix (event : EvenHubEvent) :
  BaseApp.in_theme_range (BaseApp.parseIndex (BaseApp.indexFromList event))
    = false ->
  BaseApp.in_theme_range (BaseApp.parseIndex (BaseApp.indexFromRaw event))
    = false ->
  (forall label, label ∈ BaseApp.THEME_OPTIONS ->
     toLowerCase label <> BaseApp.incomingName event) ->
  (exists r,
     BaseApp.parseIncomingThemeIndex event = Int r /\
     Spec.first_match
       (fun label =>
          Spec.is_prefix_of (toLowerCase label) (BaseApp.incomingName event))
       BaseApp.THEME_OPTIONS r) /\
  BaseApp.parseIncomingThemeIndex
    (Scenario.list_event VUndefined VUndefined (VString "orange")) = Int 2.
Proof.
  intros H1 H2 Hexact. split; [|reflexivity].
  pose proof (findIndex_first_match
    (fun name => startsWith (BaseApp.incomingName event) (toLowerCase name))
    (fun label =>
       Spec.is_prefix_of (toLowerCase label) (BaseApp.incomingName event))
    BaseApp.THEME_OPTIONS (fun x => prefix_is_prefix _ _)) as Hfirst.
  unfold BaseApp.parseIncomingThemeIndex. rewrite H1, H2.
  destruct (truthy (BaseApp.incomingName event)) eqn:Hname.
  - rewrite findIndex_none.
    2:{ intros x Hx. apply String.eqb_neq. by apply Hexact. }
    simpl.
    destruct (findIndex_range
      (fun name => startsWith (BaseApp.incomingName event) (toLowerCase name))
      BaseApp.THEME_OPTIONS) as [Hr|Hr].
    + rewrite Hr in *. simpl. by exists (-1).
    + rewrite (proj2 (Z.leb_le 0 _) (proj1 Hr)). eauto.
  - exists (-1). split; [done|]. right. split; [done|].
    destruct (BaseApp.incomingName event); [|done].
    intros label Hl [rest Hrest]. unfold BaseApp.THEME_OPTIONS in Hl.
    rewrite !elem_of_cons, elem_of_nil in Hl.
    destruct Hl as [->|[->|[->|[]]]]; discriminate.
Qed.

Lemma name_resolves_to_first_label_prefix_witness :
  exists r,
    BaseApp.parseIncomingThemeIndex
      (Scenario.list_event VUndefined VUndefined (VString "Greenish")) = Int r
    /\ Spec.first_match
         (fun label => Spec.is_prefix_of (toLowerCase label) "greenish")
         BaseApp.THEME_OPTIONS r.
Proof.
  apply (name_resolves_to_first_label_prefix
           (Scenario.list_event VUndefined VUndefined (VString "Greenish"))).
  - reflexivity.
  - reflexivity.
  - intros label Hl. unfold BaseApp.THEME_OPTIONS in Hl.
    rewrite !elem_of_cons, elem_of_nil in Hl.
    destruct Hl as [->|[->|[->|[]]]]; discriminate.
Defined.
End resolver.

(** ** The reconciler of base_app *)

Section base_reconciler.
Import Js Sdk.

Lemma clampThemeIndex_int i :
  BaseApp.clampThemeIndex (Int i) = Int (Z.max 0 (Z.min 2 i)).
Proof. reflexivity. Qed.

Lemma syncToGlasses_state id o w tr :
  BaseApp.state (final (BaseApp.syncToGlasses id o w tr)) = BaseApp.state w.
Proof.
  destruct (BaseApp.clients w !! id) as [[]|] eqn:Hflag.
  - rewrite syncToGlasses_next by done.
    destruct (o (BaseApp.UpdateStateText _)) as [[]|];
      [destruct (o (BaseApp.UpdateCounterText _)) as [[]|]..|];
      try done; by destruct (o (BaseApp.PageRender _ _)).
  - rewrite syncToGlasses_first by done. by destruct (o _).
  - unfold BaseApp.syncToGlasses, bind, gets, call, modify. simpl.
    rewrite Hflag. simpl. by destruct (o _).
Qed.

(** The state that the listener leaves, whatever the remote display
    replies. *)
Lemma listener_state id event o w :
  let eventType :=
    BaseApp.normalizeEventType (BaseApp.getRawEventType event) in
  let s1 := BaseApp.updateStateFromHubSelection event eventType
              (BaseApp.state w) in
  let s2 :=
    match eventType with
    | Some CLICK_EVENT => BaseApp.set_active (negb (BaseApp.active s1)) s1
    | Some DOUBLE_CLICK_EVENT =>
        BaseApp.set_active false (BaseApp.set_counter 0 s1)
    | _ => s1
    end in
  BaseApp.state (final (run (BaseApp.listener id event) o w)) =
    BaseApp.set_lastEvent
      ("glasses: " +:+ BaseApp.getEventTypeLabel eventType) s2 /\
  outcome (run (BaseApp.listener id event) o w) = Returned tt.
Proof.
  intros eventType s1 s2.
  unfold run, BaseApp.listener, bind, modify, void. simpl.
  fold eventType.
  match goal with
  | |- context [BaseApp.syncToGlasses id o ?w' []] =>
      pose proof (syncToGlasses_state id o w' []) as Hs;
      destruct (BaseApp.syncToGlasses id o w' []) as [[w2 tr2] c2]
  end.
  unfold final in *. simpl in *. rewrite Hs.
  by rewrite (proj1 (renderBrowserPanel_frame _)).
Qed.

(** C2. For a list event whose type normalises to Unknown and which
    resolves no index, [updateStateFromHubSelection] selects index 0 and
    records the fallback marker; the listener then stores the generic label
    of the event type over it, so that once the whole handler has run the
    last-event field holds "glasses: unknown" and not the marker. *)
Theorem listener_overwrites_fallback_marker
    (id : nat) (event : EvenHubEvent)
    (o : BaseApp.Request -> reply) (w : BaseApp.World) :
  is_Some (listEvent event) ->
  BaseApp.normalizeEventType (BaseApp.getRawEventType event) = None ->
  BaseApp.hasIncomingIndex event = false ->
  let marked :=
    BaseApp.updateStateFromHubSelection event None (BaseApp.state w) in
  let after := BaseApp.state (final (run (BaseApp.listener id event) o w)) in
  BaseApp.selectedTheme marked = Int 0 /\
  BaseApp.lastEvent marked = "glasses: list-fallback -> Blue" /\
  BaseApp.selectedTheme after = Int 0 /\
  BaseApp.lastEvent after = "glasses: unknown" /\
  BaseApp.lastEvent after <> "glasses: list-fallback -> Blue".
Proof.
  intros Hlist Htype Hidx marked after.
  assert (BaseApp.selectedTheme marked = Int 0 /\
          BaseApp.lastEvent marked = "glasses: list-fallback -> Blue")
    as [Hsel Hlast].
  { unfold marked, BaseApp.updateStateFromHubSelection.
    rewrite Hidx, (bool_decide_eq_true_2 _ Hlist). done. }
  unfold after. rewrite (proj1 (listener_state id event o w)), Htype.
  fold marked. by rewrite Hsel.
Qed.

Lemma listener_overwrites_fallback_marker_witness :
  let event := Scenario.list_event VUndefined VUndefined VUndefined in
  let after :=
    BaseApp.state
      (final (run (BaseApp.listener 0 event) Scenario.accepting
                Scenario.base_connected)) in
  BaseApp.selectedTheme after = Int 0 /\
  BaseApp.lastEvent after = "glasses: unknown".
Proof.
  pose proof (listener_overwrites_fallback_marker 0
                (Scenario.list_event VUndefined VUndefined VUndefined)
                Scenario.accepting Scenario.base_connected
                (mk_is_Some _ _ eq_refl) eq_refl eq_refl)
    as (_ & _ & Hsel & Hlast & _).
  split; [exact Hsel | exact Hlast].
Defined.
End base_reconciler.

(** ** The store of the REST-API instance *)

Section rest_frames.
Import Js Sdk.
Implicit Types Φ : RestApi.RestUiState -> Prop.

Lemma hoare_pure {Req St A} (P Q : St -> Prop) (φ : Prop)
    (m : Eff Req St A) :
  (forall s, P s -> φ) -> (φ -> hoare P m Q) -> hoare P m Q.
Proof. intros Hφ Hm o s tr HP. apply Hm; eauto. Qed.

Lemma hoare_gets_bind_drop {Req St A B} (P Q : St -> Prop) (f : St -> A)
    (k : A -> Eff Req St B) :
  (forall a, hoare P (k a) Q) -> hoare P (bind (gets f) k) Q.
Proof. intros Hk o s tr HP. by apply (Hk (f s) o s tr). Qed.

Lemma clampIndex_int z L :
  0 < L -> RestApi.clampIndex (Int z) L = Int (Z.max 0 (Z.min (L - 1) z)).
Proof.
  intros HL. unfold RestApi.clampIndex.
  by rewrite (proj2 (Z.leb_gt L 0)) by lia.
Qed.

Lemma clampIndex_in_range z L :
  0 < L -> Spec.index_in_range L (RestApi.clampIndex (Int z) L).
Proof. intros HL. rewrite clampIndex_int by done. eexists. split; [done | lia]. Qed.

Lemma clampIndex_id z L :
  0 <= z < L -> RestApi.clampIndex (Int z) L = Int z.
Proof. intros Hz. rewrite clampIndex_int by lia. f_equal. lia. Qed.

Lemma clampIndex_idem z L :
  RestApi.clampIndex (RestApi.clampIndex (Int z) L) L
  = RestApi.clampIndex (Int z) L.
Proof.
  destruct (decide (0 < L)) as [HL|HL].
  - rewrite clampIndex_int by done. apply clampIndex_id. lia.
  - unfold RestApi.clampIndex. by rewrite (proj2 (Z.leb_le L 0)) by lia.
Qed.

Lemma rest_store_frame Φ d X f w :
  (forall b, RestApi.selectedIndex (f b) = RestApi.selectedIndex b) ->
  Spec.rest_store Φ d X w ->
  Spec.rest_store Φ d X (RestApi.on_bridgeState f w).
Proof.
  intros Hf (Hu & Hd & HX). repeat split; [done..|]. simpl. by rewrite Hf.
Qed.

Lemma rest_store_select Φ d X Y w :
  Spec.rest_store Φ d X w ->
  Spec.rest_store Φ d Y
    (RestApi.on_bridgeState (RestApi.set_selectedIndex Y) w).
Proof. by intros (Hu & Hd & HX). Qed.

Lemma rest_store_setStatus Φ d X v w :
  Spec.rest_store Φ d X w -> Spec.rest_store Φ d X (RestApi.setStatus v w).
Proof. by intros (Hu & Hd & HX). Qed.

Lemma rest_store_set_isFetching Φ d X v w :
  Spec.rest_store Φ d X w -> Spec.rest_store Φ d X (RestApi.set_isFetching v w).
Proof. by intros (Hu & Hd & HX). Qed.

Lemma rest_store_on_ui Φ Ψ d X (g : RestApi.RestUiState -> RestApi.RestUiState)
    w :
  (forall u, Φ u -> Ψ (g u)) ->
  Spec.rest_store Φ d X w ->
  Spec.rest_store Ψ d X (RestApi.set_ui (g <$> RestApi.ui w) w).
Proof.
  intros Hg ((u & Hu & HΦ) & Hd & HX). repeat split; [|done..].
  exists (g u). simpl. rewrite Hu. split; [done | by apply Hg].
Qed.

Lemma hoare_renderBridgePage Φ d X h urls index msg :
  hoare (Spec.rest_store Φ d X) (RestApi.renderBridgePage h urls index msg)
        (Spec.rest_store Φ d X).
Proof.
  intros o s tr H. rewrite renderBridgePage_spec.
  destruct (o _); [|done]. by apply rest_store_frame.
Qed.

Lemma hoare_display_show Φ d X d' message :
  hoare (Spec.rest_store Φ d X) (RestApi.display_show d' message)
        (Spec.rest_store Φ d X).
Proof.
  destruct d'; [|apply hoare_ret]. unfold RestApi.display_show.
  apply hoare_gets_bind_drop; intros urls.
  eapply (hoare_modify_bind _ (Spec.rest_store Φ d X)).
  { intros s Hs. by apply rest_store_frame. }
  apply hoare_gets_bind_drop; intros b.
  destruct (RestApi.bridge b);
    [apply hoare_renderBridgePage | apply hoare_settle].
Qed.

Lemma hoare_show_if_display Φ d X message :
  hoare (Spec.rest_store Φ d X) (RestApi.show_if_display message)
        (Spec.rest_store Φ d X).
Proof.
  unfold RestApi.show_if_display.
  apply hoare_gets_bind_drop; intros [m|];
    [apply hoare_display_show | apply hoare_ret].
Qed.

Lemma hoare_display_renderList Φ d X d' urls index message :
  hoare (Spec.rest_store Φ d X)
        (RestApi.display_renderList d' urls index message)
        (Spec.rest_store Φ d
           (match d' with
            | RestApi.Bridge => RestApi.clampIndex index (len urls)
            | RestApi.Mock => X
            end)).
Proof.
  destruct d'; [|apply hoare_ret]. unfold RestApi.display_renderList.
  eapply (hoare_modify_bind _
            (Spec.rest_store Φ d (RestApi.clampIndex index (len urls)))).
  { intros s Hs. by eapply rest_store_select. }
  eapply hoare_modify_bind.
  { intros s Hs. apply rest_store_frame; [|exact Hs].
    intros b. destruct message as [m|]; [by destruct (truthy m) | done]. }
  apply hoare_gets_bind_drop; intros b.
  destruct (RestApi.bridge b);
    [apply hoare_renderBridgePage | apply hoare_settle].
Qed.
(** A modification that keeps the shape of the store. *)
Ltac store_solve :=
  lazymatch goal with
  | |- Spec.rest_store _ _ _ (RestApi.setStatus _ _) =>
      by apply rest_store_setStatus
  | |- Spec.rest_store _ _ _ (RestApi.set_isFetching _ _) =>
      by apply rest_store_set_isFetching
  | |- Spec.rest_store _ _ _
         (RestApi.on_bridgeState (RestApi.set_selectedIndex _) _) =>
      by eapply rest_store_select
  | |- Spec.rest_store _ _ _ (RestApi.on_bridgeState _ _) =>
      by apply rest_store_frame
  | |- Spec.rest_store _ _ _ (RestApi.on_select _ _) =>
      by (eapply rest_store_on_ui; [|eassumption]; intros ? ?)
  | |- Spec.rest_store _ _ _ (RestApi.set_response _ _) =>
      by (eapply rest_store_on_ui; [|eassumption]; intros ? ?)
  | |- Spec.rest_store _ _ _ (RestApi.set_addInput _ _) =>
      by (eapply rest_store_on_ui; [|eassumption]; intros ? ?)
  end.

Ltac store_unfold :=
  repeat match goal with
         | P := Spec.rest_store _ _ _ |- _ => unfold P in *; clear P
         end.

Ltac store_step P :=
  eapply (hoare_modify_bind _ P); [intros ? ?; store_unfold; store_solve|].

Ltac store_last := apply hoare_modify; intros ? ?; store_unfold; store_solve.

Lemma hoare_runRequestByIndex opts d x fetchAsText :
  0 <= x < len opts ->
  hoare (Spec.rest_store (Spec.has_options opts) d (Int x))
        (RestApi.runRequestByIndex fetchAsText (Int x))
        (Spec.rest_store (Spec.has_options opts) d (Int x)).
Proof.
  intros Hx. set (P := Spec.rest_store (Spec.has_options opts) d (Int x)).
  unfold RestApi.runRequestByIndex.
  apply hoare_gets_bind; intros shown.
  apply (hoare_pure _ _
           (exists u, shown = Some u /\ Dom.options (RestApi.select u) = opts)).
  { intros s [((u & Hu & HΦ) & _) Heq]. exists u. by rewrite <- Heq. }
  intros (u & -> & Hopts).
  apply (hoare_conseq _ P _ P); [by intros s [H _] | done |].
  unfold RestApi.getAllUrls. rewrite Hopts.
  rewrite (proj2 (Z.eqb_neq (len opts) 0)) by lia.
  rewrite clampIndex_id by done.
  store_step P. store_step P.
  apply hoare_gets_bind_drop; intros [|]; [store_last|].
  store_step P.
  eapply hoare_bind; [apply hoare_show_if_display | done | intros _].
  store_step P.
  eapply (hoare_finally _ P); [|intros ? ?; by apply rest_store_set_isFetching].
  eapply (hoare_catch _ P); [|done|intros e].
  - apply hoare_settle_bind; [done | intros r].
    store_step P. store_step P. apply hoare_show_if_display.
  - store_step P. store_step P. apply hoare_show_if_display.
Qed.

Lemma hoare_run_selected opts d x fetchAsText :
  0 <= x < len opts ->
  hoare (Spec.rest_store (Spec.has_options opts) d (Int x))
        (RestApi.run_selected fetchAsText)
        (Spec.rest_store (Spec.has_options opts) d (Int x)).
Proof.
  intros Hx. set (P := Spec.rest_store (Spec.has_options opts) d (Int x)).
  unfold RestApi.run_selected.
  apply hoare_gets_bind; intros b.
  apply (hoare_pure _ _ (RestApi.selectedIndex b = Int x)).
  { intros s [(_ & _ & HX) Heq]. by rewrite <- Heq. }
  intros ->.
  apply (hoare_conseq _ P _ P); [by intros s [H _] | done |].
  destruct (RestApi.onSelectAndRun b);
    [by apply hoare_runRequestByIndex | apply hoare_ret].
Qed.
Lemma rest_hasIncomingIndex_true urls event :
  RestApi.hasIncomingIndex urls event = true ->
  exists r, RestApi.incomingIndex urls event = Int r /\ 0 <= r < len urls.
Proof.
  unfold RestApi.hasIncomingIndex.
  destruct (RestApi.incomingIndex urls event) as [r|]; [|done]. simpl.
  intros [?%Z.leb_le ?%Z.ltb_lt]%andb_true_iff. eauto.
Qed.

Lemma eventTypeOf_None urls current event :
  RestApi.eventTypeOf urls current event = None ->
  RestApi.hasListEvent event = false.
Proof.
  unfold RestApi.eventTypeOf.
  destruct (RestApi.normalizeEventType _) as [ty|]; simpl.
  - by destruct (RestApi.hasListEvent event).
  - destruct (RestApi.hasListEvent event); [|done].
    by repeat case_match.
Qed.

Lemma rest_reconcile_in_range opts event c :
  0 <= c < len opts ->
  exists x, Spec.rest_reconcile opts event c = Int x /\ 0 <= x < len opts.
Proof.
  intros Hc. unfold Spec.rest_reconcile.
  destruct (RestApi.hasIncomingIndex opts event) eqn:Hhas.
  - destruct (rest_hasIncomingIndex_true _ _ Hhas) as (r & -> & Hr).
    destruct (RestApi.eventTypeOf opts (Int c) event) as [[]|]; eauto.
  - destruct (RestApi.eventTypeOf opts (Int c) event) as [[]|];
      eexists; (split; [done | lia]).
Qed.

Lemma rest_store_syncBrowserSelection opts d x w :
  0 <= x < len opts ->
  Spec.rest_store (Spec.has_options opts) d (Int x) w ->
  Spec.rest_store (Spec.has_options opts) d (Int x)
    (RestApi.syncBrowserSelection (Int x) w).
Proof.
  intros Hx ((u & Hu & HΦ) & Hd & HX). unfold RestApi.syncBrowserSelection.
  rewrite Hu. unfold RestApi.getAllUrls, Spec.has_options in *. subst opts.
  rewrite (proj2 (Z.eqb_neq (len _) 0)) by lia.
  rewrite clampIndex_id by done.
  repeat split; [|done..]. simpl. rewrite Hu. simpl. eauto.
Qed.

Lemma hoare_onEvenHubEvent opts d c fetchAsText h event :
  0 <= c < len opts ->
  hoare (Spec.rest_store (Spec.has_options opts) d (Int c))
        (RestApi.onEvenHubEvent fetchAsText h event)
        (Spec.rest_store (Spec.has_options opts) d
           (Spec.rest_reconcile opts event c)).
Proof.
  intros Hc. set (P := Spec.rest_store (Spec.has_options opts) d (Int c)).
  destruct (rest_reconcile_in_range opts event c Hc) as (x & Hx & Hxr).
  rewrite Hx. set (Q := Spec.rest_store (Spec.has_options opts) d (Int x)).
  unfold RestApi.onEvenHubEvent.
  apply hoare_gets_bind; intros urls.
  apply (hoare_pure _ _ (urls = opts)).
  { intros s [((u & Hu & HΦ) & _) Heq]. subst urls.
    unfold RestApi.getActiveUrls. by rewrite Hu. }
  intros ->. apply (hoare_conseq _ P _ Q); [by intros s [H _] | done |].
  rewrite (proj2 (Z.eqb_neq (len opts) 0)) by lia.
  apply hoare_gets_bind; intros current.
  apply (hoare_pure _ _ (current = Int c)).
  { intros s [(_ & _ & HX) Heq]. by rewrite <- Heq. }
  intros ->. apply (hoare_conseq _ P _ Q); [by intros s [H _] | done |].
  assert (forall step : number -> number, 
            RestApi.clampIndex
              (if RestApi.hasIncomingIndex opts event
               then RestApi.incomingIndex opts event else step (Int c))
              (len opts) = Int x ->
            hoare P
              (modify (RestApi.on_bridgeState (RestApi.set_selectedIndex
                 (RestApi.clampIndex
                    (if RestApi.hasIncomingIndex opts event
                     then RestApi.incomingIndex opts event else step (Int c))
                    (len opts)))) ;;;
               let! sel := gets (fun w =>
                 RestApi.selectedIndex (RestApi.bridgeState w)) in
               modify (RestApi.syncBrowserSelection sel) ;;;
               let! b := gets RestApi.bridgeState in
               RestApi.renderBridgePage h opts (RestApi.selectedIndex b)
                 (RestApi.statusMessage b) ;;;
               let! sel := gets (fun w =>
                 RestApi.selectedIndex (RestApi.bridgeState w)) in
               if nneq sel (Int c) then RestApi.run_selected fetchAsText
               else ret tt) Q) as Hscroll.
  { intros step ->. store_step Q.
    apply hoare_gets_bind; intros sel.
    apply (hoare_pure _ _ (sel = Int x)).
    { intros s [(_ & _ & HX) Heq]. by rewrite <- Heq. }
    intros ->. apply (hoare_conseq _ Q _ Q); [by intros s [H _] | done |].
    eapply (hoare_modify_bind _ Q).
    { intros s Hs. by apply rest_store_syncBrowserSelection. }
    apply hoare_gets_bind_drop; intros b.
    eapply hoare_bind; [apply hoare_renderBridgePage | done | intros _].
    apply hoare_gets_bind_drop; intros sel.
    destruct (nneq sel (Int c));
      [by apply hoare_run_selected | apply hoare_ret]. }
  unfold Spec.rest_reconcile in Hx.
  destruct (RestApi.eventTypeOf opts (Int c) event) as [[]|] eqn:Hty;
    repeat first [ rewrite bool_decide_eq_true_2 by done
                 | rewrite bool_decide_eq_false_2 by done ];
    cbn [orb andb].
  - (* click *)
    assert ((if RestApi.hasIncomingIndex opts event
             then RestApi.clampIndex (RestApi.incomingIndex opts event)
                    (len opts)
             else Int c) = Int x) as ->.
    { destruct (RestApi.hasIncomingIndex opts event) eqn:Hhas; [|done].
      destruct (rest_hasIncomingIndex_true _ _ Hhas) as (r & Hr & Hrr).
      rewrite Hr in *. by rewrite clampIndex_id. }
    store_step Q.
    eapply (hoare_modify_bind _ Q).
    { intros s Hs. by apply rest_store_syncBrowserSelection. }
    by apply hoare_run_selected.
  - (* scroll up *)
    apply (Hscroll (fun i => nsub i (Int 1))).
    destruct (RestApi.hasIncomingIndex opts event) eqn:Hhas.
    + destruct (rest_hasIncomingIndex_true _ _ Hhas) as (r & Hr & Hrr).
      rewrite Hr in *. by rewrite clampIndex_id.
    + cbn [nsub]. rewrite clampIndex_int by lia. rewrite <- Hx. f_equal. lia.
  - (* scroll down *)
    apply (Hscroll (fun i => nadd i (Int 1))).
    destruct (RestApi.hasIncomingIndex opts event) eqn:Hhas.
    + destruct (rest_hasIncomingIndex_true _ _ Hhas) as (r & Hr & Hrr).
      rewrite Hr in *. by rewrite clampIndex_id.
    + cbn [nadd]. rewrite clampIndex_int by lia. rewrite <- Hx. f_equal. lia.
  - (* double click *)
    injection Hx as <-. apply hoare_ret.
  - (* unknown, no list payload *)
    injection Hx as <-. rewrite (eventTypeOf_None _ _ _ Hty). apply hoare_ret.
Qed.
End rest_frames.

(** ** Claims on the reconciler *)

Section reconciler_claims.
Import Js Sdk.

Lemma updateState_selectedTheme event ty i st :
  BaseApp.selectedTheme st = Int i -> 0 <= i <= 2 ->
  BaseApp.selectedTheme (BaseApp.updateStateFromHubSelection event ty st)
  = Spec.base_reconcile event ty i.
Proof.
  intros Hi Hr. unfold BaseApp.updateStateFromHubSelection, Spec.base_reconcile.
  destruct (BaseApp.hasIncomingIndex event) eqn:Hhas.
  - apply hasIncomingIndex_true in Hhas as (r & -> & Hrr).
    assert (BaseApp.clampThemeIndex (Int r) = Int r) as ->.
    { rewrite clampThemeIndex_int. f_equal. lia. }
    destruct ty as [[]|]; simpl; try done.
    by destruct (bool_decide (is_Some (listEvent event))).
  - rewrite Hi.
    destruct ty as [[]|]; simpl; try done.
    + rewrite clampThemeIndex_int. f_equal. lia.
    + rewrite clampThemeIndex_int. f_equal. lia.
    + by destruct (bool_decide (is_Some (listEvent event))).
Qed.

Lemma base_reconcile_in_range event ty i :
  0 <= i <= 2 -> Spec.index_in_range 3 (Spec.base_reconcile event ty i).
Proof.
  intros Hi. unfold Spec.base_reconcile.
  destruct (BaseApp.hasIncomingIndex event) eqn:Hhas.
  - apply hasIncomingIndex_true in Hhas as (r & -> & Hrr).
    exists r. split; [done | lia].
  - destruct ty as [[]|]; try (eexists; split; [done | lia]).
    destruct (bool_decide _); eexists; (split; [done | lia]).
Qed.

Lemma listener_selectedTheme id event o w :
  BaseApp.selectedTheme
    (BaseApp.state (final (run (BaseApp.listener id event) o w)))
  = BaseApp.selectedTheme
      (BaseApp.updateStateFromHubSelection event
         (BaseApp.normalizeEventType (BaseApp.getRawEventType event))
         (BaseApp.state w)).
Proof.
  rewrite (proj1 (listener_state id event o w)).
  by destruct (BaseApp.normalizeEventType _) as [[]|].
Qed.

Lemma rest_event_selection opts d c fetchAsText h event o w :
  0 <= c < len opts ->
  Spec.rest_store (Spec.has_options opts) d (Int c) w ->
  Spec.rest_store (Spec.has_options opts) d (Spec.rest_reconcile opts event c)
    (final (run (RestApi.onEvenHubEvent fetchAsText h event) o w)).
Proof. intros Hc Hw. by apply (hoare_onEvenHubEvent opts d c). Qed.

(** C6, as the claim states it, fails on the REST-API instance: a Click
    that resolves no index keeps the selection at row 1 and does not select
    row 0. *)
Lemma rest_click_without_index_keeps_selection :
  let event := Scenario.sys_event (VNumber (Int 0)) in
  let w := final (run (RestApi.choose 1) Scenario.accepting
                    Scenario.rest_connected) in
  RestApi.selectedIndex (RestApi.bridgeState w) = Int 1 /\
  RestApi.eventTypeOf RestApi.DEFAULT_URLS (Int 1) event = Some CLICK_EVENT /\
  RestApi.hasIncomingIndex RestApi.DEFAULT_URLS event = false /\
  RestApi.selectedIndex
    (RestApi.bridgeState
       (final (run (RestApi.onEvenHubEvent Scenario.offline 7 event)
                 Scenario.accepting w))) = Int 1.
Proof. repeat split; reflexivity. Qed.

(** Which index a list payload resolves to on the REST-API instance. *)
Lemma rest_incoming_index_cases opts event :
  0 < len opts ->
  (is_Some (listEvent event) ->
   isNaN (RestApi.parsedIncomingIndex opts event)
   || nlt (RestApi.parsedIncomingIndex opts event) (Int 0) = true ->
   RestApi.incomingIndex opts event = Int 0 /\
   RestApi.hasIncomingIndex opts event = true) /\
  (forall z, RestApi.parsedIncomingIndex opts event = Int z ->
             len opts <= z ->
             RestApi.hasIncomingIndex opts event = false).
Proof.
  intros HL. split.
  - intros Hlist Hbad.
    assert (RestApi.incomingIndex opts event = Int 0) as Hi.
    { unfold RestApi.incomingIndex, RestApi.hasListEvent.
      by rewrite bool_decide_eq_true_2, Hbad by done. }
    split; [done|]. unfold RestApi.hasIncomingIndex. rewrite Hi. simpl.
    by apply Z.ltb_lt.
  - intros z Hz Hlen.
    unfold RestApi.hasIncomingIndex, RestApi.incomingIndex. rewrite Hz.
    simpl. rewrite (proj2 (Z.ltb_ge z 0)) by lia. rewrite andb_false_r.
    simpl. rewrite (proj2 (Z.ltb_ge z (len opts))) by lia.
    apply andb_false_r.
Qed.

(** C6, amended. The reconciler of base_app follows the stated rules: a
    resolved index is selected as it is; otherwise ScrollUp steps down by
    one and stops at 0, ScrollDown steps up by one and stops at the last
    row, and Click selects row 0. The handler of the REST-API instance
    follows the same rules for ScrollUp and ScrollDown, and on a Click that
    resolves no index it keeps the current selection. There an event with
    a list payload whose index is not a number or is negative resolves to
    index 0, and an index at or beyond the end of the list resolves to no
    index. With the options ["Blue"; "Green"; "Orange"] at index 0, a
    ScrollDown that resolves no index moves the selection to index 1. *)
Theorem reconciler_rules
    (event : EvenHubEvent) (eventType : option OsEventTypeList) (i : Z)
    (st : BaseApp.TemplateState)
    (opts : list string) (d : option RestApi.SurfaceMode) (c : Z)
    (fetchAsText : string -> completion (string * string)) (h : nat)
    (o : RestApi.Request -> reply) (w : RestApi.World) :
  BaseApp.selectedTheme st = Int i -> 0 <= i <= 2 ->
  0 <= c < len opts ->
  Spec.rest_store (Spec.has_options opts) d (Int c) w ->
  let selected :=
    RestApi.selectedIndex
      (RestApi.bridgeState
         (final (run (RestApi.onEvenHubEvent fetchAsText h event) o w))) in
  BaseApp.selectedTheme
    (BaseApp.updateStateFromHubSelection event eventType st)
  = Spec.base_reconcile event eventType i /\
  selected = Spec.rest_reconcile opts event c /\
  BaseApp.selectedTheme
    (BaseApp.state
       (final (run (BaseApp.listener 0
                      (Scenario.sys_event (VNumber (Int 2))))
                 Scenario.accepting Scenario.base_connected))) = Int 1 /\
  (RestApi.eventTypeOf opts (Int c) event = Some CLICK_EVENT ->
   RestApi.hasIncomingIndex opts event = false -> selected = Int c) /\
  (is_Some (listEvent event) ->
   isNaN (RestApi.parsedIncomingIndex opts event)
   || nlt (RestApi.parsedIncomingIndex opts event) (Int 0) = true ->
   RestApi.incomingIndex opts event = Int 0 /\
   RestApi.hasIncomingIndex opts event = true) /\
  (forall z, RestApi.parsedIncomingIndex opts event = Int z ->
             len opts <= z ->
             RestApi.hasIncomingIndex opts event = false).
Proof.
  intros Hi Hir Hc Hw selected.
  assert (selected = Spec.rest_reconcile opts event c) as Hsel.
  { by destruct (rest_event_selection opts d c fetchAsText h event o w Hc Hw)
      as (_ & _ & ?). }
  destruct (rest_incoming_index_cases opts event) as [Hzero Hbeyond];
    [lia|].
  split_and!; try done.
  - by apply updateState_selectedTheme.
  - intros Hty Hhas. rewrite Hsel. unfold Spec.rest_reconcile.
    by rewrite Hty, Hhas.
Qed.

Lemma reconciler_rules_witness :
  BaseApp.selectedTheme
    (BaseApp.updateStateFromHubSelection
       (Scenario.sys_event (VNumber (Int 2))) (Some SCROLL_BOTTOM_EVENT)
       BaseApp.initial_state) = Int 1 /\
  RestApi.selectedIndex
    (RestApi.bridgeState
       (final (run (RestApi.onEvenHubEvent Scenario.offline 7
                      (Scenario.sys_event (VNumber (Int 2))))
                 Scenario.accepting Scenario.rest_connected))) = Int 1.
Proof.
  assert (Spec.rest_store (Spec.has_options RestApi.DEFAULT_URLS)
            (Some RestApi.Bridge) (Int 0) Scenario.rest_connected) as Hw.
  { repeat split. by eexists. }
  assert (0 <= 0 <= 2) as Hi by lia.
  assert (0 <= 0 < len RestApi.DEFAULT_URLS) as Hc by (by split).
  pose proof (reconciler_rules (Scenario.sys_event (VNumber (Int 2)))
                (Some SCROLL_BOTTOM_EVENT) 0 BaseApp.initial_state
                RestApi.DEFAULT_URLS (Some RestApi.Bridge) 0 Scenario.offline
                7 Scenario.accepting Scenario.rest_connected
                eq_refl Hi Hc Hw) as (H1 & H2 & _).
  split; [exact H1 | exact H2].
Defined.
End reconciler_claims.

(** ** Trimming *)

Section trimming.
Import Js.

Lemma string_app_assoc a b c : (a +:+ b) +:+ c = a +:+ b +:+ c.
Proof.
  induction a as [|x a IH]; [done|].
  change (String x ((a +:+ b) +:+ c) = String x (a +:+ b +:+ c)).
  by rewrite IH.
Qed.

Lemma rev_app_spec s t : String.rev_app s t = String.rev s +:+ t.
Proof.
  unfold String.rev. revert t.
  induction s as [|c s IH]; intros t; [done|].
  change (String.rev_app s (String c t)
          = String.rev_app s (String c "") +:+ t).
  by rewrite (IH (String c t)), (IH (String c "")), string_app_assoc.
Qed.

Lemma rev_cons c s : String.rev (String c s) = String.rev s +:+ String c "".
Proof. unfold String.rev at 1. simpl. apply rev_app_spec. Qed.

Lemma rev_snoc s c : String.rev (s +:+ String c "") = String c (String.rev s).
Proof.
  induction s as [|a s IH]; [done|].
  change (String a s +:+ String c "") with (String a (s +:+ String c "")).
  by rewrite !rev_cons, IH.
Qed.

Lemma rev_involutive s : String.rev (String.rev s) = s.
Proof.
  induction s as [|c s IH]; [done|]. by rewrite rev_cons, rev_snoc, IH.
Qed.

Lemma trimStart_idem s : trimStart (trimStart s) = trimStart s.
Proof.
  induction s as [|c s IH]; [done|]. simpl.
  destruct (Ascii.is_space c) eqn:Hc; [done|]. simpl. by rewrite Hc.
Qed.

Lemma trimStart_snoc s c :
  Ascii.is_space c = false ->
  trimStart (s +:+ String c "") = trimStart s +:+ String c "".
Proof.
  intros Hc. induction s as [|a s IH].
  - simpl. change ("" +:+ String c "") with (String c ""). simpl.
    by rewrite Hc.
  - change (String a s +:+ String c "") with (String a (s +:+ String c "")).
    simpl. by destruct (Ascii.is_space a).
Qed.

Lemma trimEnd_head c s :
  Ascii.is_space c = false ->
  exists t, trimEnd (String c s) = String c t.
Proof.
  intros Hc. unfold trimEnd. rewrite rev_cons, trimStart_snoc by done.
  rewrite rev_snoc. eauto.
Qed.

Lemma trimStart_head s :
  trimStart s = "" \/
  exists c t, trimStart s = String c t /\ Ascii.is_space c = false.
Proof.
  induction s as [|c s IH]; [by left|]. simpl.
  destruct (Ascii.is_space c) eqn:Hc; [done|]. right. eauto.
Qed.

Lemma trimEnd_idem s : trimEnd (trimEnd s) = trimEnd s.
Proof. unfold trimEnd. by rewrite rev_involutive, trimStart_idem. Qed.

Lemma trim_idem s : trim (trim s) = trim s.
Proof.
  unfold trim. destruct (trimStart_head s) as [->|(c & t & -> & Hc)]; [done|].
  destruct (trimEnd_head c t Hc) as [t' Ht]. rewrite Ht at 1.
  simpl. rewrite Hc, <- Ht. apply trimEnd_idem.
Qed.
End trimming.

(** ** The panel of the REST-API instance *)

Section rest_panel.
Import Js Sdk.

Lemma len_app_one {A} (l : list A) x : len (l ++ [x]) = len l + 1.
Proof. unfold len. rewrite length_app. simpl. lia. Qed.

Lemma indexOf_snoc opts x : x ∉ opts -> indexOf (opts ++ [x]) x = len opts.
Proof.
  intros Hx. unfold indexOf, findIndex.
  assert (list_find (fun y => bool_decide (y = x) = true) (opts ++ [x])
          = Some (length opts, x)) as ->; [|done].
  apply list_find_Some. split; [by apply list_lookup_middle|].
  split; [by apply bool_decide_eq_true_2|].
  intros j y Hy Hj Hyx%bool_decide_eq_true. subst y.
  rewrite lookup_app_l in Hy by done.
  by apply Hx, list_elem_of_lookup_2 with j.
Qed.

Lemma existsb_eqb_fresh x opts :
  x ∉ opts -> existsb (String.eqb x) opts = false.
Proof.
  induction opts as [|y opts IH]; [done|].
  intros [Hne Hx]%not_elem_of_cons. simpl.
  rewrite (proj2 (String.eqb_neq x y) Hne). by apply IH.
Qed.

Lemma truthy_nonempty x : x <> "" -> truthy x = true.
Proof. by destruct x. Qed.

Lemma select_after_add_fresh x e :
  trim x = x -> x <> "" -> x ∉ Dom.options e ->
  Spec.select_after_add x e =
    {| Dom.options := Dom.options e ++ [x];
       Dom.selectedIndex := len (Dom.options e) |}.
Proof.
  intros Htrim Hne Hfresh.
  unfold Spec.select_after_add, RestApi.ensureOption.
  rewrite Htrim, truthy_nonempty, existsb_eqb_fresh by done. simpl.
  unfold Dom.set_value, Dom.append, Dom.reselect.
  destruct (Dom.in_options _ _); simpl; by rewrite indexOf_snoc.
Qed.

Lemma selectedUrl_added opts x :
  trim x = x ->
  RestApi.selectedUrl
    {| Dom.options := opts ++ [x]; Dom.selectedIndex := len opts |} = x.
Proof.
  intros Htrim. unfold RestApi.selectedUrl, Dom.value, at_index, len. simpl.
  rewrite (proj2 (Z.leb_le 0 _)) by lia.
  by rewrite Nat2Z.id, list_lookup_middle.
Qed.

Lemma select_after_remove_last opts x :
  Spec.select_after_remove
    {| Dom.options := opts ++ [x]; Dom.selectedIndex := len opts |} =
    {| Dom.options := opts;
       Dom.selectedIndex := if 0 <? len opts then len opts - 1 else -1 |}.
Proof.
  unfold Spec.select_after_remove, Dom.remove. simpl.
  assert (Dom.in_options (len opts) (opts ++ [x]) = true) as ->.
  { unfold Dom.in_options. rewrite len_app_one.
    apply andb_true_iff. split; [apply Z.leb_le | apply Z.ltb_lt];
      unfold len; lia. }
  rewrite Z.ltb_irrefl, Z.eqb_refl.
  assert (delete (Z.to_nat (len opts)) (opts ++ [x]) = opts) as ->.
  { unfold len. rewrite Nat2Z.id.
    rewrite (delete_middle opts [] x). apply app_nil_r. }
  unfold Dom.reselect, Dom.in_options. simpl.
  destruct (0 <? len opts) eqn:HL; [|done].
  unfold Dom.set_selectedIndex, Dom.in_options. cbn [Dom.options].
  apply Z.ltb_lt in HL.
  rewrite (proj2 (Z.leb_le 0 _)), (proj2 (Z.ltb_lt _ (len opts))) by lia.
  cbn [andb]. f_equal. lia.
Qed.

Lemma hoare_updateBridgeList e text d X :
  hoare (Spec.rest_store (Spec.is_panel e text) d X)
        RestApi.updateBridgeListFromBrowserSelect
        (Spec.rest_store (Spec.is_panel e text) d
           (Spec.bridge_selection d e X)).
Proof.
  unfold RestApi.updateBridgeListFromBrowserSelect.
  apply hoare_gets_bind; intros d'.
  apply (hoare_pure _ _ (d' = d)).
  { intros s [(_ & Hd & _) Heq]. by rewrite <- Heq, Hd. }
  intros ->.
  apply (hoare_conseq _ (Spec.rest_store (Spec.is_panel e text) d X) _
           (Spec.rest_store (Spec.is_panel e text) d
              (Spec.bridge_selection d e X)));
    [by intros s [H _] | done |].
  destruct d as [[]|]; [|apply hoare_ret..].
  apply hoare_gets_bind; intros shown.
  apply (hoare_pure _ _ (exists u, shown = Some u /\ RestApi.select u = e)).
  { intros s [((u & Hu & He & _) & _) Heq]. exists u. by rewrite <- Heq. }
  intros (u & -> & ->). unfold RestApi.getAllUrls, Spec.bridge_selection.
  set (index := RestApi.clampIndex _ _).
  set (Q := Spec.rest_store (Spec.is_panel e text) (Some RestApi.Bridge) index).
  apply (hoare_conseq _
           (Spec.rest_store (Spec.is_panel e text) (Some RestApi.Bridge) X)
           _ Q);
    [by intros s [H _] | done |].
  eapply (hoare_modify_bind _ Q).
  { intros s Hs. by eapply rest_store_select. }
  apply hoare_void.
  eapply hoare_conseq;
    [done | | apply (hoare_display_renderList _ _ _ RestApi.Bridge)].
  intros s Hs. unfold Q, index in *. by rewrite clampIndex_idem in Hs.
Qed.
(** A modification of the panel. *)
Ltac panel_step Ψ :=
  eapply (hoare_modify_bind _ Ψ);
  [ intros ? ?;
    first [ by apply rest_store_setStatus
          | unfold RestApi.on_select, RestApi.set_addInput;
            eapply rest_store_on_ui; [|eassumption];
            let H1 := fresh in let H2 := fresh in
            intros ? [H1 H2]; unfold Spec.is_panel; simpl;
            rewrite ?H1, ?H2; by split ]
  | ].

Lemma hoare_add_url text0 text e d X :
  let x := trim text in
  hoare (Spec.rest_store (Spec.is_panel e text0) d X) (RestApi.add_url text)
        (if truthy x
         then Spec.rest_store (Spec.is_panel (Spec.select_after_add x e) "") d
                (Spec.bridge_selection d (Spec.select_after_add x e) X)
         else Spec.rest_store (Spec.is_panel e text) d X).
Proof.
  intros x. unfold RestApi.add_url.
  eapply (hoare_modify_bind _ (Spec.rest_store (Spec.is_panel e text) d X)).
  { intros s Hs. unfold RestApi.set_addInput.
    eapply rest_store_on_ui; [|exact Hs]. intros u [<- _]. by split. }
  unfold RestApi.addButton_onclick.
  apply hoare_gets_bind; intros shown.
  apply (hoare_pure _ _
           (exists u, shown = Some u /\ RestApi.select u = e /\
                      RestApi.addInput u = text)).
  { intros s [((u & Hu & He & Ht) & _) Heq]. exists u. by rewrite <- Heq. }
  intros (u & -> & Hsel & Hin). rewrite Hin. fold x.
  eapply hoare_conseq; [by intros s [H _] | intros s H; exact H |].
  destruct (truthy x); cbn [negb].
  - panel_step (Spec.rest_store
                  (Spec.is_panel (RestApi.ensureOption x e) text) d X).
    panel_step (Spec.rest_store
                  (Spec.is_panel (Spec.select_after_add x e) text) d X).
    panel_step (Spec.rest_store
                  (Spec.is_panel (Spec.select_after_add x e) "") d X).
    panel_step (Spec.rest_store
                  (Spec.is_panel (Spec.select_after_add x e) "") d X).
    apply hoare_updateBridgeList.
  - apply hoare_modify. intros s Hs. by apply rest_store_setStatus.
Qed.

Lemma hoare_remove text e d X :
  hoare (Spec.rest_store (Spec.is_panel e text) d X)
        RestApi.removeButton_onclick
        (if truthy (RestApi.selectedUrl e)
         then Spec.rest_store (Spec.is_panel (Spec.select_after_remove e) text)
                d (Spec.bridge_selection d (Spec.select_after_remove e) X)
         else Spec.rest_store (Spec.is_panel e text) d X).
Proof.
  unfold RestApi.removeButton_onclick.
  apply hoare_gets_bind; intros shown.
  apply (hoare_pure _ _ (exists u, shown = Some u /\ RestApi.select u = e)).
  { intros s [((u & Hu & He & Ht) & _) Heq]. exists u. by rewrite <- Heq. }
  intros (u & -> & Hsel). rewrite Hsel.
  eapply hoare_conseq; [by intros s [H _] | intros s H; exact H |].
  destruct (truthy (RestApi.selectedUrl e)); cbn [negb].
  - panel_step (Spec.rest_store
                  (Spec.is_panel (Dom.remove (Dom.selectedIndex e) e) text)
                  d X).
    panel_step (Spec.rest_store
                  (Spec.is_panel (Spec.select_after_remove e) text) d X).
    panel_step (Spec.rest_store
                  (Spec.is_panel (Spec.select_after_remove e) text) d X).
    apply hoare_updateBridgeList.
  - apply hoare_modify. intros s Hs. by apply rest_store_setStatus.
Qed.

Lemma hoare_choose i text e d X :
  let e' := Dom.set_selectedIndex (Int i) e in
  hoare (Spec.rest_store (Spec.is_panel e text) d X) (RestApi.choose i)
        (Spec.rest_store (Spec.is_panel e' text) d
           (RestApi.clampIndex (Int (Dom.selectedIndex e'))
              (len (Dom.options e')))).
Proof.
  intros e'. unfold RestApi.choose.
  panel_step (Spec.rest_store (Spec.is_panel e' text) d X).
  unfold RestApi.select_onchange.
  apply hoare_gets_bind; intros shown.
  apply (hoare_pure _ _ (exists u, shown = Some u /\ RestApi.select u = e')).
  { intros s [((u & Hu & He & Ht) & _) Heq]. exists u. by rewrite <- Heq. }
  intros (u & -> & Hsel). rewrite Hsel. unfold RestApi.getAllUrls.
  set (index := RestApi.clampIndex _ _).
  eapply (hoare_conseq _ (Spec.rest_store (Spec.is_panel e' text) d X));
    [by intros s [H _] | intros s H; exact H |].
  eapply (hoare_modify_bind _
            (Spec.rest_store (Spec.is_panel e' text) d index)).
  { intros s Hs. by eapply rest_store_select. }
  eapply hoare_conseq; [done | | apply hoare_updateBridgeList].
  intros s Hs. unfold Spec.bridge_selection in Hs.
  by destruct d as [[]|].
Qed.
End rest_panel.

(** ** Claims on the selection index and on the option list *)

Section selection_claims.
Import Js Sdk.

Lemma rest_store_mono (Φ Ψ : RestApi.RestUiState -> Prop) d X w :
  (forall u, Φ u -> Ψ u) ->
  Spec.rest_store Φ d X w -> Spec.rest_store Ψ d X w.
Proof. intros H ((u & Hu & HΦ) & Hd & HX). repeat split; eauto. Qed.

Lemma store_selection_in_range opts d X w :
  Spec.rest_store (Spec.has_options opts) d X w ->
  (0 < len opts -> Spec.index_in_range (len opts) X) ->
  Spec.rest_selection_in_range w.
Proof.
  intros ((u & Hu & HΦ) & _ & HX) Hr.
  unfold Spec.rest_selection_in_range, RestApi.getActiveUrls.
  rewrite Hu, HX. unfold RestApi.getAllUrls. by rewrite HΦ.
Qed.

Lemma store_of_world w u :
  RestApi.ui w = Some u ->
  Spec.rest_store (Spec.is_panel (RestApi.select u) (RestApi.addInput u))
    (RestApi.bridgeDisplay w)
    (RestApi.selectedIndex (RestApi.bridgeState w)) w.
Proof. intros Hu. repeat split. by exists u. Qed.

Lemma panel_has_options e text u :
  Spec.is_panel e text u -> Spec.has_options (Dom.options e) u.
Proof. by intros [<- _]. Qed.

Lemma bridge_selection_in_range e X :
  0 < len (Dom.options e) ->
  Spec.index_in_range (len (Dom.options e))
    (Spec.bridge_selection (Some RestApi.Bridge) e X).
Proof. apply clampIndex_in_range. Qed.

Lemma onEvenHubEvent_empty fetchAsText h event o w :
  len (RestApi.getActiveUrls w) = 0 ->
  run (RestApi.onEvenHubEvent fetchAsText h event) o w = (w, [], Returned tt).
Proof.
  intros H. unfold run, RestApi.onEvenHubEvent, bind, gets. by rewrite H.
Qed.

Lemma rest_event_in_range fetchAsText h event o w :
  is_Some (RestApi.ui w) ->
  Spec.rest_selection_in_range w ->
  Spec.rest_selection_in_range
    (final (run (RestApi.onEvenHubEvent fetchAsText h event) o w)).
Proof.
  intros [u Hu] Hw.
  destruct (decide (len (RestApi.getActiveUrls w) = 0)) as [H0|H0].
  { by rewrite onEvenHubEvent_empty. }
  assert (0 < len (RestApi.getActiveUrls w)) as HL by (unfold len in *; lia).
  destruct (Hw HL) as (c & Hc & Hcr).
  unfold RestApi.getActiveUrls in HL, Hcr. rewrite Hu in HL, Hcr.
  unfold RestApi.getAllUrls in HL, Hcr.
  set (opts := Dom.options (RestApi.select u)) in *.
  assert (Spec.rest_store (Spec.has_options opts) (RestApi.bridgeDisplay w)
            (Int c) w) as Hstore.
  { repeat split; [by exists u | done]. }
  assert (0 <= c < len opts) as Hc' by lia.
  pose proof (rest_event_selection opts _ c fetchAsText h event o w Hc' Hstore)
    as Hfin.
  eapply store_selection_in_range; [exact Hfin|]. intros _.
  destruct (rest_reconcile_in_range opts event c Hc') as (x & -> & Hx).
  exists x. split; [done | lia].
Qed.

Lemma rest_choose_in_range j o w :
  is_Some (RestApi.ui w) ->
  Spec.rest_selection_in_range (final (run (RestApi.choose j) o w)).
Proof.
  intros [u Hu].
  pose proof (hoare_choose j _ _ _ _ o w [] (store_of_world w u Hu)) as Hfin.
  eapply store_selection_in_range.
  - eapply rest_store_mono; [apply panel_has_options | exact Hfin].
  - apply clampIndex_in_range.
Qed.

Lemma rest_add_selection text o w :
  is_Some (RestApi.ui w) ->
  let w' := final (run (RestApi.add_url text) o w) in
  (RestApi.bridgeDisplay w = Some RestApi.Bridge ->
   Spec.rest_selection_in_range w -> Spec.rest_selection_in_range w') /\
  (RestApi.bridgeDisplay w <> Some RestApi.Bridge ->
   RestApi.selectedIndex (RestApi.bridgeState w')
   = RestApi.selectedIndex (RestApi.bridgeState w)).
Proof.
  intros [u Hu] w'. subst w'. unfold run.
  pose proof (hoare_add_url _ text _ _ _ o w [] (store_of_world w u Hu))
    as Hfin. cbv zeta in Hfin.
  destruct (truthy (trim text)).
  - split.
    + intros Hd _. rewrite Hd in Hfin.
      eapply store_selection_in_range.
      * eapply rest_store_mono; [apply panel_has_options | exact Hfin].
      * apply bridge_selection_in_range.
    + intros Hd. destruct Hfin as (_ & _ & ->).
      unfold Spec.bridge_selection.
      by destruct (RestApi.bridgeDisplay w) as [[]|].
  - split.
    + intros _ Hw. destruct Hfin as ((u' & Hu' & Hsel & _) & _ & HX).
      unfold Spec.rest_selection_in_range, RestApi.getActiveUrls in *.
      rewrite Hu in Hw. rewrite Hu', HX. unfold RestApi.getAllUrls in *.
      by rewrite Hsel.
    + intros _. by destruct Hfin as (_ & _ & ->).
Qed.

Lemma rest_remove_selection o w :
  is_Some (RestApi.ui w) ->
  let w' := final (run RestApi.removeButton_onclick o w) in
  (RestApi.bridgeDisplay w = Some RestApi.Bridge ->
   Spec.rest_selection_in_range w -> Spec.rest_selection_in_range w') /\
  (RestApi.bridgeDisplay w <> Some RestApi.Bridge ->
   RestApi.selectedIndex (RestApi.bridgeState w')
   = RestApi.selectedIndex (RestApi.bridgeState w)).
Proof.
  intros [u Hu] w'. subst w'. unfold run.
  pose proof (hoare_remove _ _ _ _ o w [] (store_of_world w u Hu)) as Hfin.
  destruct (truthy (RestApi.selectedUrl (RestApi.select u))).
  - split.
    + intros Hd _. rewrite Hd in Hfin.
      eapply store_selection_in_range.
      * eapply rest_store_mono; [apply panel_has_options | exact Hfin].
      * apply bridge_selection_in_range.
    + intros Hd. destruct Hfin as (_ & _ & ->).
      unfold Spec.bridge_selection.
      by destruct (RestApi.bridgeDisplay w) as [[]|].
  - split.
    + intros _ Hw. destruct Hfin as ((u' & Hu' & Hsel & _) & _ & HX).
      unfold Spec.rest_selection_in_range, RestApi.getActiveUrls in *.
      rewrite Hu in Hw. rewrite Hu', HX. unfold RestApi.getAllUrls in *.
      by rewrite Hsel.
    + intros _. by destruct Hfin as (_ & _ & ->).
Qed.
(** In Mock mode the remove button leaves the stored selection at row 1
    of a list that has one row left. *)
Lemma mock_remove_leaves_selection_out_of_range :
  let w := final (run (RestApi.choose 1) Scenario.accepting
                    Scenario.rest_mock) in
  let w' := final (run RestApi.removeButton_onclick Scenario.accepting w) in
  Spec.rest_selection_in_range w /\
  RestApi.getActiveUrls w' = ["http://livingkitchen.local/rest/system/clock"]
  /\
  RestApi.selectedIndex (RestApi.bridgeState w') = Int 1 /\
  ~ Spec.rest_selection_in_range w'.
Proof.
  repeat split.
  - intros _. exists 1. by split.
  - intros H. destruct H as (i & [= <-] & Hi); [done|].
    by destruct Hi as [_ Hi].
Qed.

(** For a list of length [L > 0] and an integer index, both
    clamping functions answer an index in [[0, L-1]]. The selection held in
    the state stays in range through every bridge event of either instance
    (the whole handler), is put in range by every local selection change,
    and in Bridge mode stays in range through the add and the remove button.
    Outside Bridge mode the add and the remove button leave the stored
    selection as it was. *)
Lemma selection_stays_in_range
    (L i j : Z) (event : EvenHubEvent) (eventType : option OsEventTypeList)
    (id : nat) (o : BaseApp.Request -> reply) (w : BaseApp.World)
    (fetchAsText : string -> completion (string * string)) (h : nat)
    (oR : RestApi.Request -> reply) (wR : RestApi.World) (text : string) :
  0 < L ->
  Spec.index_in_range 3 (BaseApp.selectedTheme (BaseApp.state w)) ->
  is_Some (RestApi.ui wR) ->
  Spec.rest_selection_in_range wR ->
  Spec.index_in_range L (RestApi.clampIndex (Int i) L) /\
  Spec.index_in_range 3 (BaseApp.clampThemeIndex (Int i)) /\
  Spec.index_in_range 3
    (BaseApp.selectedTheme
       (BaseApp.updateStateFromHubSelection event eventType
          (BaseApp.state w))) /\
  Spec.index_in_range 3
    (BaseApp.selectedTheme
       (BaseApp.state (final (run (BaseApp.listener id event) o w)))) /\
  Spec.rest_selection_in_range
    (final (run (RestApi.onEvenHubEvent fetchAsText h event) oR wR)) /\
  Spec.rest_selection_in_range (final (run (RestApi.choose j) oR wR)) /\
  (RestApi.bridgeDisplay wR = Some RestApi.Bridge ->
   Spec.rest_selection_in_range (final (run (RestApi.add_url text) oR wR)) /\
   Spec.rest_selection_in_range
     (final (run RestApi.removeButton_onclick oR wR))) /\
  (RestApi.bridgeDisplay wR <> Some RestApi.Bridge ->
   RestApi.selectedIndex
     (RestApi.bridgeState (final (run (RestApi.add_url text) oR wR)))
   = RestApi.selectedIndex (RestApi.bridgeState wR) /\
   RestApi.selectedIndex
     (RestApi.bridgeState (final (run RestApi.removeButton_onclick oR wR)))
   = RestApi.selectedIndex (RestApi.bridgeState wR)).
Proof.
  intros HL (i0 & Hi0 & Hr0) Hui HwR.
  assert (forall ty,
            Spec.index_in_range 3
              (BaseApp.selectedTheme
                 (BaseApp.updateStateFromHubSelection event ty
                    (BaseApp.state w)))) as Hbase.
  { intros ty. rewrite (updateState_selectedTheme event ty i0) by (done || lia).
    apply base_reconcile_in_range. lia. }
  repeat apply conj.
  - by apply clampIndex_in_range.
  - rewrite clampThemeIndex_int. eexists. split; [done | lia].
  - apply Hbase.
  - rewrite listener_selectedTheme. apply Hbase.
  - by apply rest_event_in_range.
  - by apply rest_choose_in_range.
  - intros Hd. split.
    + by apply (rest_add_selection text oR wR Hui).
    + by apply (rest_remove_selection oR wR Hui).
  - intros Hd. split.
    + by apply (rest_add_selection text oR wR Hui).
    + by apply (rest_remove_selection oR wR Hui).
Qed.

Lemma selection_stays_in_range_witness :
  Spec.index_in_range 2 (RestApi.clampIndex (Int 9) 2) /\
  Spec.rest_selection_in_range
    (final (run (RestApi.onEvenHubEvent Scenario.offline 7
                   (Scenario.sys_event (VNumber (Int 2))))
              Scenario.accepting Scenario.rest_connected)) /\
  Spec.rest_selection_in_range
    (final (run RestApi.removeButton_onclick Scenario.accepting
              Scenario.rest_connected)).
Proof.
  assert (0 < 2) as HL by lia.
  assert (Spec.index_in_range 3
            (BaseApp.selectedTheme (BaseApp.state Scenario.base_connected)))
    as Hb by (exists 0; split; [reflexivity | lia]).
  assert (is_Some (RestApi.ui Scenario.rest_connected)) as Hui
    by (eexists; reflexivity).
  assert (Spec.rest_selection_in_range Scenario.rest_connected) as Hr
    by (intros _; exists 0; split; [reflexivity | change (0 <= 0 <= 1); lia]).
  pose proof (selection_stays_in_range 2 9 1
                (Scenario.sys_event (VNumber (Int 2)))
                (Some SCROLL_BOTTOM_EVENT) 0 Scenario.accepting
                Scenario.base_connected Scenario.offline 7 Scenario.accepting
                Scenario.rest_connected "" HL Hb Hui Hr)
    as (H1 & _ & _ & _ & H2 & _ & H3 & _).
  split; [exact H1 | split; [exact H2 | exact (proj2 (H3 eq_refl))]].
Defined.

(** C9, as the claim states it, fails: adding a label that the list
    already holds adds nothing and selects the existing option, which the
    remove button then removes; the prior list is not restored. *)
Lemma adding_present_option_then_removing_shrinks_list :
  let w1 := final (run (RestApi.add_url
                          "http://livingkitchen.local/rest/system/clock")
                     Scenario.accepting Scenario.rest_connected) in
  let w2 := final (run RestApi.removeButton_onclick Scenario.accepting w1) in
  RestApi.getActiveUrls Scenario.rest_connected = RestApi.DEFAULT_URLS /\
  RestApi.getActiveUrls w1 = RestApi.DEFAULT_URLS /\
  RestApi.getActiveUrls w2 = ["http://livingkitchen.local/rest/rgb/toggle"] /\
  RestApi.getActiveUrls w2 <> RestApi.getActiveUrls Scenario.rest_connected.
Proof. repeat split. intros H. vm_compute in H. discriminate H. Qed.

(** C9, amended. For every option list and every label that, once
    trimmed, is not empty and not yet in the list, the add button appends
    the label and selects it, and the remove button that follows restores
    the prior list, the same labels in the same order. The [select]
    element ends on the last row of the restored list (on no row when the
    list is empty); in Bridge mode the stored selection is that index
    clamped to the restored list, otherwise it is left as it was. *)
Theorem add_then_remove_restores_options
    (text text0 : string) (e : Dom.HTMLSelectElement)
    (d : option RestApi.SurfaceMode) (X : number)
    (o o' : RestApi.Request -> reply) (w : RestApi.World) :
  let x := trim text in
  let L := len (Dom.options e) in
  x <> "" -> x ∉ Dom.options e ->
  Spec.rest_store (Spec.is_panel e text0) d X w ->
  let w1 := final (run (RestApi.add_url text) o w) in
  let w2 := final (run RestApi.removeButton_onclick o' w1) in
  let restored :=
    {| Dom.options := Dom.options e;
       Dom.selectedIndex := if 0 <? L then L - 1 else -1 |} in
  RestApi.getActiveUrls w1 = Dom.options e ++ [x] /\
  RestApi.getActiveUrls w2 = Dom.options e /\
  Spec.rest_store (Spec.is_panel restored "") d
    (Spec.bridge_selection d restored X) w2.
Proof.
  intros x L Hne Hfresh Hw w1 w2 restored.
  pose proof (hoare_add_url text0 text e d X o w [] Hw) as H1.
  fold x in H1. cbv zeta in H1. rewrite (truthy_nonempty x Hne) in H1.
  rewrite select_after_add_fresh in H1
    by (done || apply trim_idem).
  change (final (RestApi.add_url text o w [])) with w1 in H1.
  pose proof (hoare_remove _ _ _ _ o' w1 [] H1) as H2.
  rewrite selectedUrl_added, (truthy_nonempty x Hne) in H2
    by apply trim_idem.
  rewrite select_after_remove_last in H2.
  change (final (RestApi.removeButton_onclick o' w1 [])) with w2 in H2.
  fold L restored in H2.
  repeat split.
  - destruct H1 as ((u & Hu & Hsel & _) & _).
    unfold RestApi.getActiveUrls, RestApi.getAllUrls. by rewrite Hu, Hsel.
  - destruct H2 as ((u & Hu & Hsel & _) & _).
    unfold RestApi.getActiveUrls, RestApi.getAllUrls. by rewrite Hu, Hsel.
  - by destruct H2 as ((u & Hu & Hsel & Hin) & _); exists u.
  - by destruct H2 as (_ & Hd & _).
  - destruct H2 as (_ & _ & ->). by destruct d as [[]|].
Qed.

Lemma add_then_remove_restores_options_witness :
  let w1 := final (run (RestApi.add_url " http://host/rest/path ")
                     Scenario.accepting Scenario.rest_connected) in
  let w2 := final (run RestApi.removeButton_onclick Scenario.accepting w1) in
  RestApi.getActiveUrls w1 = RestApi.DEFAULT_URLS ++ ["http://host/rest/path"]
  /\ RestApi.getActiveUrls w2 = RestApi.DEFAULT_URLS.
Proof.
  assert (Spec.rest_store
            (Spec.is_panel
               {| Dom.options := RestApi.DEFAULT_URLS;
                  Dom.selectedIndex := 0 |} "")
            (Some RestApi.Bridge) (Int 0) Scenario.rest_connected) as Hw.
  { repeat split. by eexists. }
  assert (trim " http://host/rest/path " <> "") as Hne by discriminate.
  assert (trim " http://host/rest/path " ∉ RestApi.DEFAULT_URLS) as Hfresh.
  { unfold RestApi.DEFAULT_URLS. rewrite !elem_of_cons, elem_of_nil.
    intros [?|[?|[]]]; discriminate. }
  pose proof (add_then_remove_restores_options " http://host/rest/path " ""
                {| Dom.options := RestApi.DEFAULT_URLS;
                   Dom.selectedIndex := 0 |}
                (Some RestApi.Bridge) (Int 0)
                Scenario.accepting Scenario.accepting
                Scenario.rest_connected Hne Hfresh Hw) as (H1 & H2 & _).
  split; [exact H1 | exact H2].
Defined.
End selection_claims.

(** * Further properties of the code *)

(** ** Conditions that base_app maintains *)

Section base_invariants.
Import Js Sdk.

Lemma hoare_syncToGlasses (I : BaseApp.World -> Prop) id :
  (forall v w, I w -> I (BaseApp.set_clients v w)) ->
  hoare I (BaseApp.syncToGlasses id) I.
Proof.
  intros HI. unfold BaseApp.syncToGlasses.
  apply hoare_gets_bind_drop; intros s.
  apply hoare_gets_bind_drop; intros [|]; cbn [negb].
  - eapply hoare_bind; [apply hoare_call | done | intros su].
    eapply hoare_bind; [apply hoare_call | done | intros cu].
    destruct (negb su || negb cu); [|apply hoare_ret].
    eapply hoare_bind; [apply hoare_call | done | intros _; apply hoare_ret].
  - eapply hoare_bind; [apply hoare_call | done | intros _].
    apply hoare_modify. intros w Hw. by apply HI.
Qed.

Lemma hoare_client_sync (I : BaseApp.World -> Prop) c :
  (forall v w, I w -> I (BaseApp.set_clients v w)) ->
  hoare I (BaseApp.client_syncToGlasses c) I.
Proof.
  intros HI. destruct c; [apply hoare_ret | by apply hoare_syncToGlasses].
Qed.

Lemma hoare_panel_sync (I : BaseApp.World -> Prop) :
  (forall v w, I w -> I (BaseApp.set_clients v w)) ->
  hoare I BaseApp.panel_sync I.
Proof.
  intros HI. unfold BaseApp.panel_sync.
  apply hoare_gets_bind_drop; intros [c|];
    [by apply hoare_client_sync | apply hoare_ret].
Qed.

(** A handler of base_app: the state is updated, the panel is drawn
    again, the glasses are synchronised. *)
Lemma hoare_update_render (I : BaseApp.World -> Prop) f
    (m : Eff BaseApp.Request BaseApp.World unit) :
  (forall w, I w -> I (BaseApp.renderBrowserPanel (BaseApp.on_state f w))) ->
  hoare I m I ->
  hoare I (modify (BaseApp.on_state f) ;;; modify BaseApp.renderBrowserPanel
           ;;; m) I.
Proof.
  intros Hf Hm.
  eapply (hoare_modify_bind _
            (fun w' => exists w, I w /\ w' = BaseApp.on_state f w));
    [by eauto|].
  eapply (hoare_modify_bind _ I); [|done].
  intros ? (w & Hw & ->). by apply Hf.
Qed.

Lemma initTemplate_returns (promise : Acquisition unit) budget o w tr :
  exists w' c,
    BaseApp.initTemplate promise budget o w tr = (w', tr, Returned c) /\
    BaseApp.state w' = BaseApp.state w /\
    BaseApp.browserUi w' = BaseApp.browserUi w /\
    BaseApp.status w' = BaseApp.status w.
Proof.
  unfold BaseApp.initTemplate, catch, bind, settle, gets, modify, ret,
    BaseApp.getBridgeTemplateClient, BaseApp.getMockTemplateClient.
  destruct (withTimeout promise (default 4000 budget)) as [[]|e].
  - destruct (BaseApp.templateClient w) as [[|id]|]; by eexists _, _.
  - by eexists _, _.
Qed.

Lemma hoare_connect (I : BaseApp.World -> Prop) promise :
  (forall v w, I w -> I (BaseApp.set_clients v w)) ->
  (forall v w, I w -> I (BaseApp.set_templateClient v w)) ->
  (forall v w, I w -> I (BaseApp.setStatus v w)) ->
  (forall w, I w -> I (BaseApp.renderBrowserPanel w)) ->
  hoare I (BaseApp.connect promise) I.
Proof.
  intros Hc Ht Hs Hr. unfold BaseApp.connect.
  eapply (hoare_modify_bind _ I); [by auto|].
  eapply (hoare_catch _ I); [|done|intros e; apply hoare_modify; by auto].
  eapply (hoare_bind _ I); [|done|].
  - unfold BaseApp.initTemplate.
    eapply (hoare_catch _ I); [|done|intros e; apply hoare_ret].
    apply hoare_settle_bind; [done|intros _].
    apply hoare_gets_bind_drop; intros held.
    assert (hoare I
      (let! fresh := BaseApp.getBridgeTemplateClient in
       modify (BaseApp.set_templateClient (Some fresh)) ;;; ret fresh) I)
      as Hfresh.
    { eapply (hoare_bind _ I); [|done|intros fresh].
      - unfold BaseApp.getBridgeTemplateClient.
        apply hoare_gets_bind_drop; intros id.
        eapply (hoare_modify_bind _ I); [by auto|]. apply hoare_ret.
      - eapply (hoare_modify_bind _ I); [by auto|]. apply hoare_ret. }
    destruct held as [[|id]|]; [done | apply hoare_ret | done].
  - intros template.
    eapply (hoare_modify_bind _ I); [by auto|].
    eapply (hoare_bind _ I); [|done|intros _].
    { destruct template; [apply hoare_ret | by apply hoare_syncToGlasses]. }
    eapply (hoare_modify_bind _ I); [by auto|].
    destruct (BaseApp.mode template); apply hoare_modify; by auto.
Qed.

Lemma hoare_action (I : BaseApp.World -> Prop) :
  (forall v w, I w -> I (BaseApp.set_clients v w)) ->
  (forall v w, I w -> I (BaseApp.setStatus v w)) ->
  (forall w, I w ->
     I (BaseApp.renderBrowserPanel
          (BaseApp.on_state
             (fun s => BaseApp.set_lastEvent "web: main action button"
                         (BaseApp.set_counter (BaseApp.counter s + 1) s))
             w))) ->
  hoare I BaseApp.action I.
Proof.
  intros Hc Hs Hf. unfold BaseApp.action.
  apply hoare_gets_bind_drop; intros [c|]; [|apply hoare_modify; by auto].
  apply hoare_update_render; [done|].
  eapply (hoare_bind _ I); [by apply hoare_client_sync | done | intros _].
  apply hoare_modify; by auto.
Qed.

Lemma updateState_counter_active event ty s :
  BaseApp.counter (BaseApp.updateStateFromHubSelection event ty s)
  = BaseApp.counter s /\
  BaseApp.active (BaseApp.updateStateFromHubSelection event ty s)
  = BaseApp.active s.
Proof.
  unfold BaseApp.updateStateFromHubSelection.
  destruct ty as [[]|]; simpl; repeat case_match; done.
Qed.

Lemma panel_in_sync_render w :
  Props.panel_in_sync (BaseApp.renderBrowserPanel w).
Proof.
  unfold Props.panel_in_sync, BaseApp.renderBrowserPanel.
  destruct (BaseApp.browserUi w) eqn:Hui; simpl; [|by rewrite Hui].
  by intros p [= <-].
Qed.

Lemma hoare_listener (I : BaseApp.World -> Prop) id event :
  (forall v w, I w -> I (BaseApp.set_clients v w)) ->
  (forall f w, I w ->
     (forall s, 0 <= BaseApp.counter s -> 0 <= BaseApp.counter (f s)) ->
     I (BaseApp.renderBrowserPanel (BaseApp.on_state f w))) ->
  hoare I (BaseApp.listener id event) I.
Proof.
  intros Hc Hf. unfold BaseApp.listener.
  set (ty := BaseApp.normalizeEventType _).
  set (f1 := BaseApp.updateStateFromHubSelection event ty).
  set (f2 := fun s : BaseApp.TemplateState => match ty with
             | Some CLICK_EVENT =>
                 BaseApp.set_active (negb (BaseApp.active s)) s
             | Some DOUBLE_CLICK_EVENT =>
                 BaseApp.set_active false (BaseApp.set_counter 0 s)
             | _ => s
             end).
  set (f3 := BaseApp.set_lastEvent _).
  eapply (hoare_modify_bind _
            (fun w' => exists w, I w /\ w' = BaseApp.on_state f1 w));
    [by eauto|].
  eapply (hoare_modify_bind _
            (fun w' => exists w, I w /\
               w' = BaseApp.on_state (fun s => f2 (f1 s)) w)).
  { intros ? (w & Hw & ->). by exists w. }
  eapply (hoare_modify_bind _
            (fun w' => exists w, I w /\
               w' = BaseApp.on_state (fun s => f3 (f2 (f1 s))) w)).
  { intros ? (w & Hw & ->). by exists w. }
  eapply (hoare_modify_bind _ I).
  { intros ? (w & Hw & ->). apply Hf; [done|]. intros s Hs.
    unfold f3, f2, f1. simpl.
    destruct (updateState_counter_active event ty s) as [Hcnt _].
    destruct ty as [[]|];
      cbn [BaseApp.counter BaseApp.set_lastEvent BaseApp.set_active
           BaseApp.set_counter];
      rewrite ?Hcnt; done. }
  apply hoare_void. by apply hoare_syncToGlasses.
Qed.

Lemma hoare_click (I : BaseApp.World -> Prop) b :
  (forall v w, I w -> I (BaseApp.set_clients v w)) ->
  (forall f w, I w ->
     (forall s, 0 <= BaseApp.counter s -> 0 <= BaseApp.counter (f s)) ->
     I (BaseApp.renderBrowserPanel (BaseApp.on_state f w))) ->
  hoare I (BaseApp.click b) I.
Proof.
  intros Hc Hf. unfold BaseApp.click.
  apply hoare_update_render; [|apply hoare_void; by apply hoare_panel_sync].
  intros w Hw. apply Hf; [done|]. intros s Hs. destruct b; simpl; lia.
Qed.

Lemma hoare_base_perform (I : BaseApp.World -> Prop) g :
  (forall v w, I w -> I (BaseApp.set_clients v w)) ->
  (forall v w, I w -> I (BaseApp.set_templateClient v w)) ->
  (forall v w, I w -> I (BaseApp.setStatus v w)) ->
  (forall f w, I w ->
     (forall s, 0 <= BaseApp.counter s -> 0 <= BaseApp.counter (f s)) ->
     I (BaseApp.renderBrowserPanel (BaseApp.on_state f w))) ->
  hoare I (Props.base_perform g) I.
Proof.
  intros Hc Ht Hs Hf.
  assert (forall w, I w -> I (BaseApp.renderBrowserPanel w)) as Hr.
  { intros w Hw. pose proof (Hf id w Hw (fun s H => H)) as H.
    by destruct w. }
  destruct g as [b|id event|promise|]; simpl.
  - by apply hoare_click.
  - by apply hoare_listener.
  - by apply hoare_connect.
  - apply hoare_action; [done..|]. intros w Hw. apply Hf; [done|].
    intros s Hs'. simpl. lia.
Qed.

(** X1. The browser panel of base_app never shows stale data: if the
    panel, when built, shows the state before a gesture (a button, a bridge
    event, connect, the main action), it shows the new state after it,
    whatever the glasses reply; and the panel that [ensureBrowserPanel]
    builds shows the state. *)
Theorem base_panel_mirrors_state (g : Props.BaseGesture)
    (o : BaseApp.Request -> reply) (w : BaseApp.World) :
  Props.panel_in_sync w ->
  Props.panel_in_sync (final (run (Props.base_perform g) o w)) /\
  Props.panel_in_sync (BaseApp.ensureBrowserPanel w) /\
  is_Some (BaseApp.browserUi (BaseApp.ensureBrowserPanel w)).
Proof.
  intros Hw. split; [|split].
  - apply (hoare_base_perform Props.panel_in_sync g); try done.
    intros f w' _ _. apply panel_in_sync_render.
  - unfold BaseApp.ensureBrowserPanel, Props.panel_in_sync in *.
    destruct (BaseApp.browserUi w) eqn:Hui; [by rewrite Hui|].
    simpl. by intros p [= <-].
  - unfold BaseApp.ensureBrowserPanel.
    destruct (BaseApp.browserUi w) eqn:Hui; [by rewrite Hui|done].
Qed.

Lemma base_panel_mirrors_state_witness :
  Props.panel_in_sync
    (final (run (Props.base_perform (Props.Press BaseApp.Plus))
              Scenario.accepting Scenario.base_connected)).
Proof.
  apply (base_panel_mirrors_state (Props.Press BaseApp.Plus)
           Scenario.accepting Scenario.base_connected).
  intros p Hp. vm_compute in Hp. injection Hp as <-. vm_compute. reflexivity.
Defined.

(** X2. The counter of base_app never becomes negative: no gesture, and
    no reply of the glasses, takes a counter that is at least 0 below 0. *)
Theorem base_counter_never_negative (g : Props.BaseGesture)
    (o : BaseApp.Request -> reply) (w : BaseApp.World) :
  0 <= BaseApp.counter (BaseApp.state w) ->
  0 <= BaseApp.counter
         (BaseApp.state (final (run (Props.base_perform g) o w))).
Proof.
  intros Hw.
  apply (hoare_base_perform
           (fun w => 0 <= BaseApp.counter (BaseApp.state w)) g); try done.
  intros f w' Hw' Hf.
  rewrite (proj1 (renderBrowserPanel_frame _)). simpl. by apply Hf.
Qed.

Lemma base_counter_never_negative_witness :
  0 <= BaseApp.counter
         (BaseApp.state
            (final (run (Props.base_perform (Props.Press BaseApp.Minus))
                      Scenario.accepting BaseApp.initial_world))).
Proof.
  apply (base_counter_never_negative (Props.Press BaseApp.Minus)
           Scenario.accepting BaseApp.initial_world).
  simpl. lia.
Defined.
End base_invariants.

(** ** The actions and the handlers of base_app *)

Section base_handlers.
Import Js Sdk.

(** One step of a computation. *)
Lemma bind_modify_eq {Req St B} (f : St -> St) (k : unit -> Eff Req St B)
    o s tr :
  bind (modify f) k o s tr = k tt o (f s) tr.
Proof. reflexivity. Qed.

Lemma bind_gets_eq {Req St A B} (f : St -> A) (k : A -> Eff Req St B)
    o s tr :
  bind (gets f) k o s tr = k (f s) o s tr.
Proof. reflexivity. Qed.

Lemma bind_returned_eq {Req St A B} (m : Eff Req St A)
    (k : A -> Eff Req St B) o s tr s' tr' a :
  m o s tr = (s', tr', Returned a) -> bind m k o s tr = k a o s' tr'.
Proof. intros H. unfold bind. by rewrite H. Qed.

Lemma catch_bind_returned_eq {Req St A B} (m : Eff Req St A)
    (k : A -> Eff Req St B) h o s tr s' tr' a :
  m o s tr = (s', tr', Returned a) ->
  catch (bind m k) h o s tr = catch (k a) h o s' tr'.
Proof. intros H. unfold catch, bind. by rewrite H. Qed.

(** What [syncToGlasses] leaves alone. *)
Lemma syncToGlasses_frame id o w tr :
  let w' := final (BaseApp.syncToGlasses id o w tr) in
  BaseApp.state w' = BaseApp.state w /\
  BaseApp.templateClient w' = BaseApp.templateClient w /\
  BaseApp.browserUi w' = BaseApp.browserUi w /\
  BaseApp.status w' = BaseApp.status w.
Proof.
  apply (hoare_syncToGlasses
           (fun w' => BaseApp.state w' = BaseApp.state w /\
                      BaseApp.templateClient w' = BaseApp.templateClient w /\
                      BaseApp.browserUi w' = BaseApp.browserUi w /\
                      BaseApp.status w' = BaseApp.status w)); done.
Qed.

Lemma client_sync_frame c o w tr :
  let w' := final (BaseApp.client_syncToGlasses c o w tr) in
  BaseApp.state w' = BaseApp.state w /\
  BaseApp.templateClient w' = BaseApp.templateClient w /\
  BaseApp.browserUi w' = BaseApp.browserUi w /\
  BaseApp.status w' = BaseApp.status w.
Proof. destruct c; [done | apply syncToGlasses_frame]. Qed.

(** X3. [connect] of base_app never rejects: whatever the bridge and the
    glasses do, it returns, it leaves the state as it was, a client is held
    afterwards (also when the status reports a failure), and the status is
    one of the three final messages. *)
Theorem base_connect_always_settles (getRawBridge : Acquisition unit)
    (o : BaseApp.Request -> reply) (w : BaseApp.World) :
  let r := run (BaseApp.connect getRawBridge) o w in
  outcome r = Returned tt /\
  is_Some (BaseApp.templateClient (final r)) /\
  BaseApp.state (final r) = BaseApp.state w /\
  BaseApp.status (final r) ∈
    ["Base template: connected. Web panel + glasses view are synchronized.";
     "Base template: bridge unavailable. Running browser-only mock mode.";
     "Base template: connection failed"].
Proof.
  intros r. subst r. unfold run, BaseApp.connect.
  rewrite bind_modify_eq.
  destruct (initTemplate_returns getRawBridge None o
              (BaseApp.setStatus
                 "Base template: connecting to Even bridge..." w) [])
    as (w1 & c & Heq & Hst & _ & _).
  rewrite (catch_bind_returned_eq _ _ _ _ _ _ _ _ _ Heq). clear Heq.
  unfold catch. rewrite bind_modify_eq.
  set (w2 := BaseApp.set_templateClient (Some c) w1).
  assert (BaseApp.state w2 = BaseApp.state w) as Hst2 by done.
  assert (BaseApp.templateClient w2 = Some c) as Htc2 by done.
  clearbody w2. clear Hst.
  assert (forall x, BaseApp.state x = BaseApp.state w ->
            BaseApp.templateClient x = Some c ->
            BaseApp.state (BaseApp.renderBrowserPanel x) = BaseApp.state w /\
            BaseApp.templateClient (BaseApp.renderBrowserPanel x) = Some c)
    as Hr.
  { intros x <- <-. split; apply renderBrowserPanel_frame. }
  destruct c as [|id]; unfold BaseApp.client_start.
  - destruct (Hr w2 Hst2 Htc2) as [Hs4 Ht4].
    unfold final, outcome, bind, modify, ret. cbn [BaseApp.mode fst snd].
    cbn [BaseApp.state BaseApp.templateClient BaseApp.status
         BaseApp.setStatus].
    rewrite Hs4, Ht4. repeat split; [done..|rewrite !elem_of_cons; auto].
  - pose proof (syncToGlasses_frame id o w2 []) as (Hs3 & Ht3 & _).
    unfold bind.
    destruct (BaseApp.syncToGlasses id o w2 []) as [[w3 tr3] [[]|e]];
      unfold final, outcome, modify in *;
      cbn [BaseApp.mode fst snd] in *;
      rewrite Hst2 in Hs3; rewrite Htc2 in Ht3;
      [destruct (Hr w3 Hs3 Ht3) as [Hs4 Ht4]|];
      cbn [BaseApp.state BaseApp.templateClient BaseApp.status
           BaseApp.setStatus];
      rewrite ?Hs4, ?Ht4, ?Hs3, ?Ht3;
      (repeat split; [done..|rewrite !elem_of_cons; auto]).
Qed.

(** X4. The main action of base_app. With no client held it is blocked:
    nothing changes but the status, and nothing is sent. With a client held
    it adds exactly one to the counter and records itself as the last
    event, also when the synchronisation fails; it then either reports
    success, or rejects and leaves the status as it was. *)
Theorem base_action_counts (o : BaseApp.Request -> reply)
    (w : BaseApp.World) :
  let r := run BaseApp.action o w in
  match BaseApp.templateClient w with
  | None =>
      r = (BaseApp.setStatus "Base template: not connected" w, [],
           Returned tt)
  | Some _ =>
      BaseApp.counter (BaseApp.state (final r))
      = BaseApp.counter (BaseApp.state w) + 1 /\
      BaseApp.lastEvent (BaseApp.state (final r))
      = "web: main action button" /\
      ((outcome r = Returned tt /\
        BaseApp.status (final r)
        = "Base template: counter incremented and synced.") \/
       ((exists e, outcome r = Raised e) /\
        BaseApp.status (final r) = BaseApp.status w))
  end.
Proof.
  intros r. subst r. unfold run, BaseApp.action.
  rewrite bind_gets_eq.
  destruct (BaseApp.templateClient w) as [c|] eqn:Hheld; [|done].
  rewrite !bind_modify_eq. unfold bind.
  match goal with
  | |- context [BaseApp.client_syncToGlasses c o ?w' []] =>
      pose proof (client_sync_frame c o w' []) as (Hs & _ & _ & Hstatus);
      rewrite (proj1 (renderBrowserPanel_frame _)) in Hs;
      assert (BaseApp.status w' = BaseApp.status w) as Hw'
        by (unfold BaseApp.renderBrowserPanel; simpl;
            by destruct (BaseApp.browserUi w));
      rewrite Hw' in Hstatus; clear Hw';
      destruct (BaseApp.client_syncToGlasses c o w' []) as [[w3 tr3] [[]|e]]
  end; unfold final, outcome, modify in *; simpl in *; rewrite Hs; simpl.
  - repeat split. by left.
  - repeat split. right. eauto.
Qed.

(** X5. What a bridge event does to the counter and to the active flag
    of base_app, once the whole listener has run: a Click toggles the flag,
    a DoubleClick resets the counter and the flag, and every other event
    (scrolls, list selections, unknown types) leaves both as they were. The
    listener never rejects, whatever the glasses reply. *)
Theorem base_listener_counter_and_active (id : nat) (event : EvenHubEvent)
    (o : BaseApp.Request -> reply) (w : BaseApp.World) :
  let ty := BaseApp.normalizeEventType (BaseApp.getRawEventType event) in
  let r := run (BaseApp.listener id event) o w in
  BaseApp.counter (BaseApp.state (final r))
  = (if bool_decide (ty = Some DOUBLE_CLICK_EVENT) then 0
     else BaseApp.counter (BaseApp.state w)) /\
  BaseApp.active (BaseApp.state (final r))
  = match ty with
    | Some CLICK_EVENT => negb (BaseApp.active (BaseApp.state w))
    | Some DOUBLE_CLICK_EVENT => false
    | _ => BaseApp.active (BaseApp.state w)
    end /\
  outcome r = Returned tt.
Proof.
  intros ty r. subst r.
  destruct (listener_state id event o w) as [-> ->]. fold ty.
  destruct (updateState_counter_active event ty (BaseApp.state w))
    as [Hc Ha].
  destruct ty as [[]|]; simpl; rewrite ?Hc, ?Ha; done.
Qed.

Lemma click_state b o w :
  BaseApp.state (final (run (BaseApp.click b) o w))
  = match b with
    | BaseApp.Minus =>
        BaseApp.set_lastEvent "web: counter -1"
          (BaseApp.set_counter
             (Z.max 0 (BaseApp.counter (BaseApp.state w) - 1))
             (BaseApp.state w))
    | BaseApp.Plus =>
        BaseApp.set_lastEvent "web: counter +1"
          (BaseApp.set_counter (BaseApp.counter (BaseApp.state w) + 1)
             (BaseApp.state w))
    | BaseApp.Reset =>
        BaseApp.set_lastEvent "web: reset"
          (BaseApp.set_active false
             (BaseApp.set_counter 0 (BaseApp.state w)))
    | BaseApp.Sync =>
        BaseApp.set_lastEvent "web: manual sync" (BaseApp.state w)
    end /\
  outcome (run (BaseApp.click b) o w) = Returned tt.
Proof.
  unfold run, BaseApp.click.
  rewrite !bind_modify_eq. unfold void.
  match goal with
  | |- context [BaseApp.panel_sync o ?w' []] =>
      pose proof (hoare_panel_sync
                    (fun x => BaseApp.state x = BaseApp.state w')
                    (fun _ _ H => H) o w' [] eq_refl) as Hs;
      rewrite (proj1 (renderBrowserPanel_frame _)) in Hs;
      destruct (BaseApp.panel_sync o w' []) as [[w3 tr3] c3]
  end.
  unfold final, outcome in *. simpl in *. rewrite Hs. by destruct b.
Qed.

(** X6. The buttons of the base_app panel: Minus undoes Plus on a counter
    that is not negative, Minus stops at 0, Reset gives counter 0 and the
    idle state, and no button changes the selected theme or rejects. *)
Theorem base_buttons (b : BaseApp.Button)
    (o o' : BaseApp.Request -> reply) (w : BaseApp.World) :
  let after b o w := BaseApp.state (final (run (BaseApp.click b) o w)) in
  (0 <= BaseApp.counter (BaseApp.state w) ->
   BaseApp.counter
     (after BaseApp.Minus o' (final (run (BaseApp.click BaseApp.Plus) o w)))
   = BaseApp.counter (BaseApp.state w)) /\
  (BaseApp.counter (BaseApp.state w) <= 0 ->
   BaseApp.counter (after BaseApp.Minus o w) = 0) /\
  BaseApp.counter (after BaseApp.Reset o w) = 0 /\
  BaseApp.active (after BaseApp.Reset o w) = false /\
  BaseApp.selectedTheme (after b o w) = BaseApp.selectedTheme (BaseApp.state w)
  /\ outcome (run (BaseApp.click b) o w) = Returned tt.
Proof.
  intros after. unfold after.
  repeat split; rewrite ?(proj1 (click_state _ _ _)); simpl;
    try lia; try done.
  - by destruct b.
  - apply click_state.
Qed.

Lemma base_buttons_witness :
  BaseApp.counter
    (BaseApp.state
       (final (run (BaseApp.click BaseApp.Minus) Scenario.accepting
                 (final (run (BaseApp.click BaseApp.Plus) Scenario.accepting
                           Scenario.base_connected))))) = 0 /\
  BaseApp.counter
    (BaseApp.state
       (final (run (BaseApp.click BaseApp.Minus) Scenario.accepting
                 Scenario.base_connected))) = 0.
Proof.
  pose proof (base_buttons BaseApp.Sync Scenario.accepting Scenario.accepting
                Scenario.base_connected) as (H1 & H2 & _).
  split.
  - apply H1. vm_compute. discriminate.
  - apply H2. vm_compute. discriminate.
Defined.

(** X7. The label that base_app records for a gesture reads back as that
    gesture: the normaliser maps the label of each event type, Unknown
    included, to the type itself, so that the labels are pairwise
    distinct. *)
Theorem event_label_reads_back (ty ty' : option OsEventTypeList) :
  BaseApp.normalizeEventType (VString (BaseApp.getEventTypeLabel ty)) = ty /\
  (BaseApp.getEventTypeLabel ty = BaseApp.getEventTypeLabel ty' <->
   ty = ty').
Proof.
  assert (forall t, BaseApp.normalizeEventType
                      (VString (BaseApp.getEventTypeLabel t)) = t) as H.
  { by intros [[]|]. }
  split; [apply H|]. split; [|by intros ->].
  intros Heq. rewrite <- (H ty), <- (H ty'). by rewrite Heq.
Qed.
Lemma event_label_reads_back_witness :
  BaseApp.getEventTypeLabel (Some CLICK_EVENT)
  <> BaseApp.getEventTypeLabel (Some DOUBLE_CLICK_EVENT).
Proof.
  intros H.
  apply (event_label_reads_back (Some CLICK_EVENT) (Some DOUBLE_CLICK_EVENT))
    in H.
  discriminate H.
Defined.
End base_handlers.

(** ** Labels and the list of the REST-API instance *)

Section rest_labels.
Import Js Sdk.

Lemma string_length_app a b :
  String.length (a +:+ b) = (String.length a + String.length b)%nat.
Proof.
  induction a as [|c a IH]; [done|].
  change (String c a +:+ b) with (String c (a +:+ b)). simpl. by rewrite IH.
Qed.

Lemma length_slice0 n s :
  String.length (slice0 n s) = Nat.min n (String.length s).
Proof.
  revert s. induction n as [|n IH]; intros [|c s]; simpl; [done..|].
  by rewrite IH.
Qed.

Lemma slice0_all n s : (String.length s <= n)%nat -> slice0 n s = s.
Proof.
  revert s. induction n as [|n IH]; intros [|c s] H; simpl in *;
    [done | lia | done |].
  rewrite IH; [done | lia].
Qed.

Lemma slice0_app n a b :
  (n <= String.length a)%nat -> slice0 n (a +:+ b) = slice0 n a.
Proof.
  revert a. induction n as [|n IH]; intros [|c a] H; simpl in *;
    [by destruct b | done | lia |].
  change (String c a +:+ b) with (String c (a +:+ b)). simpl.
  rewrite IH; [done | lia].
Qed.

Lemma slice0_idem n s : slice0 n (slice0 n s) = slice0 n s.
Proof.
  revert s. induction n as [|n IH]; intros [|c s]; simpl; [done..|].
  by rewrite IH.
Qed.

Lemma toListLabel_long url :
  (62 < String.length url)%nat ->
  RestApi.toListLabel url = slice0 59 url +:+ "...".
Proof.
  intros H. unfold RestApi.toListLabel.
  by rewrite (proj2 (Z.leb_gt _ _)) by lia.
Qed.

Lemma toListLabel_short url :
  (String.length url <= 62)%nat -> RestApi.toListLabel url = url.
Proof.
  intros H. unfold RestApi.toListLabel.
  by rewrite (proj2 (Z.leb_le _ _)) by lia.
Qed.

Lemma toListLabel_length url :
  String.length (RestApi.toListLabel url)
  = Nat.min 62 (String.length url).
Proof.
  destruct (decide (String.length url <= 62)%nat) as [H|H].
  - rewrite toListLabel_short by done. lia.
  - rewrite toListLabel_long by lia.
    rewrite string_length_app, length_slice0.
    change (String.length "...") with 3%nat. lia.
Qed.

(** X8. A list label of the REST-API instance has at most 62 characters:
    a URL of at most 62 characters is its own label, a longer one is cut to
    62; the label keeps the first 59 characters of the URL, and labelling a
    label changes nothing. Two long URLs that agree on their first 59
    characters therefore get the same label. *)
Theorem toListLabel_bounds (url url' : string) :
  String.length (RestApi.toListLabel url)
  = Nat.min 62 (String.length url) /\
  slice0 59 (RestApi.toListLabel url) = slice0 59 url /\
  RestApi.toListLabel (RestApi.toListLabel url) = RestApi.toListLabel url /\
  ((62 < String.length url)%nat -> (62 < String.length url')%nat ->
   slice0 59 url = slice0 59 url' ->
   RestApi.toListLabel url = RestApi.toListLabel url').
Proof.
  split; [apply toListLabel_length|]. split; [|split].
  - destruct (decide (String.length url <= 62)%nat) as [H|H].
    + by rewrite toListLabel_short.
    + rewrite toListLabel_long by lia.
      rewrite slice0_app; [apply slice0_idem|]. rewrite length_slice0. lia.
  - apply toListLabel_short. rewrite toListLabel_length. lia.
  - intros H H' Heq. rewrite !toListLabel_long by done. by rewrite Heq.
Qed.

Lemma toListLabel_bounds_witness :
  let base := "http://livingkitchen.local/rest/a/very/long/path/to/a/resource/" in
  RestApi.toListLabel (base +:+ "one") = RestApi.toListLabel (base +:+ "two").
Proof.
  intros base.
  apply (toListLabel_bounds (base +:+ "one") (base +:+ "two"));
    vm_compute; (reflexivity || lia).
Defined.

(** X9. The page that [renderBridgePage] describes is well formed for
    every list of URLs, every integer selection and every status text: the
    number of items is the number of labels, at least one (a placeholder
    stands for an empty list), every label has at most 62 characters, and
    the selected item is the selection clamped to the rows of the list. *)
Theorem pageConfig_well_formed (urls : list string) (i : Z) (msg : string) :
  let c := RestApi.pageConfig urls (Int i) msg in
  RestApi.itemCount c = len (RestApi.itemName c) /\
  RestApi.itemCount c = Z.max 1 (len urls) /\
  Forall (fun l => (String.length l <= 62)%nat) (RestApi.itemName c) /\
  RestApi.currentSelectedItem c
  = Int (Z.max 0 (Z.min (RestApi.itemCount c - 1) i)) /\
  0 <= Z.max 0 (Z.min (RestApi.itemCount c - 1) i) < RestApi.itemCount c /\
  RestApi.statusContent c = msg.
Proof.
  intros c. subst c. unfold RestApi.pageConfig. simpl.
  set (safe := if 0 <? len urls then urls else ["No URL configured"]).
  assert (len safe = Z.max 1 (len urls)) as Hlen.
  { unfold safe. destruct (0 <? len urls) eqn:H.
    - apply Z.ltb_lt in H. lia.
    - apply Z.ltb_ge in H. unfold len in *. simpl. lia. }
  repeat split.
  - unfold len. by rewrite length_fmap.
  - done.
  - apply Forall_fmap, Forall_forall. intros url _. simpl.
    rewrite toListLabel_length. lia.
  - apply clampIndex_int. lia.
  - lia.
  - lia.
Qed.
End rest_labels.

(** ** The options of the panel *)

Section rest_options.
Import Js Sdk.

Lemma existsb_eqb_elem x opts :
  existsb (String.eqb x) opts = true <-> x ∈ opts.
Proof.
  rewrite existsb_exists. split.
  - intros (y & Hin%list_elem_of_In & ->%String.eqb_eq). done.
  - intros Hin. exists x. split; [by apply list_elem_of_In|].
    apply String.eqb_refl.
Qed.

Lemma dom_append_options v s :
  Dom.options (Dom.append v s) = Dom.options s ++ [v].
Proof. unfold Dom.append, Dom.reselect. by case_match. Qed.

Lemma ensureOption_options url s :
  Dom.options (RestApi.ensureOption url s)
  = if truthy (trim url) && negb (bool_decide (trim url ∈ Dom.options s))
    then Dom.options s ++ [trim url] else Dom.options s.
Proof.
  unfold RestApi.ensureOption.
  destruct (truthy (trim url)); simpl; [|done].
  destruct (existsb _ _) eqn:Hex.
  - apply existsb_eqb_elem in Hex. by rewrite bool_decide_eq_true_2.
  - rewrite bool_decide_eq_false_2; [apply dom_append_options|].
    intros Hin%existsb_eqb_elem. congruence.
Qed.

Lemma truthy_true x : truthy x = true <-> x <> "".
Proof. by destruct x. Qed.

Lemma ensureOption_keeps_clean url : Props.keeps_clean (RestApi.ensureOption url).
Proof.
  intros s [Hnd Hall]. rewrite ensureOption_options.
  destruct (truthy (trim url)) eqn:Ht; simpl; [|done].
  destruct (decide (trim url ∈ Dom.options s)) as [Hin|Hin].
  - by rewrite bool_decide_eq_true_2.
  - rewrite bool_decide_eq_false_2 by done. simpl. split.
    + apply NoDup_app. repeat split; [done| |apply NoDup_singleton].
      intros x Hx ->%list_elem_of_singleton. done.
    + apply Forall_app. split; [done|]. apply Forall_singleton.
      split; [apply trim_idem | by apply truthy_true].
Qed.

Lemma ensureOption_listed url s :
  trim url <> "" -> trim url ∈ Dom.options (RestApi.ensureOption url s).
Proof.
  intros Hne. rewrite ensureOption_options.
  rewrite (proj2 (truthy_true _) Hne). simpl.
  destruct (decide (trim url ∈ Dom.options s)) as [H|H].
  - by rewrite bool_decide_eq_true_2.
  - rewrite bool_decide_eq_false_2 by done. simpl.
    apply elem_of_app. right. by apply list_elem_of_singleton.
Qed.

(** X10. [ensureOption] treats the options as a set of trimmed labels: a
    blank label, or one that is already listed, changes nothing; a new
    label is appended in its trimmed form after the options already there,
    which keep their positions. The label is listed afterwards, a list
    without repetitions stays so, and a second call with the same text
    changes nothing. *)
Theorem ensureOption_set_like (url : string) (s : Dom.HTMLSelectElement) :
  let s' := RestApi.ensureOption url s in
  (trim url = "" \/ trim url ∈ Dom.options s -> s' = s) /\
  (trim url <> "" -> trim url ∉ Dom.options s ->
   Dom.options s' = Dom.options s ++ [trim url]) /\
  (trim url <> "" -> trim url ∈ Dom.options s') /\
  (NoDup (Dom.options s) -> NoDup (Dom.options s')) /\
  RestApi.ensureOption url s' = s'.
Proof.
  intros s'.
  assert (trim url = "" \/ trim url ∈ Dom.options s -> s' = s) as Hsame.
  { intros H. unfold s', RestApi.ensureOption.
    destruct H as [-> | Hin]; [done|].
    apply existsb_eqb_elem in Hin. rewrite Hin. by destruct (truthy _). }
  assert (trim url <> "" -> trim url ∈ Dom.options s') as Hin
    by apply ensureOption_listed.
  repeat split; [done| |done| |].
  - intros Hne Hnew. unfold s'. rewrite ensureOption_options.
    rewrite (proj2 (truthy_true _) Hne).
    by rewrite bool_decide_eq_false_2.
  - intros Hnd. unfold s'. rewrite ensureOption_options.
    destruct (truthy (trim url)); simpl; [|done].
    destruct (decide (trim url ∈ Dom.options s)) as [H|H].
    + by rewrite bool_decide_eq_true_2.
    + rewrite bool_decide_eq_false_2 by done. simpl.
      apply NoDup_app. repeat split; [done| |apply NoDup_singleton].
      intros x Hx ->%list_elem_of_singleton. done.
  - unfold RestApi.ensureOption at 1.
    destruct (truthy (trim url)) eqn:Ht; simpl; [|done].
    apply truthy_true in Ht. apply Hin, existsb_eqb_elem in Ht.
    by rewrite Ht.
Qed.

Lemma ensureOption_set_like_witness :
  Dom.options (RestApi.ensureOption " http://host/x " Dom.empty)
  = ["http://host/x"] /\
  RestApi.ensureOption "   " Dom.empty = Dom.empty.
Proof.
  split.
  - pose proof (ensureOption_set_like " http://host/x " Dom.empty)
      as (_ & H & _).
    apply H; [by vm_compute | apply not_elem_of_nil].
  - pose proof (ensureOption_set_like "   " Dom.empty) as (H & _).
    apply H. left. by vm_compute.
Defined.

Lemma clean_nil : Props.clean_labels [].
Proof. split; [apply NoDup_nil_2 | apply Forall_nil_2]. Qed.

Lemma keeps_clean_same g :
  (forall s, Dom.options (g s) = Dom.options s) -> Props.keeps_clean g.
Proof. intros H s Hs. by rewrite H. Qed.

Lemma keeps_clean_set_selectedIndex n :
  Props.keeps_clean (Dom.set_selectedIndex n).
Proof. by apply keeps_clean_same. Qed.

Lemma keeps_clean_set_value v : Props.keeps_clean (Dom.set_value v).
Proof. by apply keeps_clean_same. Qed.

Lemma dom_remove_options i s :
  Dom.options (Dom.remove i s)
  = if Dom.in_options i (Dom.options s)
    then delete (Z.to_nat i) (Dom.options s) else Dom.options s.
Proof.
  unfold Dom.remove. destruct (Dom.in_options i _); [|done].
  unfold Dom.reselect. by case_match.
Qed.

Lemma keeps_clean_remove i : Props.keeps_clean (Dom.remove i).
Proof.
  intros s [Hnd Hall]. rewrite dom_remove_options.
  destruct (Dom.in_options i _); [|done]. split.
  - eapply sublist_NoDup; [done | apply sublist_delete].
  - by apply Forall_delete.
Qed.

Lemma keeps_clean_if (b : Dom.HTMLSelectElement -> bool) g :
  Props.keeps_clean g -> Props.keeps_clean (fun s => if b s then g s else s).
Proof. intros Hg s Hs. destruct (b s); [by apply Hg | done]. Qed.
End rest_options.

(** ** Conditions that the REST-API instance maintains *)

Section rest_frame.
Import Js Sdk.
Variable I : RestApi.World -> Prop.
Hypothesis HI : Props.frame_closed I.

Lemma closed_status v w : I w -> I (RestApi.setStatus v w).
Proof. apply HI. Qed.

Lemma closed_bridgeState f w :
  (forall b, RestApi.bridge (f b) = RestApi.bridge b) ->
  I w -> I (RestApi.on_bridgeState f w).
Proof. apply HI. Qed.

Lemma closed_select g w :
  Props.keeps_clean g -> I w -> I (RestApi.on_select g w).
Proof. apply HI. Qed.

Lemma closed_response v w : I w -> I (RestApi.set_response v w).
Proof. apply HI. Qed.

Lemma closed_addInput v w : I w -> I (RestApi.set_addInput v w).
Proof. apply HI. Qed.

Lemma closed_selection n w :
  I w -> I (RestApi.on_bridgeState (RestApi.set_selectedIndex n) w).
Proof. by apply closed_bridgeState. Qed.

Lemma frame_renderBridgePage h urls index msg :
  hoare I (RestApi.renderBridgePage h urls index msg) I.
Proof.
  intros o s tr H. rewrite renderBridgePage_spec.
  destruct (o _); [|done]. by apply closed_bridgeState.
Qed.

Lemma frame_display_show d message :
  hoare I (RestApi.display_show d message) I.
Proof.
  destruct d; [|apply hoare_ret]. unfold RestApi.display_show.
  apply hoare_gets_bind_drop; intros urls.
  eapply (hoare_modify_bind _ I).
  { intros s Hs. by apply closed_bridgeState. }
  apply hoare_gets_bind_drop; intros b.
  destruct (RestApi.bridge b);
    [apply frame_renderBridgePage | apply hoare_settle].
Qed.

Lemma frame_show_if_display message :
  hoare I (RestApi.show_if_display message) I.
Proof.
  unfold RestApi.show_if_display.
  apply hoare_gets_bind_drop; intros [m|];
    [apply frame_display_show | apply hoare_ret].
Qed.

Lemma frame_display_renderList d urls index message :
  hoare I (RestApi.display_renderList d urls index message) I.
Proof.
  destruct d; [|apply hoare_ret]. unfold RestApi.display_renderList.
  eapply (hoare_modify_bind _ I).
  { intros s Hs. by apply closed_selection. }
  eapply (hoare_modify_bind _ I).
  { intros s Hs. apply closed_bridgeState; [|done].
    intros b. destruct message as [m|]; [by destruct (truthy m) | done]. }
  apply hoare_gets_bind_drop; intros b.
  destruct (RestApi.bridge b);
    [apply frame_renderBridgePage | apply hoare_settle].
Qed.

Lemma frame_updateBridgeList :
  hoare I RestApi.updateBridgeListFromBrowserSelect I.
Proof.
  unfold RestApi.updateBridgeListFromBrowserSelect.
  apply hoare_gets_bind_drop; intros [[]|]; [|apply hoare_ret..].
  apply hoare_gets_bind_drop; intros [u|]; [|apply hoare_ret].
  eapply (hoare_modify_bind _ I).
  { intros s Hs. by apply closed_selection. }
  apply hoare_void, frame_display_renderList.
Qed.

Lemma frame_select_onchange : hoare I RestApi.select_onchange I.
Proof.
  unfold RestApi.select_onchange.
  apply hoare_gets_bind_drop; intros [u|]; [|apply hoare_ret].
  eapply (hoare_modify_bind _ I).
  { intros s Hs. by apply closed_selection. }
  apply frame_updateBridgeList.
Qed.

Lemma frame_choose i : hoare I (RestApi.choose i) I.
Proof.
  unfold RestApi.choose.
  eapply (hoare_modify_bind _ I); [|apply frame_select_onchange].
  intros s Hs. apply closed_select; [|done].
  apply keeps_clean_set_selectedIndex.
Qed.

Lemma frame_add_url text : hoare I (RestApi.add_url text) I.
Proof.
  unfold RestApi.add_url.
  eapply (hoare_modify_bind _ I); [intros s Hs; by apply closed_addInput|].
  unfold RestApi.addButton_onclick.
  apply hoare_gets_bind_drop; intros [u|]; [|apply hoare_ret].
  destruct (negb _).
  { apply hoare_modify. intros s Hs. by apply closed_status. }
  eapply (hoare_modify_bind _ I).
  { intros s Hs. apply closed_select; [|done].
    apply ensureOption_keeps_clean. }
  eapply (hoare_modify_bind _ I).
  { intros s Hs. apply closed_select; [|done].
    apply keeps_clean_set_value. }
  eapply (hoare_modify_bind _ I); [intros s Hs; by apply closed_addInput|].
  eapply (hoare_modify_bind _ I); [intros s Hs; by apply closed_status|].
  apply frame_updateBridgeList.
Qed.

Lemma frame_remove : hoare I RestApi.removeButton_onclick I.
Proof.
  unfold RestApi.removeButton_onclick.
  apply hoare_gets_bind_drop; intros [u|]; [|apply hoare_ret].
  destruct (negb _).
  { apply hoare_modify. intros s Hs. by apply closed_status. }
  eapply (hoare_modify_bind _ I).
  { intros s Hs. apply closed_select; [|done]. apply keeps_clean_remove. }
  eapply (hoare_modify_bind _ I).
  { intros s Hs. apply closed_select; [|done].
    apply (keeps_clean_if (fun s => 0 <? len (Dom.options s))).
    apply keeps_clean_set_selectedIndex. }
  eapply (hoare_modify_bind _ I); [intros s Hs; by apply closed_status|].
  apply frame_updateBridgeList.
Qed.

Lemma frame_syncBrowserSelection index w :
  I w -> I (RestApi.syncBrowserSelection index w).
Proof.
  intros Hw. unfold RestApi.syncBrowserSelection.
  destruct (RestApi.ui w); [|done]. destruct (_ =? _); [done|].
  apply closed_selection, closed_select; [|done].
  apply keeps_clean_set_selectedIndex.
Qed.

(** While a request is in flight the store satisfies [J]. *)
Variable J : RestApi.World -> Prop.
Hypothesis HJ : Props.frame_closed J.
Hypothesis Hstart : forall w, I w -> J (RestApi.set_isFetching true w).
Hypothesis Hstop : forall w, J w -> I (RestApi.set_isFetching false w).

Lemma frame_runRequestByIndex fetchAsText index :
  (forall message, hoare J (RestApi.show_if_display message) J) ->
  hoare I (RestApi.runRequestByIndex fetchAsText index) I.
Proof.
  intros HshowJ. unfold RestApi.runRequestByIndex.
  apply hoare_gets_bind_drop; intros [u|]; [|apply hoare_ret].
  destruct (_ =? _).
  { apply hoare_modify. intros s Hs. by apply closed_status. }
  eapply (hoare_modify_bind _ I).
  { intros s Hs. apply closed_select; [|done].
    apply keeps_clean_set_selectedIndex. }
  eapply (hoare_modify_bind _ I); [intros s Hs; by apply closed_selection|].
  apply hoare_gets_bind_drop; intros [|].
  { apply hoare_modify. intros s Hs. by apply closed_status. }
  eapply (hoare_modify_bind _ I); [intros s Hs; by apply closed_status|].
  eapply hoare_bind; [apply frame_show_if_display | done | intros _].
  eapply (hoare_modify_bind _ J); [done|].
  eapply (hoare_finally _ J); [|done].
  destruct HJ as (HJs & _ & _ & HJr & _).
  eapply (hoare_catch _ J); [|done|intros e].
  - apply hoare_settle_bind; [done | intros r].
    eapply (hoare_modify_bind _ J); [intros s Hs; by apply HJr|].
    eapply (hoare_modify_bind _ J); [intros s Hs; by apply HJs|].
    apply HshowJ.
  - eapply (hoare_modify_bind _ J); [intros s Hs; by apply HJr|].
    eapply (hoare_modify_bind _ J); [intros s Hs; by apply HJs|].
    apply HshowJ.
Qed.
End rest_frame.

Section rest_invariants.
Import Js Sdk.

Lemma frame_runRequest (I J : RestApi.World -> Prop) fetchAsText index :
  Props.frame_closed I -> Props.frame_closed J ->
  (forall w, I w -> J (RestApi.set_isFetching true w)) ->
  (forall w, J w -> I (RestApi.set_isFetching false w)) ->
  hoare I (RestApi.runRequestByIndex fetchAsText index) I.
Proof.
  intros HI HJ Hstart Hstop.
  apply (frame_runRequestByIndex I HI J HJ Hstart Hstop).
  intros message. by apply frame_show_if_display.
Qed.

Lemma frame_run_selected (I J : RestApi.World -> Prop) fetchAsText :
  Props.frame_closed I -> Props.frame_closed J ->
  (forall w, I w -> J (RestApi.set_isFetching true w)) ->
  (forall w, J w -> I (RestApi.set_isFetching false w)) ->
  hoare I (RestApi.run_selected fetchAsText) I.
Proof.
  intros HI HJ Hstart Hstop. unfold RestApi.run_selected.
  apply hoare_gets_bind_drop; intros b.
  destruct (RestApi.onSelectAndRun b);
    [by apply (frame_runRequest I J) | apply hoare_ret].
Qed.

Lemma frame_onEvenHubEvent (I J : RestApi.World -> Prop) fetchAsText h
    event :
  Props.frame_closed I -> Props.frame_closed J ->
  (forall w, I w -> J (RestApi.set_isFetching true w)) ->
  (forall w, J w -> I (RestApi.set_isFetching false w)) ->
  hoare I (RestApi.onEvenHubEvent fetchAsText h event) I.
Proof.
  intros HI HJ Hstart Hstop. unfold RestApi.onEvenHubEvent.
  apply hoare_gets_bind_drop; intros urls.
  destruct (len urls =? 0); [apply hoare_ret|].
  apply hoare_gets_bind_drop; intros current.
  assert (forall step : number -> number,
    hoare I
      (modify (RestApi.on_bridgeState (RestApi.set_selectedIndex
         (RestApi.clampIndex
            (if RestApi.hasIncomingIndex urls event
             then RestApi.incomingIndex urls event
             else step current) (len urls)))) ;;;
       let! sel := gets (fun w => RestApi.selectedIndex (RestApi.bridgeState w)) in
       modify (RestApi.syncBrowserSelection sel) ;;;
       let! b := gets RestApi.bridgeState in
       RestApi.renderBridgePage h urls (RestApi.selectedIndex b)
         (RestApi.statusMessage b) ;;;
       let! sel := gets (fun w => RestApi.selectedIndex (RestApi.bridgeState w)) in
       if nneq sel current then RestApi.run_selected fetchAsText else ret tt)
      I) as Hscroll.
  { intros step.
    eapply (hoare_modify_bind _ I); [intros s Hs; by apply closed_selection|].
    apply hoare_gets_bind_drop; intros sel.
    eapply (hoare_modify_bind _ I).
    { intros s Hs. by apply frame_syncBrowserSelection. }
    apply hoare_gets_bind_drop; intros b.
    eapply hoare_bind; [by apply frame_renderBridgePage | done | intros _].
    apply hoare_gets_bind_drop; intros sel'.
    destruct (nneq sel' current);
      [by apply (frame_run_selected I J) | apply hoare_ret]. }
  destruct (bool_decide (_ = Some SCROLL_BOTTOM_EVENT));
    [apply (Hscroll (fun i => nadd i (Int 1)))|].
  destruct (bool_decide (_ = Some SCROLL_TOP_EVENT));
    [apply (Hscroll (fun i => nsub i (Int 1)))|].
  destruct (_ || _); [|apply hoare_ret].
  eapply (hoare_modify_bind _ I); [intros s Hs; by apply closed_selection|].
  eapply (hoare_modify_bind _ I).
  { intros s Hs. by apply frame_syncBrowserSelection. }
  by apply (frame_run_selected I J).
Qed.

Lemma frame_action (I J : RestApi.World -> Prop) fetchAsText :
  Props.frame_closed I -> Props.frame_closed J ->
  (forall w, I w -> J (RestApi.set_isFetching true w)) ->
  (forall w, J w -> I (RestApi.set_isFetching false w)) ->
  hoare I (RestApi.action fetchAsText) I.
Proof.
  intros HI HJ Hstart Hstop. unfold RestApi.action.
  apply hoare_gets_bind_drop; intros [u|].
  - by apply (frame_runRequest I J).
  - apply hoare_modify. intros s Hs. by apply closed_status.
Qed.

Lemma initBridgeDisplay_cases (promise : Acquisition nat) budget o w tr :
  (exists h,
     RestApi.initBridgeDisplay promise budget o w tr =
       (RestApi.set_bridgeDisplay (Some RestApi.Bridge)
          (RestApi.registerBridgeEvents
             (RestApi.on_bridgeState (RestApi.set_bridge (Some h)) w)),
        tr, Returned RestApi.Bridge)) \/
  RestApi.initBridgeDisplay promise budget o w tr =
    (RestApi.set_bridgeDisplay (Some RestApi.Mock)
       (RestApi.on_bridgeState
          (fun b => RestApi.set_statusMessage "Select URL and click"
                      (RestApi.set_startupRendered false
                         (RestApi.set_bridge None b))) w),
     tr, Returned RestApi.Mock).
Proof.
  unfold RestApi.initBridgeDisplay, catch, bind, settle.
  destruct (withTimeout promise (default 4000 budget)) as [h|e].
  - left. exists h. by destruct w as [[? ? [] ? ? ?] [[]|] ? ? ? ?].
  - right. by destruct w as [[] ? ? ? ? ?].
Qed.

Lemma frame_connect (I : RestApi.World -> Prop) promise :
  Props.frame_closed I ->
  (forall w, I w -> I (RestApi.set_uiInitialized true (RestApi.ensureUi w))) ->
  (forall h w, I w ->
     I (RestApi.set_bridgeDisplay (Some RestApi.Bridge)
          (RestApi.set_bridgeDisplay (Some RestApi.Bridge)
             (RestApi.registerBridgeEvents
                (RestApi.on_bridgeState (RestApi.set_bridge (Some h)) w))))) ->
  (forall w, I w ->
     I (RestApi.set_bridgeDisplay (Some RestApi.Mock)
          (RestApi.set_bridgeDisplay (Some RestApi.Mock)
             (RestApi.on_bridgeState
                (fun b => RestApi.set_statusMessage "Select URL and click"
                            (RestApi.set_startupRendered false
                               (RestApi.set_bridge None b))) w)))) ->
  hoare I (RestApi.connect promise) I.
Proof.
  intros HI Hui Hbridge Hmock o w tr Hw. unfold RestApi.connect.
  rewrite !bind_modify_eq.
  specialize (Hui w Hw).
  set (w0 := RestApi.set_uiInitialized true (RestApi.ensureUi w)) in *.
  clearbody w0.
  assert (forall d, hoare I
    (modify (RestApi.display_onSelectAndRun d) ;;;
     let! shown := gets RestApi.ui in
     match shown with
     | None => ret tt
     | Some u =>
         let urls := RestApi.getAllUrls (RestApi.select u) in
         modify (RestApi.on_bridgeState (RestApi.set_selectedIndex
           (RestApi.clampIndex (Int (Dom.selectedIndex (RestApi.select u)))
              (len urls)))) ;;;
         let! b := gets RestApi.bridgeState in
         match d with
         | RestApi.Bridge =>
             RestApi.display_renderList d urls (RestApi.selectedIndex b)
               (Some "Select URL and click") ;;;
             modify (RestApi.setStatus
               "REST API ready. Use glasses Up/Down and Click to run URL.")
         | RestApi.Mock =>
             modify (RestApi.setStatus
               "REST API controls ready. Bridge not found, browser mode active.")
         end
     end) I) as Hrest.
  { intros d.
    eapply (hoare_modify_bind _ I).
    { intros s Hs. unfold RestApi.display_onSelectAndRun.
      destruct d; [|done]. by apply closed_bridgeState. }
    apply hoare_gets_bind_drop; intros [u|]; [|apply hoare_ret].
    eapply (hoare_modify_bind _ I); [intros s Hs; by apply closed_selection|].
    apply hoare_gets_bind_drop; intros b.
    destruct d.
    - eapply hoare_bind;
        [by apply frame_display_renderList | done | intros _].
      apply hoare_modify. intros s Hs. by apply closed_status.
    - apply hoare_modify. intros s Hs. by apply closed_status. }
  destruct (initBridgeDisplay_cases promise None o w0 tr) as [[h Heq]|Heq];
    rewrite (bind_returned_eq _ _ _ _ _ _ _ _ Heq), bind_modify_eq;
    apply Hrest; auto.
Qed.

Lemma frame_rest_perform (I J : RestApi.World -> Prop) fetchAsText g :
  Props.frame_closed I -> Props.frame_closed J ->
  (forall w, I w -> J (RestApi.set_isFetching true w)) ->
  (forall w, J w -> I (RestApi.set_isFetching false w)) ->
  (forall w, I w -> I (RestApi.set_uiInitialized true (RestApi.ensureUi w))) ->
  (forall h w, I w ->
     I (RestApi.set_bridgeDisplay (Some RestApi.Bridge)
          (RestApi.set_bridgeDisplay (Some RestApi.Bridge)
             (RestApi.registerBridgeEvents
                (RestApi.on_bridgeState (RestApi.set_bridge (Some h)) w))))) ->
  (forall w, I w ->
     I (RestApi.set_bridgeDisplay (Some RestApi.Mock)
          (RestApi.set_bridgeDisplay (Some RestApi.Mock)
             (RestApi.on_bridgeState
                (fun b => RestApi.set_statusMessage "Select URL and click"
                            (RestApi.set_startupRendered false
                               (RestApi.set_bridge None b))) w)))) ->
  hoare I (Props.rest_perform fetchAsText g) I.
Proof.
  intros HI HJ Hstart Hstop Hui Hbridge Hmock.
  destruct g as [i|text| |h event|promise|]; simpl.
  - by apply frame_choose.
  - by apply frame_add_url.
  - by apply frame_remove.
  - by apply (frame_onEvenHubEvent I J).
  - by apply frame_connect.
  - by apply (frame_action I J).
Qed.

Lemma panel_clean_closed : Props.frame_closed Props.panel_clean.
Proof.
  unfold Props.frame_closed, Props.panel_clean. split_and!.
  - intros v w Hw u Hu. by apply Hw.
  - intros f w _ Hw u Hu. by apply Hw.
  - intros g w Hg Hw u Hu. simpl in Hu.
    destruct (RestApi.ui w) as [u0|]; [|done].
    injection Hu as <-. simpl. apply Hg. by apply Hw.
  - intros v w Hw u Hu. simpl in Hu.
    destruct (RestApi.ui w) as [u0|]; [|done].
    injection Hu as <-. simpl. by apply Hw.
  - intros v w Hw u Hu. simpl in Hu.
    destruct (RestApi.ui w) as [u0|]; [|done].
    injection Hu as <-. simpl. by apply Hw.
Qed.

(** X11. The options of the REST-API panel stay clean: from the panel
    that [connect] builds, and through every gesture (choosing, adding,
    removing, a bridge event, connect, the main action) and every reply,
    no label is listed twice, and every label is trimmed and not empty. *)
Theorem rest_options_stay_clean
    (fetchAsText : string -> completion (string * string))
    (g : Props.RestGesture) (o : RestApi.Request -> reply)
    (w : RestApi.World) :
  Props.panel_clean RestApi.initial_world /\
  (Props.panel_clean w ->
   Props.panel_clean (final (run (Props.rest_perform fetchAsText g) o w))).
Proof.
  split; [done|]. intros Hw.
  apply (frame_rest_perform Props.panel_clean Props.panel_clean
           fetchAsText g); try done; try apply panel_clean_closed.
  - intros w' Hw' u Hu.
    change (RestApi.ui (RestApi.ensureUi w') = Some u) in Hu.
    unfold RestApi.ensureUi in Hu.
    destruct (RestApi.ui w') as [u0|] eqn:Hu0.
    + apply Hw'. congruence.
    + cbn [RestApi.ui RestApi.set_ui] in Hu. injection Hu as <-.
      cbn [RestApi.select]. unfold RestApi.DEFAULT_URLS. cbn [foldl].
      apply ensureOption_keeps_clean, ensureOption_keeps_clean, clean_nil.
  - intros h w' Hw' u Hu. apply Hw'. revert Hu.
    unfold RestApi.registerBridgeEvents. simpl.
    by destruct (RestApi.eventLoopRegistered _).
Qed.

Lemma rest_options_stay_clean_witness :
  Props.panel_clean
    (final (run (Props.rest_perform Scenario.offline
                   (Props.Add " http://host/rest/path "))
              Scenario.accepting Scenario.rest_connected)).
Proof.
  apply (rest_options_stay_clean Scenario.offline
           (Props.Add " http://host/rest/path ") Scenario.accepting
           Scenario.rest_connected).
  apply (rest_options_stay_clean Scenario.offline
           (Props.ConnectRest (Resolves 10 7%nat)) Scenario.accepting
           RestApi.initial_world).
  intros u Hu. vm_compute in Hu. discriminate Hu.
Defined.
End rest_invariants.

Section rest_flags.
Import Js Sdk.

Lemma frame_closed_ui_free (I : RestApi.World -> Prop) :
  (forall v w, I w -> I (RestApi.setStatus v w)) ->
  (forall f w, (forall b, RestApi.bridge (f b) = RestApi.bridge b) ->
               I w -> I (RestApi.on_bridgeState f w)) ->
  (forall v w, I w -> I (RestApi.set_ui v w)) ->
  Props.frame_closed I.
Proof.
  intros Hs Hb Hu. unfold Props.frame_closed. split_and!.
  - done.
  - done.
  - intros g w _. apply Hu.
  - intros v w. apply Hu.
  - intros v w. apply Hu.
Qed.

Lemma not_fetching_closed :
  Props.frame_closed (fun w => RestApi.isFetching w = false).
Proof. by apply frame_closed_ui_free. Qed.

Lemma true_closed : Props.frame_closed (fun _ => True).
Proof. by apply frame_closed_ui_free. Qed.

(** X12. The REST-API instance never stays busy: whatever the gesture,
    the result of the request and the replies of the glasses (also when
    the handler rejects), a store that is not fetching before is not
    fetching afterwards. *)
Theorem rest_fetch_flag_released
    (fetchAsText : string -> completion (string * string))
    (g : Props.RestGesture) (o : RestApi.Request -> reply)
    (w : RestApi.World) :
  RestApi.isFetching w = false ->
  RestApi.isFetching
    (final (run (Props.rest_perform fetchAsText g) o w)) = false.
Proof.
  intros Hw.
  apply (frame_rest_perform (fun w => RestApi.isFetching w = false)
           (fun _ => True) fetchAsText g);
    try done; try apply not_fetching_closed; try apply true_closed.
  - intros w' Hw'. unfold RestApi.ensureUi.
    by destruct (RestApi.ui w').
  - intros h w' Hw'. unfold RestApi.registerBridgeEvents. simpl.
    by destruct (RestApi.eventLoopRegistered _).
Qed.

Lemma rest_fetch_flag_released_witness :
  RestApi.isFetching
    (final (run (Props.rest_perform Scenario.offline Props.ActionRest)
              Scenario.accepting Scenario.rest_connected)) = false.
Proof.
  apply (rest_fetch_flag_released Scenario.offline Props.ActionRest
           Scenario.accepting Scenario.rest_connected).
  reflexivity.
Defined.

Lemma handle_present_closed : Props.frame_closed Props.handle_present.
Proof.
  apply frame_closed_ui_free; try done.
  intros f w Hf Hw Hd. simpl. rewrite Hf. by apply Hw.
Qed.

Lemma show_if_display_rejected message o w tr e :
  Props.handle_present w ->
  outcome (RestApi.show_if_display message o w tr) = Raised e ->
  exists request, o request = Rejected e.
Proof.
  intros Hw. unfold RestApi.show_if_display. rewrite bind_gets_eq.
  destruct (RestApi.bridgeDisplay w) as [[]|] eqn:Hd; [|done..].
  unfold RestApi.display_show.
  rewrite bind_gets_eq, bind_modify_eq, bind_gets_eq.
  destruct (Hw Hd) as [h Hh].
  cbn [RestApi.bridgeState RestApi.on_bridgeState RestApi.bridge
       RestApi.set_statusMessage].
  rewrite Hh, renderBridgePage_spec.
  match goal with
  | |- context [o ?request] =>
      destruct (o request) eqn:Ho; [done|]; intros [= <-]; eauto
  end.
Qed.

(** X13. In Bridge mode the REST-API instance always holds a bridge
    handle: the condition holds at the start and through every gesture and
    every reply. A status message shown on the glasses therefore fails
    only with the error of a request that the glasses rejected, never for
    want of a handle. *)
Theorem rest_bridge_mode_has_handle
    (fetchAsText : string -> completion (string * string))
    (g : Props.RestGesture) (o o' : RestApi.Request -> reply)
    (w : RestApi.World) (message e : string)
    (tr : list RestApi.Request) :
  Props.handle_present RestApi.initial_world /\
  (Props.handle_present w ->
   let w' := final (run (Props.rest_perform fetchAsText g) o w) in
   Props.handle_present w' /\
   (outcome (RestApi.show_if_display message o' w' tr) = Raised e ->
    exists request, o' request = Rejected e)).
Proof.
  split; [done|]. intros Hw w'.
  assert (Props.handle_present w') as Hw'; [|split; [done|]].
  - apply (frame_rest_perform Props.handle_present Props.handle_present
             fetchAsText g);
      try done; try apply handle_present_closed.
    + intros w0 Hw0. unfold RestApi.ensureUi.
      by destruct (RestApi.ui w0).
    + intros h w0 Hw0 _. unfold RestApi.registerBridgeEvents. simpl.
      by destruct (RestApi.eventLoopRegistered _).
  - by apply show_if_display_rejected.
Qed.

Lemma rest_bridge_mode_has_handle_witness :
  Props.handle_present
    (final (run (Props.rest_perform Scenario.offline
                   (Props.ConnectRest (Resolves 10 7%nat)))
              Scenario.accepting RestApi.initial_world)).
Proof.
  apply (rest_bridge_mode_has_handle Scenario.offline
           (Props.ConnectRest (Resolves 10 7%nat)) Scenario.accepting
           Scenario.accepting RestApi.initial_world "" "" []).
  intros Hd. vm_compute in Hd. discriminate Hd.
Defined.
End rest_flags.

(** ** Requests and events of the REST-API instance *)

Section rest_requests.
Import Js Sdk.

Lemma len_nonempty {A} (l : list A) : l <> [] -> (len l =? 0) = false.
Proof. intros H. apply Z.eqb_neq. destruct l; [done|]. unfold len. simpl. lia. Qed.

(** X14. A request that arrives while another one is in flight is
    dropped: the network is not asked, nothing is sent to the glasses, the
    response area and the busy flag are left as they are, and the status
    reports the request in progress. The selection is moved to the
    requested row all the same. *)
Theorem rest_busy_request_dropped
    (fetchAsText : string -> completion (string * string))
    (index : number) (o : RestApi.Request -> reply) (w : RestApi.World)
    (u : RestApi.RestUiState) :
  RestApi.ui w = Some u ->
  Dom.options (RestApi.select u) <> [] ->
  RestApi.isFetching w = true ->
  let clamped :=
    RestApi.clampIndex index (len (Dom.options (RestApi.select u))) in
  run (RestApi.runRequestByIndex fetchAsText index) o w =
    (RestApi.setStatus "Request already in progress"
       (RestApi.on_bridgeState (RestApi.set_selectedIndex clamped)
          (RestApi.on_select (Dom.set_selectedIndex clamped) w)),
     [], Returned tt).
Proof.
  intros Hu Hne Hbusy clamped.
  unfold run, RestApi.runRequestByIndex. rewrite bind_gets_eq, Hu.
  cbv beta iota zeta. unfold RestApi.getAllUrls. rewrite (len_nonempty _ Hne).
  rewrite !bind_modify_eq, bind_gets_eq.
  cbn [RestApi.isFetching RestApi.on_bridgeState RestApi.on_select
       RestApi.set_ui].
  by rewrite Hbusy.
Qed.

Lemma rest_busy_request_dropped_witness :
  let w := RestApi.set_isFetching true Scenario.rest_connected in
  let r := run (RestApi.runRequestByIndex Scenario.offline (Int 1))
             Scenario.accepting w in
  requests r = [] /\ RestApi.isFetching (final r) = true /\
  RestApi.selectedIndex (RestApi.bridgeState (final r)) = Int 1.
Proof.
  intros w r.
  assert (exists u, RestApi.ui w = Some u /\
                    Dom.options (RestApi.select u) = RestApi.DEFAULT_URLS)
    as (u & Hu & Hopts) by (eexists; split; reflexivity).
  unfold r.
  rewrite (rest_busy_request_dropped Scenario.offline (Int 1)
             Scenario.accepting w u Hu);
    [|rewrite Hopts; discriminate | reflexivity].
  rewrite Hopts. repeat split.
Defined.

Lemma bind_settle_eq {Req St A B} (c : completion A)
    (k : A -> Eff Req St B) o s tr :
  bind (settle c) k o s tr =
    match c with
    | Returned a => k a o s tr
    | Raised e => (s, tr, Raised e)
    end.
Proof. by destruct c. Qed.

Lemma show_if_display_off message o w tr :
  RestApi.bridgeDisplay w <> Some RestApi.Bridge ->
  RestApi.show_if_display message o w tr = (w, tr, Returned tt).
Proof.
  intros Hd. unfold RestApi.show_if_display. rewrite bind_gets_eq.
  by destruct (RestApi.bridgeDisplay w) as [[]|].
Qed.

(** X15. A request of the REST-API instance outside Bridge mode, with a
    list that is not empty and no request in flight: nothing is sent to the
    glasses and the handler does not reject. The URL of the clamped row is
    fetched; the response area then holds the body and the status the
    status line, or, when the network fails, the failure message and the
    status "GET failed". The busy flag is released. *)
Theorem rest_browser_only_request
    (fetchAsText : string -> completion (string * string))
    (index : number) (o : RestApi.Request -> reply) (w : RestApi.World)
    (u : RestApi.RestUiState) :
  RestApi.ui w = Some u ->
  Dom.options (RestApi.select u) <> [] ->
  RestApi.isFetching w = false ->
  RestApi.bridgeDisplay w <> Some RestApi.Bridge ->
  let opts := Dom.options (RestApi.select u) in
  let url := default "undefined"
               (at_index opts (RestApi.clampIndex index (len opts))) in
  let r := run (RestApi.runRequestByIndex fetchAsText index) o w in
  requests r = [] /\ outcome r = Returned tt /\
  RestApi.isFetching (final r) = false /\
  RestApi.response <$> RestApi.ui (final r)
  = Some (match fetchAsText url with
          | Returned (_, body) => body
          | Raised message =>
              "Request failed:" +:+ RestApi.newline +:+ message
          end) /\
  RestApi.status (final r)
  = match fetchAsText url with
    | Returned (statusLine, _) => "GET complete: " +:+ statusLine
    | Raised _ => "GET failed"
    end.
Proof.
  intros Hu Hne Hidle Hd opts url r. subst r.
  unfold run, RestApi.runRequestByIndex. rewrite bind_gets_eq, Hu.
  cbv beta iota zeta. unfold RestApi.getAllUrls.
  rewrite (len_nonempty _ Hne). fold opts.
  rewrite !bind_modify_eq, bind_gets_eq.
  cbn [RestApi.isFetching RestApi.on_bridgeState RestApi.on_select
       RestApi.set_ui].
  rewrite Hidle, bind_modify_eq. fold url.
  erewrite bind_returned_eq; [|apply show_if_display_off; exact Hd].
  rewrite bind_modify_eq. unfold finally, catch.
  rewrite bind_settle_eq.
  destruct (fetchAsText url) as [[statusLine body]|message];
    cbv beta iota zeta; rewrite !bind_modify_eq;
    (rewrite show_if_display_off by exact Hd);
    unfold requests, outcome, final; simpl; by rewrite Hu.
Qed.

Lemma rest_browser_only_request_witness :
  let r := run (RestApi.runRequestByIndex Scenario.offline (Int 5))
             Scenario.accepting Scenario.rest_mock in
  requests r = [] /\ RestApi.status (final r) = "GET failed".
Proof.
  intros r.
  assert (exists u, RestApi.ui Scenario.rest_mock = Some u /\
                    Dom.options (RestApi.select u) = RestApi.DEFAULT_URLS)
    as (u & Hu & Hopts) by (eexists; split; reflexivity).
  destruct (rest_browser_only_request Scenario.offline (Int 5)
              Scenario.accepting Scenario.rest_mock u Hu)
    as (H1 & _ & _ & _ & H2).
  - rewrite Hopts. discriminate.
  - reflexivity.
  - vm_compute. discriminate.
  - split; [exact H1 | exact H2].
Defined.

(** X16. The handler of bridge events of the REST-API instance ignores a
    DoubleClick, and an event of unknown type that carries no list payload:
    the store is left as it is and nothing is sent or fetched. *)
Theorem rest_ignores_other_events
    (fetchAsText : string -> completion (string * string)) (h : nat)
    (event : EvenHubEvent) (o : RestApi.Request -> reply)
    (w : RestApi.World) :
  let ty := RestApi.normalizeEventType (RestApi.getRawEventType event) in
  ty = Some DOUBLE_CLICK_EVENT \/ (ty = None /\ listEvent event = None) ->
  run (RestApi.onEvenHubEvent fetchAsText h event) o w = (w, [], Returned tt).
Proof.
  intros ty Hty. unfold run, RestApi.onEvenHubEvent.
  rewrite bind_gets_eq. destruct (_ =? 0); [done|].
  rewrite bind_gets_eq.
  set (current := RestApi.selectedIndex (RestApi.bridgeState w)).
  assert (RestApi.eventTypeOf (RestApi.getActiveUrls w) current event = ty
          /\ (ty = None -> RestApi.hasListEvent event = false))
    as [Hty' Hlist].
  { unfold RestApi.eventTypeOf. fold ty.
    destruct Hty as [Hty | [Hty Hl]]; rewrite Hty; [done|].
    unfold RestApi.hasListEvent. rewrite Hl.
    assert (bool_decide (is_Some (@None ListEvent)) = false) as ->
      by (apply bool_decide_eq_false_2; by intros [? ?]).
    by rewrite andb_false_r. }
  rewrite Hty'. clear Hty'.
  destruct Hty as [Hty | [Hty Hl]]; rewrite Hty.
  - by rewrite !bool_decide_eq_false_2 by done.
  - rewrite !(bool_decide_eq_false_2 (None = Some _)) by done.
    by rewrite (Hlist Hty), andb_false_r.
Qed.

Lemma rest_ignores_other_events_witness :
  run (RestApi.onEvenHubEvent Scenario.offline 7
         (Scenario.sys_event (VNumber (Int 3))))
    Scenario.accepting Scenario.rest_connected
  = (Scenario.rest_connected, [], Returned tt).
Proof.
  apply (rest_ignores_other_events Scenario.offline 7
           (Scenario.sys_event (VNumber (Int 3)))).
  left. reflexivity.
Defined.

Lemma incomingIndex_without_list urls event :
  listEvent event = None -> RestApi.incomingIndex urls event = Int (-1).
Proof.
  intros Hl. unfold RestApi.incomingIndex, RestApi.parsedIncomingIndex,
    RestApi.hasListEvent.
  by rewrite Hl.
Qed.

Lemma rest_reconcile_incoming opts event c :
  RestApi.hasIncomingIndex opts event = true ->
  RestApi.normalizeEventType (RestApi.getRawEventType event)
    <> Some DOUBLE_CLICK_EVENT ->
  Spec.rest_reconcile opts event c = RestApi.incomingIndex opts event.
Proof.
  intros Hhas Hty. unfold Spec.rest_reconcile, RestApi.eventTypeOf.
  rewrite Hhas.
  destruct (RestApi.normalizeEventType (RestApi.getRawEventType event))
    as [[]|]; try done.
  rewrite bool_decide_eq_true_2 by done.
  destruct (listEvent event) as [le|] eqn:Hl.
  - unfold RestApi.hasListEvent. rewrite Hl.
    rewrite bool_decide_eq_true_2 by eauto. simpl.
    by repeat case_match.
  - unfold RestApi.hasIncomingIndex in Hhas.
    by rewrite incomingIndex_without_list in Hhas.
Qed.

(** X17. A bridge event of the REST-API instance that resolves a row of
    the list, and is no DoubleClick, selects that row, whatever its type
    (Click, ScrollUp, ScrollDown or unknown). A list payload whose own index
    resolves no row (absent, not a number, or negative) counts as row 0, so
    that such an event selects the first row. *)
Theorem rest_event_with_index_selects_it
    (opts : list string) (d : option RestApi.SurfaceMode) (c : Z)
    (fetchAsText : string -> completion (string * string)) (h : nat)
    (event : EvenHubEvent) (o : RestApi.Request -> reply)
    (w : RestApi.World) :
  0 <= c < len opts ->
  Spec.rest_store (Spec.has_options opts) d (Int c) w ->
  RestApi.normalizeEventType (RestApi.getRawEventType event)
    <> Some DOUBLE_CLICK_EVENT ->
  let after :=
    RestApi.selectedIndex
      (RestApi.bridgeState
         (final (run (RestApi.onEvenHubEvent fetchAsText h event) o w))) in
  (RestApi.hasIncomingIndex opts event = true ->
   after = RestApi.incomingIndex opts event) /\
  (is_Some (listEvent event) ->
   nge (RestApi.parsedIncomingIndex opts event) (Int 0) = false ->
   after = Int 0).
Proof.
  intros Hc Hw Hty after.
  destruct (rest_event_selection opts d c fetchAsText h event o w Hc Hw)
    as (_ & _ & Hafter).
  fold after in Hafter. split.
  - intros Hhas. rewrite Hafter. by apply rest_reconcile_incoming.
  - intros Hl Hneg.
    assert (RestApi.incomingIndex opts event = Int 0) as Hzero.
    { unfold RestApi.incomingIndex, RestApi.hasListEvent.
      rewrite bool_decide_eq_true_2 by done.
      by destruct (RestApi.parsedIncomingIndex opts event) as [z|];
        [simpl in *; rewrite Z.ltb_antisym, Hneg|]. }
    rewrite Hafter, rest_reconcile_incoming, Hzero; [done| |done].
    unfold RestApi.hasIncomingIndex. rewrite Hzero. simpl.
    apply Z.ltb_lt. lia.
Qed.

Lemma rest_event_with_index_selects_it_witness :
  let w := final (run (RestApi.choose 1) Scenario.accepting
                    Scenario.rest_connected) in
  RestApi.selectedIndex
    (RestApi.bridgeState
       (final (run (RestApi.onEvenHubEvent Scenario.offline 7
                      (Scenario.list_event (VNumber (Int 0)) VUndefined
                         VUndefined))
                 Scenario.accepting w))) = Int 0.
Proof.
  intros w.
  apply (rest_event_with_index_selects_it RestApi.DEFAULT_URLS
           (Some RestApi.Bridge) 1 Scenario.offline 7
           (Scenario.list_event (VNumber (Int 0)) VUndefined VUndefined)
           Scenario.accepting w).
  - change (0 <= 1 < 2). lia.
  - repeat split. eexists. split; reflexivity.
  - discriminate.
  - eexists. reflexivity.
  - reflexivity.
Defined.
End rest_requests.

(** ** The add and the remove button *)

Section rest_buttons.
Import Js Sdk.

Lemma at_index_Some {A} (l : list A) i x :
  at_index l (Int i) = Some x -> 0 <= i < len l.
Proof.
  unfold at_index. destruct (0 <=? i) eqn:Hi; [|done].
  apply Z.leb_le in Hi. intros Hx.
  assert (Z.to_nat i < length l)%nat
    by (apply lookup_lt_is_Some; eauto).
  unfold len. lia.
Qed.

Lemma selected_in_options e :
  truthy (RestApi.selectedUrl e) = true ->
  0 <= Dom.selectedIndex e < len (Dom.options e).
Proof.
  unfold RestApi.selectedUrl, Dom.value.
  destruct (at_index _ _) as [x|] eqn:Hx; [|done].
  intros _. by apply at_index_Some in Hx.
Qed.

Lemma in_options_true i opts :
  0 <= i < len opts -> Dom.in_options i opts = true.
Proof.
  intros Hi. unfold Dom.in_options.
  by rewrite (proj2 (Z.leb_le _ _)), (proj2 (Z.ltb_lt _ _)) by lia.
Qed.

Lemma len_delete {A} (l : list A) i :
  0 <= i < len l -> len (delete (Z.to_nat i) l) = len l - 1.
Proof.
  intros Hi. unfold len in *. rewrite length_delete; [lia|].
  apply lookup_lt_is_Some. lia.
Qed.

Lemma select_after_remove_spec e :
  let i := Dom.selectedIndex e in
  0 <= i < len (Dom.options e) ->
  Spec.select_after_remove e =
    {| Dom.options := delete (Z.to_nat i) (Dom.options e);
       Dom.selectedIndex :=
         if len (Dom.options e) =? 1 then -1 else Z.max 0 (i - 1) |}.
Proof.
  intros i Hi. unfold Spec.select_after_remove, Dom.remove. fold i.
  rewrite in_options_true by done.
  rewrite Z.ltb_irrefl, Z.eqb_refl.
  unfold Dom.reselect at 1 2. cbn [Dom.selectedIndex Dom.options].
  change (Dom.in_options (-1) _) with false. cbv iota.
  cbn [Dom.options].
  pose proof (len_delete (Dom.options e) i Hi) as Hlen.
  destruct (decide (len (Dom.options e) = 1)) as [H1|H1].
  - rewrite Hlen, H1. simpl. unfold Dom.reselect. simpl.
    by rewrite Hlen, H1.
  - rewrite (proj2 (Z.eqb_neq _ _) H1).
    rewrite (proj2 (Z.ltb_lt 0 _)) by lia.
    unfold Dom.set_selectedIndex. cbn [Dom.options].
    rewrite in_options_true by lia. done.
Qed.

(** X18. The remove button of the REST-API panel deletes exactly the
    selected row and keeps the other rows in their order; the [select]
    element then shows the row before it (the first row when the first one
    was removed, no row when the list is empty). With no row selected the
    button changes nothing in the list. *)
Theorem rest_remove_takes_selected_row
    (o : RestApi.Request -> reply) (w : RestApi.World)
    (u : RestApi.RestUiState) :
  RestApi.ui w = Some u ->
  let e := RestApi.select u in
  let i := Dom.selectedIndex e in
  let w' := final (run RestApi.removeButton_onclick o w) in
  (truthy (RestApi.selectedUrl e) = true ->
   0 <= i < len (Dom.options e) /\
   RestApi.select <$> RestApi.ui w' =
     Some {| Dom.options := delete (Z.to_nat i) (Dom.options e);
             Dom.selectedIndex :=
               if len (Dom.options e) =? 1 then -1 else Z.max 0 (i - 1) |}) /\
  (truthy (RestApi.selectedUrl e) = false ->
   RestApi.select <$> RestApi.ui w' = Some e).
Proof.
  intros Hu e i w'.
  pose proof (hoare_remove _ _ _ _ o w [] (store_of_world w u Hu)) as Hfin.
  fold e in Hfin. change (final _) with w' in Hfin.
  split; intros Hsel; rewrite Hsel in Hfin.
  - pose proof (selected_in_options e Hsel) as Hi. split; [done|].
    destruct Hfin as ((u' & -> & Hsel' & _) & _). simpl.
    by rewrite Hsel', select_after_remove_spec.
  - destruct Hfin as ((u' & -> & Hsel' & _) & _). simpl. by rewrite Hsel'.
Qed.

Lemma rest_remove_takes_selected_row_witness :
  RestApi.select <$>
    RestApi.ui (final (run RestApi.removeButton_onclick Scenario.accepting
                         Scenario.rest_connected))
  = Some {| Dom.options := ["http://livingkitchen.local/rest/rgb/toggle"];
            Dom.selectedIndex := 0 |}.
Proof.
  assert (exists u, RestApi.ui Scenario.rest_connected = Some u /\
                    RestApi.select u =
                      {| Dom.options := RestApi.DEFAULT_URLS;
                         Dom.selectedIndex := 0 |})
    as (u & Hu & He) by (eexists; split; reflexivity).
  destruct (rest_remove_takes_selected_row Scenario.accepting
              Scenario.rest_connected u Hu) as [H _].
  rewrite He in H. destruct H as [_ H]; [reflexivity|]. exact H.
Defined.

Lemma indexOf_elem opts x :
  x ∈ opts ->
  exists i : nat, indexOf opts x = Z.of_nat i /\ opts !! i = Some x.
Proof.
  intros Hin. unfold indexOf, findIndex.
  destruct (list_find_elem_of (fun y => bool_decide (y = x) = true) opts x Hin)
    as [[i y] Hfind]; [by apply bool_decide_eq_true_2|].
  rewrite Hfind. apply list_find_Some in Hfind as (Hi & Hy & _).
  apply bool_decide_eq_true in Hy. subst y. eauto.
Qed.

Lemma value_set_value x s :
  x ∈ Dom.options s -> Dom.value (Dom.set_value x s) = x.
Proof.
  intros (i & Hi & Hx)%indexOf_elem.
  unfold Dom.value, Dom.set_value. cbn [Dom.options Dom.selectedIndex].
  rewrite Hi. unfold at_index.
  rewrite (proj2 (Z.leb_le 0 _)) by lia.
  by rewrite Nat2Z.id, Hx.
Qed.

(** X19. The add button of the REST-API panel: with a text that is blank
    once trimmed nothing is added and the status asks for a URL; otherwise
    the trimmed text is listed afterwards, appended when it was not yet
    listed and at its former place when it was, the [select] element shows
    it, and the input field is cleared. *)
Theorem rest_add_selects_label (text : string)
    (o : RestApi.Request -> reply) (w : RestApi.World)
    (u : RestApi.RestUiState) :
  RestApi.ui w = Some u ->
  let x := trim text in
  let opts := Dom.options (RestApi.select u) in
  let r := run (RestApi.add_url text) o w in
  (x = "" ->
   r = (RestApi.setStatus "Enter a URL before adding"
          (RestApi.set_addInput text w), [], Returned tt)) /\
  (x <> "" ->
   exists u', RestApi.ui (final r) = Some u' /\
     Dom.options (RestApi.select u')
     = (if bool_decide (x ∈ opts) then opts else opts ++ [x]) /\
     Dom.value (RestApi.select u') = x /\
     RestApi.addInput u' = "").
Proof.
  intros Hu x opts r. split.
  - intros Hx. subst r. unfold run, RestApi.add_url.
    rewrite bind_modify_eq. unfold RestApi.addButton_onclick.
    rewrite bind_gets_eq.
    cbn [RestApi.ui RestApi.set_addInput RestApi.set_ui]. rewrite Hu.
    cbn [fmap option_fmap option_map RestApi.addInput]. fold x.
    by rewrite Hx.
  - intros Hx. subst r. unfold run.
    pose proof (hoare_add_url _ text _ _ _ o w [] (store_of_world w u Hu))
      as Hfin. cbv zeta in Hfin. fold x in Hfin.
    rewrite (proj2 (truthy_true x) Hx) in Hfin.
    destruct Hfin as ((u' & Hu' & Hsel & Hin) & _).
    exists u'. split; [done|]. rewrite Hsel. split; [|split; [|done]].
    + unfold Spec.select_after_add. cbn [Dom.set_value Dom.options].
      rewrite ensureOption_options.
      assert (trim x = x) as -> by apply trim_idem. fold opts.
      rewrite (proj2 (truthy_true x) Hx). simpl.
      by destruct (decide (x ∈ opts));
        [rewrite !bool_decide_eq_true_2 | rewrite !bool_decide_eq_false_2].
    + unfold Spec.select_after_add. apply value_set_value.
      pose proof (ensureOption_listed x (RestApi.select u)) as Hlisted.
      assert (trim x = x) as Htrim by apply trim_idem.
      rewrite Htrim in Hlisted. by apply Hlisted.
Qed.

Lemma rest_add_selects_label_witness :
  exists u',
    RestApi.ui (final (run (RestApi.add_url " http://host/rest/path ")
                         Scenario.accepting Scenario.rest_connected))
    = Some u' /\
    Dom.value (RestApi.select u') = "http://host/rest/path".
Proof.
  assert (exists u, RestApi.ui Scenario.rest_connected = Some u)
    as [u Hu] by (eexists; reflexivity).
  destruct (rest_add_selects_label " http://host/rest/path "
              Scenario.accepting Scenario.rest_connected u Hu) as [_ H].
  destruct H as (u' & Hu' & _ & Hv & _); [by vm_compute|].
  exists u'. split; [exact Hu' | exact Hv].
Defined.
End rest_buttons.

(** ** The configuration of the development server *)

Section vite_entries.
Import Js.

Lemma split_nonempty sep s : ViteConfig.split sep s <> [].
Proof.
  destruct s as [|c s]; simpl; [done|].
  destruct (bool_decide (c = sep)); [done|].
  by destruct (ViteConfig.split sep s).
Qed.

Lemma split_cons sep c s :
  c <> sep ->
  exists x xs, ViteConfig.split sep s = x :: xs /\
               ViteConfig.split sep (String c s) = String c x :: xs.
Proof.
  intros Hc. simpl. rewrite bool_decide_eq_false_2 by done.
  destruct (ViteConfig.split sep s) as [|x xs] eqn:Hs.
  - by destruct (split_nonempty sep s).
  - eauto.
Qed.

Lemma split_lacks sep a :
  Props.lacks sep a = true -> ViteConfig.split sep a = [a].
Proof.
  induction a as [|c a IH]; [done|]. simpl.
  intros [Hc Ha]%andb_true_iff.
  apply negb_true_iff, bool_decide_eq_false in Hc.
  rewrite bool_decide_eq_false_2 by done. by rewrite IH.
Qed.

Lemma split_app sep a rest :
  Props.lacks sep a = true ->
  ViteConfig.split sep (a +:+ String sep rest)
  = a :: ViteConfig.split sep rest.
Proof.
  induction a as [|c a IH].
  - intros _. change ("" +:+ String sep rest) with (String sep rest).
    simpl. by rewrite bool_decide_eq_true_2.
  - simpl. intros [Hc Ha]%andb_true_iff.
    apply negb_true_iff, bool_decide_eq_false in Hc.
    change (String c a +:+ String sep rest)
      with (String c (a +:+ String sep rest)).
    simpl. rewrite bool_decide_eq_false_2 by done. by rewrite IH.
Qed.

Lemma split_head_prefix sep p s :
  Props.lacks sep p = true ->
  is_prefix p (default "" (ViteConfig.split sep s !! 0%nat)) = is_prefix p s.
Proof.
  revert p. induction s as [|c s IH]; intros p Hp; [done|].
  destruct (decide (c = sep)) as [->|Hc].
  - simpl. rewrite bool_decide_eq_true_2 by done. simpl.
    destruct p as [|a p]; [done|]. simpl in *.
    apply andb_true_iff in Hp as [Ha _].
    apply negb_true_iff in Ha. by rewrite Ha.
  - destruct (split_cons sep c s Hc) as (x & xs & Hs & ->). simpl.
    destruct p as [|a p]; [done|]. simpl in *.
    apply andb_true_iff in Hp as [_ Hp].
    specialize (IH p Hp). rewrite Hs in IH. simpl in IH. by rewrite IH.
Qed.

(** X20. Whether an entry of [apps.json] counts as a git URL depends only
    on how the entry itself starts: the fragment after [#] plays no part,
    and an entry is a git URL exactly when it starts with [https://] or
    with [git@]. *)
Theorem isGitUrl_ignores_fragment (value : string) :
  ViteConfig.isGitUrl value
  = startsWith value "https://" || startsWith value "git@".
Proof.
  unfold ViteConfig.isGitUrl, startsWith.
  by rewrite !split_head_prefix by reflexivity.
Qed.

Section node.
Variable resolve : list string -> string.
Variable existsSync : string -> bool.

(** X21. The checkout directory of a git entry [url#subpath]: without a
    fragment, or with an empty one, it is the cache directory of the
    application; with a fragment it is the sub-path below that directory;
    and what follows a second [#] is ignored. *)
Theorem resolveGitEntry_fragment (name url sub more : string) :
  Props.lacks "#" url = true -> Props.lacks "#" sub = true ->
  let base := resolve [ViteConfig.APPS_CACHE_DIR resolve; name] in
  ViteConfig.resolveGitEntry resolve name url = base /\
  ViteConfig.resolveGitEntry resolve name (url +:+ "#") = base /\
  ViteConfig.resolveGitEntry resolve name (url +:+ String "#" sub)
  = (if truthy sub then resolve [base; sub] else base) /\
  ViteConfig.resolveGitEntry resolve name
    (url +:+ String "#" (sub +:+ String "#" more))
  = ViteConfig.resolveGitEntry resolve name (url +:+ String "#" sub).
Proof.
  intros Hurl Hsub base. unfold ViteConfig.resolveGitEntry. fold base.
  rewrite split_lacks by done.
  change (url +:+ "#") with (url +:+ String "#" "").
  rewrite !split_app by done. rewrite !(split_lacks "#" sub) by done.
  simpl. by destruct (truthy sub).
Qed.

(** X22. The registry of external applications, entry by entry. The
    override of the environment (a name in [APP_NAME], else in
    [VITE_APP_NAME], and a path in [APP_PATH], both not empty) wins over
    the entry of [apps.json] of the same name; every other name resolves
    as [apps.json] says, a git URL to its checkout directory and any other
    value as a local path; with no [apps.json] and no override the
    registry is empty. *)
Theorem loadExternalApps_lookup (apps_json : option (gmap string string))
    (env : gmap string string) (name : string) :
  let appName :=
    default "" (ViteConfig.env_or (env !! "APP_NAME")
                  (env !! "VITE_APP_NAME")) in
  let appPath := default "" (env !! "APP_PATH") in
  let apps := ViteConfig.loadExternalApps resolve apps_json env in
  let listed :=
    (fun value => if ViteConfig.isGitUrl value
                  then ViteConfig.resolveGitEntry resolve name value
                  else resolve [value])
      <$> (apps_json ≫= (fun raw => raw !! name)) in
  (appName <> "" -> appPath <> "" ->
   apps !! appName = Some (resolve [appPath])) /\
  (appName = "" \/ appPath = "" \/ name <> appName ->
   apps !! name = listed) /\
  (apps_json = None -> appName = "" \/ appPath = "" -> apps = ∅).
Proof.
  intros appName appPath apps listed.
  unfold apps, ViteConfig.loadExternalApps. fold appName appPath.
  assert (forall raw : gmap string string,
    map_imap (fun name value =>
      Some (if ViteConfig.isGitUrl value
            then ViteConfig.resolveGitEntry resolve name value
            else resolve [value])) raw !! name
    = (fun value => if ViteConfig.isGitUrl value
                    then ViteConfig.resolveGitEntry resolve name value
                    else resolve [value]) <$> raw !! name) as Himap.
  { intros raw. rewrite map_lookup_imap. by destruct (raw !! name). }
  split; [|split].
  - intros Hn Hp.
    rewrite (proj2 (truthy_true _) Hn), (proj2 (truthy_true _) Hp). simpl.
    apply lookup_insert_eq.
  - intros H. unfold listed.
    assert (match apps_json with
            | Some raw =>
                map_imap (fun name value =>
                  Some (if ViteConfig.isGitUrl value
                        then ViteConfig.resolveGitEntry resolve name value
                        else resolve [value])) raw
            | None => ∅
            end !! name
            = (fun value => if ViteConfig.isGitUrl value
                            then ViteConfig.resolveGitEntry resolve name value
                            else resolve [value])
                <$> (apps_json ≫= (fun raw => raw !! name))) as Hlisted.
    { destruct apps_json as [raw|]; simpl; [apply Himap | done]. }
    destruct (truthy appName && truthy appPath) eqn:Ht; [|done].
    apply andb_true_iff in Ht as [Hn%truthy_true Hp%truthy_true].
    destruct H as [H | [H | H]]; [done..|].
    by rewrite lookup_insert_ne.
  - intros -> H.
    assert (truthy appName && truthy appPath = false) as ->; [|done].
    destruct H as [-> | ->]; [done | apply andb_false_r].
Qed.

(** X23. The two readers of the environment disagree on which variable
    names the application: the registry prefers [APP_NAME], the HTML
    plugin prefers [VITE_APP_NAME]. When both are set to different names,
    the override [APP_PATH] is registered under the first and looked up
    under the second, so that the plugin serves what [apps.json] alone
    gives for the second name. When only one of the two is set, and
    [APP_PATH] and the resolved paths are not empty, the plugin serves the
    [index.html] below the override. *)
Theorem env_override_and_html_plugin
    (apps_json : option (gmap string string)) (env : gmap string string)
    (a v : string) :
  let plugin env' :=
    ViteConfig.externalAppHtmlPlugin resolve existsSync
      (ViteConfig.loadExternalApps resolve apps_json env') env in
  (env !! "APP_NAME" = Some a -> env !! "VITE_APP_NAME" = Some v ->
   a <> v -> plugin env = plugin (delete "APP_PATH" env)) /\
  ((env !! "APP_NAME" = Some a /\ env !! "VITE_APP_NAME" = None) \/
   (env !! "APP_NAME" = None /\ env !! "VITE_APP_NAME" = Some a) ->
   a <> "" ->
   forall path, env !! "APP_PATH" = Some path -> path <> "" ->
   resolve [path] <> "" ->
   let absAppDir := resolve [resolve [path]] in
   let htmlPath := resolve [absAppDir; "index.html"] in
   plugin env = if existsSync htmlPath then Some (absAppDir, htmlPath)
                else None).
Proof.
  intros plugin. split.
  - intros Ha Hv Hne. unfold plugin, ViteConfig.externalAppHtmlPlugin.
    rewrite Ha, Hv. simpl.
    assert (ViteConfig.loadExternalApps resolve apps_json env !! v
            = ViteConfig.loadExternalApps resolve apps_json
                (delete "APP_PATH" env) !! v) as ->; [|done].
    unfold ViteConfig.loadExternalApps.
    rewrite lookup_delete_eq, !lookup_delete_ne, Ha by done. simpl.
    rewrite andb_false_r.
    destruct (truthy a && _); [|done]. by rewrite lookup_insert_ne.
  - intros Hnames Hne path Hpath Hp Hdir absAppDir htmlPath.
    unfold plugin, ViteConfig.externalAppHtmlPlugin.
    assert (default "" (ViteConfig.env_or (env !! "VITE_APP_NAME")
                          (env !! "APP_NAME")) = a /\
            default "" (ViteConfig.env_or (env !! "APP_NAME")
                          (env !! "VITE_APP_NAME")) = a) as [-> Hname].
    { by destruct Hnames as [[-> ->] | [-> ->]]. }
    unfold ViteConfig.loadExternalApps. rewrite Hname, Hpath. simpl.
    rewrite (proj2 (truthy_true _) Hne), (proj2 (truthy_true _) Hp). simpl.
    rewrite lookup_insert_eq.
    by rewrite (proj2 (truthy_true _) Hdir).
Qed.
End node.

Lemma resolveGitEntry_fragment_witness :
  let resolve := String.concat "/" in
  ViteConfig.resolveGitEntry resolve "demo"
    "https://host/repo.git#apps/demo#v2"
  = ".apps-cache/demo/apps/demo".
Proof.
  intros resolve.
  destruct (resolveGitEntry_fragment resolve "demo"
              "https://host/repo.git" "apps/demo" "v2" eq_refl eq_refl)
    as (_ & _ & H3 & H4).
  change ("https://host/repo.git#apps/demo#v2")
    with ("https://host/repo.git" +:+ String "#" ("apps/demo" +:+ String "#" "v2")).
  rewrite H4. exact H3.
Defined.

Lemma loadExternalApps_lookup_witness :
  let resolve := String.concat "/" in
  let env : gmap string string :=
    {[ "APP_NAME" := "demo"; "APP_PATH" := "../demo" ]} in
  ViteConfig.loadExternalApps resolve
    (Some {[ "demo" := "https://host/repo.git" ]}) env !! "demo"
  = Some "../demo".
Proof.
  intros resolve env.
  destruct (loadExternalApps_lookup resolve
              (Some {[ "demo" := "https://host/repo.git" ]}) env "demo")
    as (H & _ & _).
  apply H; by vm_compute.
Defined.

Lemma env_override_and_html_plugin_witness :
  let resolve := String.concat "/" in
  let env : gmap string string :=
    {[ "APP_NAME" := "one"; "VITE_APP_NAME" := "two";
       "APP_PATH" := "../one" ]} in
  ViteConfig.externalAppHtmlPlugin resolve (fun _ => true)
    (ViteConfig.loadExternalApps resolve None env) env = None.
Proof.
  intros resolve env.
  destruct (env_override_and_html_plugin resolve (fun _ => true) None env
              "one" "two") as [H _].
  rewrite H; [reflexivity | reflexivity | reflexivity | discriminate].
Defined.
End vite_entries.

(** ** The rewriting of the served page *)

Section vite_html.
Import Js.

Lemma includes_cons_false c s w :
  includes (String c s) w = false -> includes s w = false.
Proof. cbn [includes]. by intros [_ ?]%orb_false_iff. Qed.

Lemma rooted_attribute_tail c s :
  Props.rooted_attribute (String c s) = false ->
  Props.rooted_attribute s = false.
Proof.
  unfold Props.rooted_attribute.
  intros [H1%includes_cons_false H2%includes_cons_false]%orb_false_iff.
  by rewrite H1, H2.
Qed.

Lemma is_prefix_split w s :
  is_prefix w s = true ->
  s = w +:+ ViteConfig.slice_from (String.length w) s.
Proof.
  revert s. induction w as [|a w IH]; intros s H.
  - by destruct s.
  - destruct s as [|b s]; [done|]. simpl in H.
    apply andb_true_iff in H as [->%bool_decide_eq_true H].
    change (String b w +:+ ?r) with (String b (w +:+ r)).
    simpl. f_equal. by apply IH.
Qed.

Lemma quoted_root_Some rest q :
  ViteConfig.quoted_root rest = Some q ->
  exists tail,
    rest = String "=" (String q (String "/" tail)) /\
    (q = ViteConfig.dquote \/ q = "'"%char).
Proof.
  unfold ViteConfig.quoted_root.
  destruct rest as [|e [|q' [|sl tail]]]; try done.
  destruct (bool_decide (e = "="%char)) eqn:He; [|done].
  destruct (bool_decide (q' = ViteConfig.dquote) ||
            bool_decide (q' = "'"%char)) eqn:Hq; [|done].
  destruct (bool_decide (sl = "/"%char)) eqn:Hsl; [|done].
  simpl. destruct (negb _); [|done]. intros [= <-].
  apply bool_decide_eq_true in He, Hsl. subst. exists tail. split; [done|].
  apply orb_true_iff in Hq as [?%bool_decide_eq_true|?%bool_decide_eq_true];
    auto.
Qed.

Lemma match_here_rooted s r :
  ViteConfig.match_here s = Some r -> Props.rooted_attribute s = true.
Proof.
  assert (forall attr rest q,
            s = attr +:+ rest -> ViteConfig.quoted_root rest = Some q ->
            Props.rooted_attribute s = true) as Hroot.
  { intros attr rest q -> (tail & -> & Hq)%quoted_root_Some.
    unfold Props.rooted_attribute. apply orb_true_iff.
    destruct Hq as [-> | ->]; [left | right].
    - apply (includes_app attr (String "=" (String ViteConfig.dquote "/"))
               tail).
    - apply (includes_app attr "='/" tail). }
  unfold ViteConfig.match_here.
  destruct (is_prefix "src" s) eqn:Hsrc.
  - destruct (ViteConfig.quoted_root _) as [q|] eqn:Hq; [|done].
    intros _. apply is_prefix_split in Hsrc. by eapply Hroot.
  - destruct (is_prefix "href" s) eqn:Hhref; [|done].
    destruct (ViteConfig.quoted_root _) as [q|] eqn:Hq; [|done].
    intros _. apply is_prefix_split in Hhref. by eapply Hroot.
Qed.

(** X24. The rewriting of the served page leaves a page alone in which no
    equals sign is followed by a quotation mark and a slash: a page whose
    attributes hold only relative paths is served as it is, whatever the
    directory of the application. *)
Theorem rewriteHtml_untouched (absAppDir html : string) :
  Props.rooted_attribute html = false ->
  ViteConfig.rewriteHtml absAppDir html = html.
Proof.
  unfold ViteConfig.rewriteHtml.
  induction html as [|c rest IH]; [done|]. intros Hroot.
  cbn [ViteConfig.rewrite_from].
  destruct (ViteConfig.match_here (String c rest)) as [r|] eqn:Hm.
  - apply match_here_rooted in Hm. congruence.
  - f_equal. apply IH. by eapply rooted_attribute_tail.
Qed.

Lemma rewriteHtml_untouched_witness :
  ViteConfig.rewriteHtml "/home/me/demo"
    "<script type='module' src='./src/main.ts'></script>"
  = "<script type='module' src='./src/main.ts'></script>".
Proof. apply rewriteHtml_untouched. reflexivity. Defined.

Lemma rewrite_from_no_match absAppDir c rest :
  ViteConfig.match_here (String c rest) = None ->
  ViteConfig.rewrite_from absAppDir 0 (String c rest)
  = String c (ViteConfig.rewrite_from absAppDir 0 rest).
Proof. intros H. cbn [ViteConfig.rewrite_from]. by rewrite H. Qed.

Lemma rewrite_from_match absAppDir c rest attr q n :
  ViteConfig.match_here (String c rest) = Some (attr, q, n) ->
  ViteConfig.rewrite_from absAppDir 0 (String c rest)
  = attr +:+ "=" +:+ String q ("/@fs/" +:+ absAppDir +:+ "/") +:+
    ViteConfig.rewrite_from absAppDir (Nat.pred n) rest.
Proof. intros H. cbn [ViteConfig.rewrite_from]. by rewrite H. Qed.

Lemma match_here_other c rest :
  c <> "s"%char -> c <> "h"%char ->
  ViteConfig.match_here (String c rest) = None.
Proof.
  intros Hs Hh. unfold ViteConfig.match_here. cbn [is_prefix].
  by rewrite !bool_decide_eq_false_2 by done.
Qed.

Lemma match_here_attr attr q tail :
  attr = "src" \/ attr = "href" ->
  q = ViteConfig.dquote \/ q = "'"%char ->
  ViteConfig.match_here (attr +:+ String "=" (String q (String "/" tail)))
  = if is_prefix "/" tail || is_prefix "@" tail || is_prefix "http" tail
    then None
    else Some (attr, q, (String.length attr + 3)%nat).
Proof.
  intros [-> | ->] [-> | ->];
    destruct (is_prefix "/" tail || is_prefix "@" tail
              || is_prefix "http" tail) eqn:Hkept;
    try change ("src" +:+ ?r) with (String "s" (String "r" (String "c" r)));
    try change ("href" +:+ ?r)
      with (String "h" (String "r" (String "e" (String "f" r))));
    unfold ViteConfig.match_here; cbn [ViteConfig.slice_from];
    unfold ViteConfig.quoted_root; cbv beta iota; rewrite Hkept;
    reflexivity.
Qed.

(** X25. What the rewriting of the served page does to one attribute at
    the head of the text, for [src] and [href] and for both quotation
    marks: a path that starts with one slash is moved below [/@fs/] and the
    directory of the application, and the scan goes on after the slash; a
    path that starts with two slashes, with [/@] or with [/http] is left as
    it is. *)
Theorem rewriteHtml_attribute (absAppDir attr tail : string) (q : ascii) :
  attr = "src" \/ attr = "href" ->
  q = ViteConfig.dquote \/ q = "'"%char ->
  let kept :=
    is_prefix "/" tail || is_prefix "@" tail || is_prefix "http" tail in
  ViteConfig.rewriteHtml absAppDir
    (attr +:+ String "=" (String q (String "/" tail)))
  = if kept
    then attr +:+ String "=" (String q (String "/"
           (ViteConfig.rewriteHtml absAppDir tail)))
    else attr +:+ String "=" (String q ("/@fs/" +:+ absAppDir +:+ "/" +:+
           ViteConfig.rewriteHtml absAppDir tail)).
Proof.
  intros Hattr Hq kept. unfold ViteConfig.rewriteHtml.
  pose proof (match_here_attr attr q tail Hattr Hq) as Hm. fold kept in Hm.
  assert (forall c rest, c <> "s"%char -> c <> "h"%char ->
            ViteConfig.rewrite_from absAppDir 0 (String c rest)
            = String c (ViteConfig.rewrite_from absAppDir 0 rest)) as Hstep.
  { intros c rest Hs Hh. by apply rewrite_from_no_match, match_here_other. }
  assert (q <> "s"%char /\ q <> "h"%char) as [Hqs Hqh].
  { destruct Hq as [-> | ->]; split; intros H; vm_compute in H;
      discriminate H. }
  destruct kept.
  - destruct Hattr as [-> | ->].
    + change ("src" +:+ ?r) with (String "s" (String "r" (String "c" r)))
        in *.
      rewrite rewrite_from_no_match by done.
      by rewrite !Hstep by done.
    + change ("href" +:+ ?r)
        with (String "h" (String "r" (String "e" (String "f" r)))) in *.
      rewrite rewrite_from_no_match by done.
      by rewrite !Hstep by done.
  - destruct Hattr as [-> | ->].
    + change ("src" +:+ ?r) with (String "s" (String "r" (String "c" r)))
        in *.
      rewrite (rewrite_from_match _ _ _ _ _ _ Hm).
      change (String "s" (String "r" (String "c" ?r))) with ("src" +:+ r).
      do 2 f_equal.
      change (String q ("/@fs/" +:+ absAppDir +:+ "/") +:+ ?r)
        with (String q (("/@fs/" +:+ absAppDir +:+ "/") +:+ r)).
      f_equal. rewrite !string_app_assoc. reflexivity.
    + change ("href" +:+ ?r)
        with (String "h" (String "r" (String "e" (String "f" r)))) in *.
      rewrite (rewrite_from_match _ _ _ _ _ _ Hm).
      change (String "h" (String "r" (String "e" (String "f" ?r))))
        with ("href" +:+ r).
      do 2 f_equal.
      change (String q ("/@fs/" +:+ absAppDir +:+ "/") +:+ ?r)
        with (String q (("/@fs/" +:+ absAppDir +:+ "/") +:+ r)).
      f_equal. rewrite !string_app_assoc. reflexivity.
Qed.

Lemma rewriteHtml_attribute_witness :
  ViteConfig.rewriteHtml "/home/me/demo" "src='/main.ts'"
  = "src='/@fs//home/me/demo/main.ts'" /\
  ViteConfig.rewriteHtml "/home/me/demo" "href='//cdn/x.css'"
  = "href='//cdn/x.css'".
Proof.
  split.
  - exact (rewriteHtml_attribute "/home/me/demo" "src" "main.ts'" "'"%char
             (or_introl eq_refl) (or_intror eq_refl)).
  - exact (rewriteHtml_attribute "/home/me/demo" "href" "/cdn/x.css'"
             "'"%char (or_intror eq_refl) (or_intror eq_refl)).
Defined.
End vite_html.

(** ** What the glasses are sent *)

Section surfaces.
Import Js Sdk.

(** The requests of [syncToGlasses] carry the texts of the state. *)
Lemma syncToGlasses_requests id o w tr :
  let st := BaseApp.stateTextContent (BaseApp.state w) in
  let ct := BaseApp.counterTextContent (BaseApp.state w) in
  exists sent,
    requests (BaseApp.syncToGlasses id o w tr) = tr ++ sent /\
    sent <> [] /\
    Forall (fun request =>
              request ∈ [BaseApp.PageRender st ct; BaseApp.UpdateStateText st;
                         BaseApp.UpdateCounterText ct]) sent.
Proof.
  intros st ct.
  assert (forall sent,
            sent <> [] ->
            Forall (fun request =>
              request ∈ [BaseApp.PageRender st ct;
                         BaseApp.UpdateStateText st;
                         BaseApp.UpdateCounterText ct]) sent ->
            forall r, requests r = tr ++ sent ->
            exists sent,
              @requests BaseApp.Request BaseApp.World unit r = tr ++ sent /\
              sent <> [] /\
              Forall (fun request =>
                request ∈ [BaseApp.PageRender st ct;
                           BaseApp.UpdateStateText st;
                           BaseApp.UpdateCounterText ct]) sent) as Hgive.
  { intros sent Hne Hsub r Hr. by exists sent. }
  assert (forall o' w' tr',
            (BaseApp.clients w' !! id = Some false \/
             BaseApp.clients w' !! id = None) ->
            BaseApp.state w' = BaseApp.state w ->
            exists sent,
              requests (BaseApp.syncToGlasses id o' w' tr') = tr' ++ sent /\
              sent = [BaseApp.PageRender st ct]) as Hfirst.
  { intros o' w' tr' Hflag Hst.
    unfold BaseApp.syncToGlasses, bind, gets, call, modify. simpl.
    rewrite Hst. fold st ct.
    destruct Hflag as [-> | ->]; simpl;
      destruct (o' (BaseApp.PageRender st ct)); by eexists. }
  destruct (BaseApp.clients w !! id) as [[]|] eqn:Hflag.
  - rewrite syncToGlasses_next by done. fold st ct.
    destruct (o (BaseApp.UpdateStateText st)) as [[]|];
      [destruct (o (BaseApp.UpdateCounterText ct)) as [[]|]..|];
      try destruct (o (BaseApp.PageRender st ct));
      (eapply Hgive; [| |reflexivity]; [done|]);
      repeat (apply Forall_cons; split; [rewrite !elem_of_cons; auto|]);
      apply Forall_nil_2.
  - destruct (Hfirst o w tr) as (sent & Hr & ->); [by left | done|].
    exists [BaseApp.PageRender st ct]. split; [exact Hr|]. split; [done|].
    apply Forall_singleton. rewrite !elem_of_cons. auto.
  - destruct (Hfirst o w tr) as (sent & Hr & ->); [by right | done|].
    exists [BaseApp.PageRender st ct]. split; [exact Hr|]. split; [done|].
    apply Forall_singleton. rewrite !elem_of_cons. auto.
Qed.

(** X26. Every bridge event makes base_app write to the glasses, and
    what it writes is the new state: the listener sends at least one
    request, and each request it sends carries the state text or the
    counter text of the state that the event leaves, whatever the glasses
    reply. *)
Theorem base_glasses_receive_new_state (id : nat) (event : EvenHubEvent)
    (o : BaseApp.Request -> reply) (w : BaseApp.World) :
  let r := run (BaseApp.listener id event) o w in
  let st := BaseApp.stateTextContent (BaseApp.state (final r)) in
  let ct := BaseApp.counterTextContent (BaseApp.state (final r)) in
  requests r <> [] /\
  Forall (fun request =>
            request ∈ [BaseApp.PageRender st ct; BaseApp.UpdateStateText st;
                       BaseApp.UpdateCounterText ct]) (requests r).
Proof.
  intros r st ct. subst r st ct.
  unfold run, BaseApp.listener. rewrite !bind_modify_eq. unfold void.
  match goal with
  | |- context [BaseApp.syncToGlasses id o ?w' []] =>
      destruct (syncToGlasses_requests id o w' []) as (sent & Hr & Hne & Hall);
      pose proof (syncToGlasses_state id o w' []) as Hs;
      destruct (BaseApp.syncToGlasses id o w' []) as [[w2 tr2] c2]
  end.
  unfold requests, final in *. cbn [fst snd] in *. subst tr2.
  rewrite Hs. by split.
Qed.
End surfaces.

Section rest_surfaces.
Import Js Sdk.

Lemma set_selectedIndex_in_range i e :
  0 <= i < len (Dom.options e) ->
  Dom.set_selectedIndex (Int i) e
  = {| Dom.options := Dom.options e; Dom.selectedIndex := i |}.
Proof.
  intros Hi. unfold Dom.set_selectedIndex. by rewrite in_options_true.
Qed.

(** What [updateBridgeListFromBrowserSelect] sends in Bridge mode. *)
Lemma updateBridgeList_shown o w u h tr :
  RestApi.ui w = Some u ->
  RestApi.bridgeDisplay w = Some RestApi.Bridge ->
  RestApi.bridge (RestApi.bridgeState w) = Some h ->
  let e := RestApi.select u in
  let index :=
    RestApi.clampIndex (Int (Dom.selectedIndex e)) (len (Dom.options e)) in
  let config :=
    RestApi.pageConfig (Dom.options e) index
      (RestApi.statusMessage (RestApi.bridgeState w)) in
  let r := RestApi.updateBridgeListFromBrowserSelect o w tr in
  requests r =
    tr ++ [if RestApi.startupRendered (RestApi.bridgeState w)
           then RestApi.RebuildPageContainer h config
           else RestApi.CreateStartUpPageContainer h config] /\
  outcome r = Returned tt /\
  RestApi.selectedIndex (RestApi.bridgeState (final r)) = index /\
  RestApi.ui (final r) = Some u.
Proof.
  intros Hu Hd Hh e index config r. subst r.
  unfold RestApi.updateBridgeListFromBrowserSelect.
  rewrite bind_gets_eq, Hd. cbv beta iota.
  rewrite bind_gets_eq, Hu. cbv beta iota zeta.
  unfold RestApi.getAllUrls. fold e. fold index.
  rewrite bind_modify_eq. unfold void, RestApi.display_renderList.
  rewrite !bind_modify_eq, bind_gets_eq.
  cbn [RestApi.bridgeState RestApi.on_bridgeState RestApi.bridge
       RestApi.set_selectedIndex RestApi.selectedIndex
       RestApi.statusMessage].
  rewrite Hh, renderBridgePage_spec.
  cbn [RestApi.bridgeState RestApi.on_bridgeState RestApi.startupRendered
       RestApi.set_selectedIndex].
  assert (RestApi.clampIndex index (len (Dom.options e)) = index) as ->.
  { unfold index. destruct (Dom.selectedIndex e); apply clampIndex_idem. }
  fold config.
  match goal with
  | |- context [o ?request] => destruct (o request)
  end; unfold requests, outcome, final; simpl; by rewrite Hu.
Qed.

(** X27. In Bridge mode a row chosen in the browser is shown on the
    glasses: choosing a row of the list sends exactly one request, a page
    whose items are the labels of the options and whose selected item is
    the chosen row (the first page of the handle is created, a later one
    is rebuilt); the stored selection and the [select] element both hold
    the chosen row, and the handler does not reject, whatever the glasses
    reply. *)
Theorem rest_choice_is_shown (i : Z) (o : RestApi.Request -> reply)
    (w : RestApi.World) (u : RestApi.RestUiState) (h : nat) :
  RestApi.ui w = Some u ->
  RestApi.bridgeDisplay w = Some RestApi.Bridge ->
  RestApi.bridge (RestApi.bridgeState w) = Some h ->
  let opts := Dom.options (RestApi.select u) in
  0 <= i < len opts ->
  let r := run (RestApi.choose i) o w in
  let config :=
    RestApi.pageConfig opts (Int i)
      (RestApi.statusMessage (RestApi.bridgeState w)) in
  requests r =
    [if RestApi.startupRendered (RestApi.bridgeState w)
     then RestApi.RebuildPageContainer h config
     else RestApi.CreateStartUpPageContainer h config] /\
  RestApi.itemName config = RestApi.toListLabel <$> opts /\
  RestApi.currentSelectedItem config = Int i /\
  outcome r = Returned tt /\
  RestApi.selectedIndex (RestApi.bridgeState (final r)) = Int i /\
  RestApi.select <$> RestApi.ui (final r)
  = Some {| Dom.options := opts; Dom.selectedIndex := i |}.
Proof.
  intros Hu Hd Hh opts Hi r config.
  assert (RestApi.clampIndex (Int i) (len opts) = Int i) as Hclamp
    by by apply clampIndex_id.
  assert ((0 <? len opts) = true) as Hpos by (apply Z.ltb_lt; lia).
  assert (RestApi.itemName config = RestApi.toListLabel <$> opts /\
          RestApi.currentSelectedItem config = Int i) as [Hnames Hitem].
  { unfold config, RestApi.pageConfig.
    cbn [RestApi.itemName RestApi.currentSelectedItem].
    by rewrite Hpos, Hclamp. }
  set (e' := {| Dom.options := opts; Dom.selectedIndex := i |}).
  set (u' := {| RestApi.select := e'; RestApi.response := RestApi.response u;
                RestApi.addInput := RestApi.addInput u |}).
  subst r. unfold run, RestApi.choose. rewrite bind_modify_eq.
  unfold RestApi.select_onchange. rewrite bind_gets_eq.
  assert (RestApi.ui (RestApi.on_select (Dom.set_selectedIndex (Int i)) w)
          = Some u') as Hu'.
  { cbn [RestApi.ui RestApi.on_select RestApi.set_ui]. rewrite Hu.
    cbn [fmap option_fmap option_map].
    by rewrite set_selectedIndex_in_range. }
  rewrite Hu'. cbv beta iota zeta. rewrite bind_modify_eq.
  match goal with
  | |- context [RestApi.updateBridgeListFromBrowserSelect o ?w1 []] =>
      destruct (updateBridgeList_shown o w1 u' h []) as (Hr & Ho & Hs & Hui);
      [exact Hu' | exact Hd | exact Hh |];
      set (r1 := RestApi.updateBridgeListFromBrowserSelect o w1 []) in *;
      clearbody r1
  end.
  cbn [RestApi.select u' e' Dom.options Dom.selectedIndex
       RestApi.bridgeState RestApi.on_bridgeState RestApi.on_select
       RestApi.set_ui RestApi.set_selectedIndex RestApi.startupRendered
       RestApi.statusMessage app] in Hr, Hs.
  rewrite Hclamp in Hr, Hs. fold config in Hr.
  rewrite Hr, Ho, Hs, Hui. by repeat split.
Qed.

Lemma rest_choice_is_shown_witness :
  let r := run (RestApi.choose 1) Scenario.accepting
             Scenario.rest_connected in
  exists config,
    requests r = [RestApi.RebuildPageContainer 7 config] /\
    RestApi.currentSelectedItem config = Int 1.
Proof.
  intros r.
  assert (exists u, RestApi.ui Scenario.rest_connected = Some u /\
                    Dom.options (RestApi.select u) = RestApi.DEFAULT_URLS)
    as (u & Hu & Hopts) by (eexists; split; reflexivity).
  destruct (rest_choice_is_shown 1 Scenario.accepting
              Scenario.rest_connected u 7 Hu eq_refl eq_refl)
    as (Hr & _ & Hitem & _).
  - rewrite Hopts. change (0 <= 1 < 2). lia.
  - eexists. split; [exact Hr | exact Hitem].
Defined.
End rest_surfaces.

Section rest_event_surfaces.
Import Js Sdk.

(** The [select] element that lists [opts] and shows row [x]. *)
Lemma select_shows_keep opts x d w :
  0 <= x < len opts ->
  let e := {| Dom.options := opts; Dom.selectedIndex := x |} in
  Spec.rest_store (Spec.is_select e) d (Int x) w ->
  Spec.rest_store (Spec.is_select e) d (Int x)
    (RestApi.on_select (Dom.set_selectedIndex (Int x)) w).
Proof.
  intros Hx e Hw. eapply rest_store_on_ui; [|exact Hw].
  intros u Hu. unfold Spec.is_select in *. cbn [RestApi.select].
  rewrite Hu. by rewrite set_selectedIndex_in_range.
Qed.

Lemma select_shows_response opts x d v w :
  let e := {| Dom.options := opts; Dom.selectedIndex := x |} in
  Spec.rest_store (Spec.is_select e) d (Int x) w ->
  Spec.rest_store (Spec.is_select e) d (Int x) (RestApi.set_response v w).
Proof.
  intros e Hw. eapply rest_store_on_ui; [|exact Hw]. by intros u Hu.
Qed.

Lemma select_shows_sync opts x d w :
  0 <= x < len opts ->
  let e := {| Dom.options := opts; Dom.selectedIndex := x |} in
  Spec.rest_store (Spec.has_options opts) d (Int x) w ->
  Spec.rest_store (Spec.is_select e) d (Int x)
    (RestApi.syncBrowserSelection (Int x) w).
Proof.
  intros Hx e ((u & Hu & HΦ) & Hd & HX). unfold RestApi.syncBrowserSelection.
  rewrite Hu. unfold RestApi.getAllUrls, Spec.has_options in *.
  rewrite HΦ. rewrite (proj2 (Z.eqb_neq (len opts) 0)) by lia.
  rewrite clampIndex_id by done.
  repeat split; [|done..]. simpl. rewrite Hu. simpl.
  eexists. split; [done|]. unfold Spec.is_select. simpl.
  rewrite set_selectedIndex_in_range by (rewrite HΦ; lia). by rewrite HΦ.
Qed.

Lemma select_shows_options opts x d X w :
  Spec.rest_store
    (Spec.is_select {| Dom.options := opts; Dom.selectedIndex := x |}) d X w ->
  Spec.rest_store (Spec.has_options opts) d X w.
Proof.
  apply rest_store_mono. intros u Hu. unfold Spec.has_options.
  by rewrite Hu.
Qed.

Lemma hoare_runRequestByIndex_shown opts d x fetchAsText :
  0 <= x < len opts ->
  let e := {| Dom.options := opts; Dom.selectedIndex := x |} in
  hoare (Spec.rest_store (Spec.is_select e) d (Int x))
        (RestApi.runRequestByIndex fetchAsText (Int x))
        (Spec.rest_store (Spec.is_select e) d (Int x)).
Proof.
  intros Hx e. set (P := Spec.rest_store (Spec.is_select e) d (Int x)).
  unfold RestApi.runRequestByIndex.
  apply hoare_gets_bind; intros shown.
  apply (hoare_pure _ _ (exists u, shown = Some u /\ RestApi.select u = e)).
  { intros s [((u & Hu & HΦ) & _) Heq]. exists u. by rewrite <- Heq. }
  intros (u & -> & Hsel).
  apply (hoare_conseq _ P _ P); [by intros s [H _] | done |].
  unfold RestApi.getAllUrls. rewrite Hsel. cbn [Dom.options e].
  rewrite (proj2 (Z.eqb_neq (len opts) 0)) by lia.
  rewrite clampIndex_id by done.
  eapply (hoare_modify_bind _ P);
    [intros s Hs; by apply select_shows_keep|].
  eapply (hoare_modify_bind _ P);
    [intros s Hs; by eapply rest_store_select|].
  apply hoare_gets_bind_drop; intros [|].
  { apply hoare_modify. intros s Hs. by apply rest_store_setStatus. }
  eapply (hoare_modify_bind _ P);
    [intros s Hs; by apply rest_store_setStatus|].
  eapply hoare_bind; [apply hoare_show_if_display | done | intros _].
  eapply (hoare_modify_bind _ P);
    [intros s Hs; by apply rest_store_set_isFetching|].
  eapply (hoare_finally _ P); [|intros ? ?; by apply rest_store_set_isFetching].
  eapply (hoare_catch _ P); [|done|intros msg].
  - apply hoare_settle_bind; [done | intros r].
    eapply (hoare_modify_bind _ P);
      [intros s Hs; by apply select_shows_response|].
    eapply (hoare_modify_bind _ P);
      [intros s Hs; by apply rest_store_setStatus|].
    apply hoare_show_if_display.
  - eapply (hoare_modify_bind _ P);
      [intros s Hs; by apply select_shows_response|].
    eapply (hoare_modify_bind _ P);
      [intros s Hs; by apply rest_store_setStatus|].
    apply hoare_show_if_display.
Qed.

Lemma hoare_run_selected_shown opts d x fetchAsText :
  0 <= x < len opts ->
  let e := {| Dom.options := opts; Dom.selectedIndex := x |} in
  hoare (Spec.rest_store (Spec.is_select e) d (Int x))
        (RestApi.run_selected fetchAsText)
        (Spec.rest_store (Spec.is_select e) d (Int x)).
Proof.
  intros Hx e. set (P := Spec.rest_store (Spec.is_select e) d (Int x)).
  unfold RestApi.run_selected.
  apply hoare_gets_bind; intros b.
  apply (hoare_pure _ _ (RestApi.selectedIndex b = Int x)).
  { intros s [(_ & _ & HX) Heq]. by rewrite <- Heq. }
  intros ->.
  apply (hoare_conseq _ P _ P); [by intros s [H _] | done |].
  destruct (RestApi.onSelectAndRun b);
    [by apply hoare_runRequestByIndex_shown | apply hoare_ret].
Qed.

Lemma hoare_onEvenHubEvent_shown opts d c fetchAsText h event x :
  0 <= c < len opts ->
  Spec.rest_reconcile opts event c = Int x ->
  is_Some (RestApi.eventTypeOf opts (Int c) event) ->
  RestApi.eventTypeOf opts (Int c) event <> Some DOUBLE_CLICK_EVENT ->
  hoare (Spec.rest_store (Spec.has_options opts) d (Int c))
        (RestApi.onEvenHubEvent fetchAsText h event)
        (Spec.rest_store
           (Spec.is_select {| Dom.options := opts; Dom.selectedIndex := x |})
           d (Int x)).
Proof.
  intros Hc Hx Hacted Hnd.
  set (P := Spec.rest_store (Spec.has_options opts) d (Int c)).
  destruct (rest_reconcile_in_range opts event c Hc) as (x' & Hx' & Hxr).
  assert (x' = x) as -> by congruence. clear Hx'.
  set (e := {| Dom.options := opts; Dom.selectedIndex := x |}).
  set (Q0 := Spec.rest_store (Spec.has_options opts) d (Int x)).
  set (Q := Spec.rest_store (Spec.is_select e) d (Int x)).
  unfold RestApi.onEvenHubEvent.
  apply hoare_gets_bind; intros urls.
  apply (hoare_pure _ _ (urls = opts)).
  { intros s [((u & Hu & HΦ) & _) Heq]. subst urls.
    unfold RestApi.getActiveUrls. by rewrite Hu. }
  intros ->. apply (hoare_conseq _ P _ Q); [by intros s [H _] | done |].
  rewrite (proj2 (Z.eqb_neq (len opts) 0)) by lia.
  apply hoare_gets_bind; intros current.
  apply (hoare_pure _ _ (current = Int c)).
  { intros s [(_ & _ & HX) Heq]. by rewrite <- Heq. }
  intros ->. apply (hoare_conseq _ P _ Q); [by intros s [H _] | done |].
  assert (forall step : number -> number,
            RestApi.clampIndex
              (if RestApi.hasIncomingIndex opts event
               then RestApi.incomingIndex opts event else step (Int c))
              (len opts) = Int x ->
            hoare P
              (modify (RestApi.on_bridgeState (RestApi.set_selectedIndex
                 (RestApi.clampIndex
                    (if RestApi.hasIncomingIndex opts event
                     then RestApi.incomingIndex opts event else step (Int c))
                    (len opts)))) ;;;
               let! sel := gets (fun w =>
                 RestApi.selectedIndex (RestApi.bridgeState w)) in
               modify (RestApi.syncBrowserSelection sel) ;;;
               let! b := gets RestApi.bridgeState in
               RestApi.renderBridgePage h opts (RestApi.selectedIndex b)
                 (RestApi.statusMessage b) ;;;
               let! sel := gets (fun w =>
                 RestApi.selectedIndex (RestApi.bridgeState w)) in
               if nneq sel (Int c) then RestApi.run_selected fetchAsText
               else ret tt) Q) as Hscroll.
  { intros step ->.
    eapply (hoare_modify_bind _ Q0);
      [intros s Hs; by eapply rest_store_select|].
    apply hoare_gets_bind; intros sel.
    apply (hoare_pure _ _ (sel = Int x)).
    { intros s [(_ & _ & HX) Heq]. by rewrite <- Heq. }
    intros ->. apply (hoare_conseq _ Q0 _ Q); [by intros s [H _] | done |].
    eapply (hoare_modify_bind _ Q).
    { intros s Hs. by apply select_shows_sync. }
    apply hoare_gets_bind_drop; intros b.
    eapply hoare_bind; [apply hoare_renderBridgePage | done | intros _].
    apply hoare_gets_bind_drop; intros sel.
    destruct (nneq sel (Int c));
      [by apply hoare_run_selected_shown | apply hoare_ret]. }
  unfold Spec.rest_reconcile in Hx.
  destruct (RestApi.eventTypeOf opts (Int c) event) as [[]|] eqn:Hty;
    repeat first [ rewrite bool_decide_eq_true_2 by done
                 | rewrite bool_decide_eq_false_2 by done ];
    cbn [orb andb].
  - assert ((if RestApi.hasIncomingIndex opts event
             then RestApi.clampIndex (RestApi.incomingIndex opts event)
                    (len opts)
             else Int c) = Int x) as ->.
    { destruct (RestApi.hasIncomingIndex opts event) eqn:Hhas; [|done].
      destruct (rest_hasIncomingIndex_true _ _ Hhas) as (r & Hr & Hrr).
      rewrite Hr in *. by rewrite clampIndex_id. }
    eapply (hoare_modify_bind _ Q0);
      [intros s Hs; by eapply rest_store_select|].
    eapply (hoare_modify_bind _ Q).
    { intros s Hs. by apply select_shows_sync. }
    by apply hoare_run_selected_shown.
  - apply (Hscroll (fun i => nsub i (Int 1))).
    destruct (RestApi.hasIncomingIndex opts event) eqn:Hhas.
    + destruct (rest_hasIncomingIndex_true _ _ Hhas) as (r & Hr & Hrr).
      rewrite Hr in *. by rewrite clampIndex_id.
    + cbn [nsub]. rewrite clampIndex_int by lia. rewrite <- Hx. f_equal. lia.
  - apply (Hscroll (fun i => nadd i (Int 1))).
    destruct (RestApi.hasIncomingIndex opts event) eqn:Hhas.
    + destruct (rest_hasIncomingIndex_true _ _ Hhas) as (r & Hr & Hrr).
      rewrite Hr in *. by rewrite clampIndex_id.
    + cbn [nadd]. rewrite clampIndex_int by lia. rewrite <- Hx. f_equal. lia.
  - done.
  - by destruct Hacted.
Qed.

(** X28. After a bridge event that the REST-API instance acts on (a
    Click, a scroll, or a list payload of unknown type) the two surfaces
    agree: the [select] element of the browser shows the very row that the
    store holds for the glasses, and the options are as before, whatever
    the network and the glasses reply. *)
Theorem rest_event_surfaces_agree
    (opts : list string) (d : option RestApi.SurfaceMode) (c : Z)
    (fetchAsText : string -> completion (string * string)) (h : nat)
    (event : EvenHubEvent) (o : RestApi.Request -> reply)
    (w : RestApi.World) :
  0 <= c < len opts ->
  Spec.rest_store (Spec.has_options opts) d (Int c) w ->
  is_Some (RestApi.eventTypeOf opts (Int c) event) ->
  RestApi.eventTypeOf opts (Int c) event <> Some DOUBLE_CLICK_EVENT ->
  let w' := final (run (RestApi.onEvenHubEvent fetchAsText h event) o w) in
  exists x,
    0 <= x < len opts /\
    RestApi.selectedIndex (RestApi.bridgeState w') = Int x /\
    RestApi.select <$> RestApi.ui w'
    = Some {| Dom.options := opts; Dom.selectedIndex := x |}.
Proof.
  intros Hc Hw Hacted Hnd w'.
  destruct (rest_reconcile_in_range opts event c Hc) as (x & Hx & Hxr).
  exists x. split; [done|].
  destruct (hoare_onEvenHubEvent_shown opts d c fetchAsText h event x
              Hc Hx Hacted Hnd o w [] Hw) as ((u & Hu & Hsel) & _ & HX).
  subst w'. unfold run. split; [done|]. rewrite Hu. simpl. by rewrite Hsel.
Qed.

Lemma rest_event_surfaces_agree_witness :
  let w' := final (run (RestApi.onEvenHubEvent Scenario.offline 7
                          (Scenario.sys_event (VNumber (Int 2))))
                     Scenario.accepting Scenario.rest_connected) in
  exists x,
    RestApi.selectedIndex (RestApi.bridgeState w') = Int x /\
    RestApi.select <$> RestApi.ui w'
    = Some {| Dom.options := RestApi.DEFAULT_URLS; Dom.selectedIndex := x |}.
Proof.
  intros w'.
  destruct (rest_event_surfaces_agree RestApi.DEFAULT_URLS
              (Some RestApi.Bridge) 0 Scenario.offline 7
              (Scenario.sys_event (VNumber (Int 2))) Scenario.accepting
              Scenario.rest_connected) as (x & _ & Hs & Hsel).
  - change (0 <= 0 < 2). lia.
  - repeat split. eexists. split; reflexivity.
  - eexists. reflexivity.
  - discriminate.
  - exists x. split; [exact Hs | exact Hsel].
Defined.
End rest_event_surfaces.

Section rest_connect.
Import Js Sdk.

Lemma ensureUi_built w : is_Some (RestApi.ui (RestApi.ensureUi w)).
Proof.
  unfold RestApi.ensureUi. destruct (RestApi.ui w) eqn:Hu; [by rewrite Hu|].
  by eexists.
Qed.

(** What [renderList] of the Bridge display sends. *)
Lemma renderList_shown o w h tr urls index msg :
  RestApi.bridge (RestApi.bridgeState w) = Some h ->
  msg <> "" ->
  let config :=
    RestApi.pageConfig urls (RestApi.clampIndex index (len urls)) msg in
  let request :=
    if RestApi.startupRendered (RestApi.bridgeState w)
    then RestApi.RebuildPageContainer h config
    else RestApi.CreateStartUpPageContainer h config in
  let r := RestApi.display_renderList RestApi.Bridge urls index (Some msg)
             o w tr in
  requests r = tr ++ [request] /\
  outcome r = match o request with
              | Resolved _ => Returned tt
              | Rejected e => Raised e
              end /\
  RestApi.status (final r) = RestApi.status w /\
  RestApi.bridgeDisplay (final r) = RestApi.bridgeDisplay w.
Proof.
  intros Hh Hmsg config request r. subst r.
  unfold RestApi.display_renderList.
  rewrite !bind_modify_eq, bind_gets_eq.
  rewrite (proj2 (truthy_true msg) Hmsg).
  cbn [RestApi.bridgeState RestApi.on_bridgeState RestApi.bridge
       RestApi.set_selectedIndex RestApi.set_statusMessage
       RestApi.selectedIndex RestApi.statusMessage].
  rewrite Hh, renderBridgePage_spec.
  cbn [RestApi.bridgeState RestApi.on_bridgeState RestApi.startupRendered
       RestApi.set_selectedIndex RestApi.set_statusMessage].
  fold config. fold request. by destruct (o request).
Qed.

(** X29. [connect] of the REST-API instance when the bridge answers in
    time: exactly one request is sent, the list page with the labels of the
    options, the row of the [select] element and the text "Select URL and
    click". When the glasses accept it, connect returns with the status
    "ready"; when they reject it, connect itself rejects with the same
    error, since nothing catches it: the status is left as it was and the
    display stays in Bridge mode. *)
Theorem rest_connect_in_time (t : Z) (h : nat)
    (o : RestApi.Request -> reply) (w : RestApi.World) :
  t < 4000 ->
  let r := run (RestApi.connect (Resolves t h)) o w in
  exists u request config,
    RestApi.ui (RestApi.ensureUi w) = Some u /\
    config =
      RestApi.pageConfig (Dom.options (RestApi.select u))
        (RestApi.clampIndex (Int (Dom.selectedIndex (RestApi.select u)))
           (len (Dom.options (RestApi.select u))))
        "Select URL and click" /\
    (request = RestApi.CreateStartUpPageContainer h config \/
     request = RestApi.RebuildPageContainer h config) /\
    requests r = [request] /\
    RestApi.bridgeDisplay (final r) = Some RestApi.Bridge /\
    match o request with
    | Resolved _ =>
        outcome r = Returned tt /\
        RestApi.status (final r)
        = "REST API ready. Use glasses Up/Down and Click to run URL."
    | Rejected e =>
        outcome r = Raised e /\ RestApi.status (final r) = RestApi.status w
    end.
Proof.
  intros Ht r. subst r.
  destruct (ensureUi_built w) as [u Hu]. exists u.
  unfold run, RestApi.connect. rewrite !bind_modify_eq.
  rewrite (bind_returned_eq _ _ _ _ _ _ _ _
             (initBridgeDisplay_in_time t h o _ [] Ht)).
  rewrite !bind_modify_eq, bind_gets_eq.
  set (w1 := RestApi.display_onSelectAndRun _ _).
  assert (RestApi.ui w1 = Some u) as Hu1.
  { unfold w1, RestApi.registerBridgeEvents. simpl.
    by destruct (RestApi.eventLoopRegistered _). }
  assert (RestApi.bridge (RestApi.bridgeState w1) = Some h) as Hh1.
  { unfold w1, RestApi.registerBridgeEvents. simpl.
    by destruct (RestApi.eventLoopRegistered _). }
  assert (RestApi.status w1 = RestApi.status w) as Hst1.
  { unfold w1, RestApi.registerBridgeEvents, RestApi.ensureUi. simpl.
    destruct (RestApi.eventLoopRegistered _); by destruct (RestApi.ui w). }
  assert (RestApi.bridgeDisplay w1 = Some RestApi.Bridge) as Hd1 by done.
  clearbody w1. rewrite Hu1. cbv beta iota zeta.
  rewrite bind_modify_eq, bind_gets_eq.
  unfold RestApi.getAllUrls.
  cbn [RestApi.bridgeState RestApi.on_bridgeState RestApi.selectedIndex
       RestApi.set_selectedIndex].
  set (opts := Dom.options (RestApi.select u)).
  set (index := RestApi.clampIndex _ (len opts)).
  set (w2 := RestApi.on_bridgeState _ w1).
  destruct (renderList_shown o w2 h [] opts index "Select URL and click")
    as (Hr & Ho & Hst & Hd); [exact Hh1 | done |].
  assert (RestApi.clampIndex index (len opts) = index) as Hidem.
  { unfold index. apply clampIndex_idem. }
  rewrite Hidem in Hr, Ho.
  set (config := RestApi.pageConfig opts index "Select URL and click") in *.
  set (request := if RestApi.startupRendered (RestApi.bridgeState w2)
                  then RestApi.RebuildPageContainer h config
                  else RestApi.CreateStartUpPageContainer h config) in *.
  exists request, config. split; [done|]. split; [done|].
  split; [unfold request; destruct (RestApi.startupRendered _); auto|].
  unfold bind.
  destruct (RestApi.display_renderList RestApi.Bridge opts index
              (Some "Select URL and click") o w2 []) as [[w3 tr3] c3].
  unfold requests, outcome, final in *. cbn [fst snd] in *. subst tr3 c3.
  destruct (o request); unfold modify; cbn [fst snd];
    cbn [RestApi.bridgeDisplay RestApi.status RestApi.setStatus];
    rewrite Hd, ?Hst; repeat split; try done; congruence.
Qed.

Lemma rest_connect_in_time_witness :
  let r := run (RestApi.connect (Resolves 10 7%nat)) Scenario.accepting
             RestApi.initial_world in
  exists request,
    requests r = [request] /\
    RestApi.bridgeDisplay (final r) = Some RestApi.Bridge.
Proof.
  intros r.
  destruct (rest_connect_in_time 10 7 Scenario.accepting
              RestApi.initial_world)
    as (u & request & config & _ & _ & _ & Hr & Hd & _); [lia|].
  exists request. split; [exact Hr | exact Hd].
Defined.
End rest_connect.

(** * Connecting again *)

(** ** The render flag across connects *)

Section connect_flag.
Import Js Sdk.

(** A connect of base_app whose acquisition is in time, as one call of
    [syncToGlasses] on the client that [initTemplate] returns. *)
Lemma connect_in_time_run t o w :
  t < 4000 ->
  let w0 := BaseApp.setStatus "Base template: connecting to Even bridge..." w in
  let id := match BaseApp.templateClient w with
            | Some (BaseApp.BridgeClient i) => i
            | _ => length (BaseApp.clients w)
            end in
  let w1 := match BaseApp.templateClient w with
            | Some (BaseApp.BridgeClient _) => w0
            | _ => BaseApp.set_templateClient (Some (BaseApp.BridgeClient id))
                     (BaseApp.set_clients (BaseApp.clients w ++ [false]) w0)
            end in
  run (BaseApp.connect (Resolves t tt)) o w =
    match BaseApp.syncToGlasses id o
            (BaseApp.set_templateClient (Some (BaseApp.BridgeClient id)) w1)
            [] with
    | (w2, tr, Returned _) =>
        (BaseApp.setStatus
           "Base template: connected. Web panel + glasses view are synchronized."
           (BaseApp.renderBrowserPanel w2), tr, Returned tt)
    | (w2, tr, Raised _) =>
        (BaseApp.setStatus "Base template: connection failed" w2, tr,
         Returned tt)
    end.
Proof.
  intros Ht. unfold run, BaseApp.connect, bind, catch, modify. simpl.
  rewrite initTemplate_in_time by done. simpl.
  destruct (BaseApp.templateClient w) as [[|id]|]; simpl;
    by destruct (BaseApp.syncToGlasses _ _ _ _) as [[w2 tr] [[]|e]].
Qed.

(** What a connect in time leaves of the client's flag, when the flag of
    the client that [initTemplate] returns is not set. *)
Lemma connect_in_time_first t o w id :
  t < 4000 ->
  (BaseApp.templateClient w = None \/
   BaseApp.templateClient w = Some BaseApp.MockClient) /\
  id = length (BaseApp.clients w) \/
  BaseApp.templateClient w = Some (BaseApp.BridgeClient id) /\
  BaseApp.clients w !! id = Some false ->
  let full := BaseApp.PageRender (BaseApp.stateTextContent (BaseApp.state w))
                (BaseApp.counterTextContent (BaseApp.state w)) in
  let r := run (BaseApp.connect (Resolves t tt)) o w in
  requests r = [full] /\
  BaseApp.templateClient (final r) = Some (BaseApp.BridgeClient id) /\
  BaseApp.clients (final r) !! id = Some (Props.accepted (o full)) /\
  BaseApp.state (final r) = BaseApp.state w.
Proof.
  intros Ht Hw full r. subst r. rewrite connect_in_time_run by done.
  set (w1 := BaseApp.set_templateClient _ _).
  assert (BaseApp.templateClient w1 = Some (BaseApp.BridgeClient id) /\
          BaseApp.clients w1 !! id = Some false /\
          BaseApp.state w1 = BaseApp.state w /\
          match BaseApp.templateClient w with
          | Some (BaseApp.BridgeClient i) => i
          | _ => length (BaseApp.clients w)
          end = id) as (Hc & Hf & Hs & ->).
  { unfold w1.
    destruct Hw as [[[-> | ->] ->] | [-> Hf]]; simpl;
      repeat split; try done; by apply list_lookup_middle. }
  clearbody w1. rewrite syncToGlasses_first by done. rewrite Hs.
  fold full. unfold Props.accepted.
  destruct (o full) as [b|e]; unfold requests, final; simpl.
  - destruct (renderBrowserPanel_frame
                (BaseApp.set_clients (<[id:=true]> (BaseApp.clients w1)) w1))
      as (-> & -> & ->). simpl.
    repeat split; try done.
    apply list_lookup_insert_eq. by eapply lookup_lt_Some.
  - done.
Qed.

(** With the flag of the held client set, connect keeps the client. *)
Lemma connect_in_time_held t o w id :
  t < 4000 ->
  BaseApp.templateClient w = Some (BaseApp.BridgeClient id) ->
  BaseApp.templateClient (final (run (BaseApp.connect (Resolves t tt)) o w))
  = Some (BaseApp.BridgeClient id).
Proof.
  intros Ht Hw. rewrite connect_in_time_run by done. rewrite Hw.
  set (w1 := BaseApp.set_templateClient _ _).
  assert (BaseApp.templateClient w1 = Some (BaseApp.BridgeClient id)) as Hc
    by done.
  clearbody w1.
  destruct (syncToGlasses_frame id o w1 []) as (_ & Hk & _).
  destruct (BaseApp.syncToGlasses id o w1 []) as [[w2 tr] [[]|e]];
    unfold final in *; simpl in *;
    rewrite ?(proj2 (proj2 (renderBrowserPanel_frame _))); congruence.
Qed.

(** What [renderList] of the Bridge display leaves of the flag. *)
Lemma renderList_flag o w h tr urls index msg :
  RestApi.bridge (RestApi.bridgeState w) = Some h ->
  msg <> "" ->
  let config :=
    RestApi.pageConfig urls (RestApi.clampIndex index (len urls)) msg in
  let request :=
    if RestApi.startupRendered (RestApi.bridgeState w)
    then RestApi.RebuildPageContainer h config
    else RestApi.CreateStartUpPageContainer h config in
  let r := RestApi.display_renderList RestApi.Bridge urls index (Some msg)
             o w tr in
  RestApi.startupRendered (RestApi.bridgeState (final r))
  = Props.accepted (o request)
    || RestApi.startupRendered (RestApi.bridgeState w).
Proof.
  intros Hh Hmsg config request r. subst r.
  unfold RestApi.display_renderList.
  rewrite !bind_modify_eq, bind_gets_eq.
  rewrite (proj2 (truthy_true msg) Hmsg).
  cbn [RestApi.bridgeState RestApi.on_bridgeState RestApi.bridge
       RestApi.set_selectedIndex RestApi.set_statusMessage
       RestApi.selectedIndex RestApi.statusMessage].
  rewrite Hh, renderBridgePage_spec.
  cbn [RestApi.bridgeState RestApi.on_bridgeState RestApi.startupRendered
       RestApi.set_selectedIndex RestApi.set_statusMessage].
  fold config. fold request. unfold Props.accepted.
  by destruct (o request).
Qed.

(** The render that a connect of the REST-API instance issues when the
    bridge answers in time goes by the flag as connect found it. *)
Lemma rest_connect_render_flag t h o w :
  t < 4000 ->
  let r := run (RestApi.connect (Resolves t h)) o w in
  exists u,
    RestApi.ui (RestApi.ensureUi w) = Some u /\
    let config :=
      RestApi.pageConfig (Dom.options (RestApi.select u))
        (RestApi.clampIndex (Int (Dom.selectedIndex (RestApi.select u)))
           (len (Dom.options (RestApi.select u))))
        "Select URL and click" in
    let request :=
      if RestApi.startupRendered (RestApi.bridgeState w)
      then RestApi.RebuildPageContainer h config
      else RestApi.CreateStartUpPageContainer h config in
    requests r = [request] /\
    RestApi.startupRendered (RestApi.bridgeState (final r))
    = Props.accepted (o request)
      || RestApi.startupRendered (RestApi.bridgeState w).
Proof.
  intros Ht r. subst r.
  destruct (ensureUi_built w) as [u Hu]. exists u. split; [done|].
  unfold run, RestApi.connect. rewrite !bind_modify_eq.
  rewrite (bind_returned_eq _ _ _ _ _ _ _ _
             (initBridgeDisplay_in_time t h o _ [] Ht)).
  rewrite !bind_modify_eq, bind_gets_eq.
  set (w1 := RestApi.display_onSelectAndRun _ _).
  assert (RestApi.ui w1 = Some u) as Hu1.
  { unfold w1, RestApi.registerBridgeEvents. simpl.
    by destruct (RestApi.eventLoopRegistered _). }
  assert (RestApi.bridge (RestApi.bridgeState w1) = Some h) as Hh1.
  { unfold w1, RestApi.registerBridgeEvents. simpl.
    by destruct (RestApi.eventLoopRegistered _). }
  assert (RestApi.startupRendered (RestApi.bridgeState w1)
          = RestApi.startupRendered (RestApi.bridgeState w)) as Hf1.
  { unfold w1, RestApi.registerBridgeEvents, RestApi.ensureUi. simpl.
    destruct (RestApi.eventLoopRegistered _); by destruct (RestApi.ui w). }
  clearbody w1. rewrite Hu1. cbv beta iota zeta.
  rewrite bind_modify_eq, bind_gets_eq.
  unfold RestApi.getAllUrls.
  cbn [RestApi.bridgeState RestApi.on_bridgeState RestApi.selectedIndex
       RestApi.set_selectedIndex].
  set (opts := Dom.options (RestApi.select u)).
  set (index := RestApi.clampIndex _ (len opts)).
  set (w2 := RestApi.on_bridgeState _ w1).
  assert (RestApi.startupRendered (RestApi.bridgeState w2)
          = RestApi.startupRendered (RestApi.bridgeState w)) as Hf2
    by (by rewrite <- Hf1).
  destruct (renderList_shown o w2 h [] opts index "Select URL and click")
    as (Hr & Ho & _); [exact Hh1 | done |].
  pose proof (renderList_flag o w2 h [] opts index "Select URL and click"
                Hh1 ltac:(done)) as Hfl.
  assert (RestApi.clampIndex index (len opts) = index) as Hidem.
  { unfold index. apply clampIndex_idem. }
  cbv zeta in Hr, Ho, Hfl. rewrite Hidem, Hf2 in Hr, Ho, Hfl.
  cbv zeta.
  set (config := RestApi.pageConfig opts index "Select URL and click") in *.
  set (request := if RestApi.startupRendered (RestApi.bridgeState w)
                  then RestApi.RebuildPageContainer h config
                  else RestApi.CreateStartUpPageContainer h config) in *.
  unfold bind.
  destruct (RestApi.display_renderList RestApi.Bridge opts index
              (Some "Select URL and click") o w2 []) as [[w3 tr3] c3].
  unfold requests, outcome, final in *. cbn [fst snd] in *. subst tr3 c3.
  destruct (o request); unfold modify; cbn [fst snd]; by split.
Qed.

(** A connect of the REST-API instance whose acquisition fails. *)
Lemma rest_connect_unavailable_state (promise : Acquisition nat) o w :
  unavailable promise 4000 ->
  let r := run (RestApi.connect promise) o w in
  RestApi.startupRendered (RestApi.bridgeState (final r)) = false /\
  RestApi.bridge (RestApi.bridgeState (final r)) = None.
Proof.
  intros H. unfold run, RestApi.connect, bind, modify, gets. simpl.
  rewrite initBridgeDisplay_unavailable by done. simpl.
  destruct w as [? ? [u|] ? ? ?]; simpl; done.
Qed.

(** A render of the panel through a bridge client whose flag is set starts
    with the incremental update. *)
Lemma panel_sync_incremental o w id :
  BaseApp.templateClient w = Some (BaseApp.BridgeClient id) ->
  BaseApp.clients w !! id = Some true ->
  head (requests (run BaseApp.panel_sync o w))
  = Some (BaseApp.UpdateStateText (BaseApp.stateTextContent (BaseApp.state w))).
Proof.
  intros Hc Hf. unfold run, BaseApp.panel_sync. rewrite bind_gets_eq, Hc.
  cbn [BaseApp.client_syncToGlasses].
  rewrite syncToGlasses_next by done.
  set (st := BaseApp.stateTextContent _).
  set (ct := BaseApp.counterTextContent _).
  destruct (o (BaseApp.UpdateStateText st)) as [[]|];
    [destruct (o (BaseApp.UpdateCounterText ct)) as [[]|]..|];
    try done; by destruct (o (BaseApp.PageRender st ct)).
Qed.

(** C1, amended. A successful connect does not reset the flag: the render
    that connect issues goes by the flag as connect finds it.

    In base_app a successful connect made while no bridge client is held
    (none yet, or the Mock client that a failed connect left) creates a
    bridge client whose flag is not set: the render of connect is a full
    construction, which sets the flag when the display accepts it and
    leaves it unset when the display rejects it. A successful connect made
    while a bridge client is held keeps that client: with its flag set, the
    render of connect attempts the incremental update first and the flags
    stay as they were; with its flag not set (the display rejected the full
    construction of that client before), the render of connect is a full
    construction, which sets the flag when accepted. After a connect whose
    full construction was accepted, the next render of the panel attempts
    the incremental update first. A failed connect holds the Mock client
    and leaves the flags of the clients as they were.

    In the REST-API instance the acquisition step of a successful connect
    keeps the flag, and the single render that connect then issues is a
    rebuild when the flag is set and a startup construction when it is
    not; afterwards the flag is set when it was set before or the render
    was accepted. A failed acquisition, and so a failed connect, sets the
    flag to false. *)
Theorem connect_and_render_flag
    (t : Z) (h : nat) (late : Acquisition unit) (lateR : Acquisition nat)
    (o o' : BaseApp.Request -> reply) (w : BaseApp.World)
    (oR : RestApi.Request -> reply) (wR : RestApi.World) :
  t < 4000 -> unavailable late 4000 -> unavailable lateR 4000 ->
  let st := BaseApp.stateTextContent (BaseApp.state w) in
  let ct := BaseApp.counterTextContent (BaseApp.state w) in
  let full := BaseApp.PageRender st ct in
  let incremental := BaseApp.UpdateStateText st in
  let r := run (BaseApp.connect (Resolves t tt)) o w in
  let failed := run (BaseApp.connect late) o w in
  let rR := run (RestApi.connect (Resolves t h)) oR wR in
  let flag wR := RestApi.startupRendered (RestApi.bridgeState wR) in
  (BaseApp.templateClient w = None \/
   BaseApp.templateClient w = Some BaseApp.MockClient ->
     let id := length (BaseApp.clients w) in
     requests r = [full] /\
     BaseApp.templateClient (final r) = Some (BaseApp.BridgeClient id) /\
     BaseApp.clients (final r) !! id = Some (Props.accepted (o full)) /\
     (Props.accepted (o full) = true ->
      head (requests (run BaseApp.panel_sync o' (final r)))
      = Some incremental)) /\
  (forall id,
     BaseApp.templateClient w = Some (BaseApp.BridgeClient id) ->
     BaseApp.templateClient (final r) = Some (BaseApp.BridgeClient id) /\
     (BaseApp.clients w !! id = Some true ->
      head (requests r) = Some incremental /\
      BaseApp.clients (final r) = BaseApp.clients w) /\
     (BaseApp.clients w !! id = Some false ->
      requests r = [full] /\
      BaseApp.clients (final r) !! id = Some (Props.accepted (o full)) /\
      (Props.accepted (o full) = true ->
       head (requests (run BaseApp.panel_sync o' (final r)))
       = Some incremental))) /\
  (BaseApp.templateClient (final failed) = Some BaseApp.MockClient /\
   BaseApp.clients (final failed) = BaseApp.clients w) /\
  flag (final (run (RestApi.initBridgeDisplay (Resolves t h) None) oR wR))
  = flag wR /\
  (exists u,
     RestApi.ui (RestApi.ensureUi wR) = Some u /\
     let config :=
       RestApi.pageConfig (Dom.options (RestApi.select u))
         (RestApi.clampIndex (Int (Dom.selectedIndex (RestApi.select u)))
            (len (Dom.options (RestApi.select u))))
         "Select URL and click" in
     let request :=
       if flag wR then RestApi.RebuildPageContainer h config
       else RestApi.CreateStartUpPageContainer h config in
     requests rR = [request] /\
     flag (final rR) = Props.accepted (oR request) || flag wR) /\
  flag (final (run (RestApi.initBridgeDisplay lateR None) oR wR)) = false /\
  flag (final (run (RestApi.connect lateR) oR wR)) = false.
Proof.
  intros Ht Hlate HlateR st ct full incremental r failed rR flag.
  assert (forall id,
            BaseApp.templateClient (final r)
            = Some (BaseApp.BridgeClient id) ->
            BaseApp.clients (final r) !! id = Some (Props.accepted (o full)) ->
            BaseApp.state (final r) = BaseApp.state w ->
            Props.accepted (o full) = true ->
            head (requests (run BaseApp.panel_sync o' (final r)))
            = Some incremental) as Hnext.
  { intros id Hc Hf Hs Hacc. rewrite Hacc in Hf.
    rewrite (panel_sync_incremental o' (final r) id Hc Hf).
    unfold incremental, st. by rewrite Hs. }
  repeat apply conj.
  - intros Hheld id.
    destruct (connect_in_time_first t o w id Ht) as (Hr & Hc & Hf & Hs);
      [by left|].
    fold r in Hr, Hc, Hf, Hs. fold st ct full in Hr, Hf.
    repeat split; try done. by apply (Hnext id).
  - intros id Hheld. split; [by apply connect_in_time_held|]. split.
    + intros Hflag. pose proof (connect_in_time_base t o w Ht) as Hc.
      rewrite Hheld in Hc. by apply Hc.
    + intros Hflag.
      destruct (connect_in_time_first t o w id Ht) as (Hr & Hc & Hf & Hs);
        [by right|].
      fold r in Hr, Hc, Hf, Hs. fold st ct full in Hr, Hf.
      repeat split; try done. by apply (Hnext id).
  - unfold failed. rewrite connect_unavailable_base by done. simpl.
    by rewrite (proj2 (proj2 (renderBrowserPanel_frame _))).
  - unfold failed. rewrite connect_unavailable_base by done. simpl.
    by rewrite (proj1 (proj2 (renderBrowserPanel_frame _))).
  - unfold flag, run. rewrite initBridgeDisplay_in_time by done.
    by destruct wR as [[? ? [] ? ? ?] ? ? ? ? ?].
  - destruct (rest_connect_render_flag t h oR wR Ht) as (u & Hu & Hr & Hf).
    exists u. by repeat split.
  - unfold flag, run. by rewrite (initBridgeDisplay_unavailable lateR None).
  - by destruct (rest_connect_unavailable_state lateR oR wR HlateR).
Qed.

Lemma connect_and_render_flag_witness :
  requests (run (BaseApp.connect (Resolves 10 tt)) Scenario.accepting
              BaseApp.initial_world)
  = [BaseApp.PageRender "Base Template | State: idle | Theme: Blue"
       "Counter: 0 | Last: none"] /\
  RestApi.startupRendered
    (RestApi.bridgeState
       (final (run (RestApi.connect Pending) Scenario.accepting
                 Scenario.rest_connected))) = false.
Proof.
  assert (10 < 4000) as Ht by lia.
  pose proof (connect_and_render_flag 10 7 Pending Pending
                Scenario.accepting Scenario.accepting BaseApp.initial_world
                Scenario.accepting Scenario.rest_connected Ht I I)
    as (Hfresh & _ & _ & _ & _ & _ & Hfail).
  split; [|exact Hfail].
  apply Hfresh. by left.
Defined.
End connect_flag.

(** ** The stored selection outside Bridge mode *)

Section stale_selection.
Import Js Sdk.

(** C5. Outside Bridge mode the remove button shortens the list and leaves
    the stored selection as it was: when the stored selection is the last
    row of a list of at least two rows, it is in range before the button is
    pressed and out of range afterwards, over a list that is not empty. *)
Theorem mock_remove_keeps_stale_selection
    (o : RestApi.Request -> reply) (w : RestApi.World)
    (u : RestApi.RestUiState) :
  let opts := Dom.options (RestApi.select u) in
  let w' := final (run RestApi.removeButton_onclick o w) in
  RestApi.ui w = Some u ->
  RestApi.bridgeDisplay w <> Some RestApi.Bridge ->
  truthy (RestApi.selectedUrl (RestApi.select u)) = true ->
  2 <= len opts ->
  RestApi.selectedIndex (RestApi.bridgeState w) = Int (len opts - 1) ->
  Spec.rest_selection_in_range w /\
  RestApi.getActiveUrls w'
  = delete (Z.to_nat (Dom.selectedIndex (RestApi.select u))) opts /\
  len (RestApi.getActiveUrls w') = len opts - 1 /\
  RestApi.selectedIndex (RestApi.bridgeState w') = Int (len opts - 1) /\
  ~ Spec.rest_selection_in_range w'.
Proof.
  intros opts w' Hu Hd Hsel HL HX. subst w'. unfold run.
  pose proof (hoare_remove _ _ _ _ o w [] (store_of_world w u Hu)) as Hfin.
  rewrite Hsel in Hfin.
  destruct Hfin as ((u' & Hu' & Hs' & _) & _ & HX').
  pose proof (selected_in_options _ Hsel) as Hi. fold opts in Hi.
  rewrite select_after_remove_spec in Hs' by done.
  assert (Spec.bridge_selection (RestApi.bridgeDisplay w)
            (Spec.select_after_remove (RestApi.select u))
            (RestApi.selectedIndex (RestApi.bridgeState w))
          = Int (len opts - 1)) as HX''.
  { rewrite HX. unfold Spec.bridge_selection.
    by destruct (RestApi.bridgeDisplay w) as [[]|]. }
  rewrite HX'' in HX'. clear HX''.
  assert (RestApi.getActiveUrls
            (final (RestApi.removeButton_onclick o w []))
          = delete (Z.to_nat (Dom.selectedIndex (RestApi.select u))) opts)
    as Hurls.
  { unfold RestApi.getActiveUrls, RestApi.getAllUrls. by rewrite Hu', Hs'. }
  assert (len (RestApi.getActiveUrls
                 (final (RestApi.removeButton_onclick o w [])))
          = len opts - 1) as Hlen.
  { rewrite Hurls. by apply len_delete. }
  split_and!; try done.
  - unfold Spec.rest_selection_in_range, RestApi.getActiveUrls,
      RestApi.getAllUrls. rewrite Hu, HX. fold opts. intros _.
    exists (len opts - 1). split; [done | lia].
  - unfold Spec.rest_selection_in_range. rewrite Hlen, HX'.
    intros Hr. destruct Hr as (i & [= <-] & Hr); lia.
Qed.

Lemma mock_remove_keeps_stale_selection_witness :
  let w := final (run (RestApi.choose 1) Scenario.accepting
                    Scenario.rest_mock) in
  let w' := final (run RestApi.removeButton_onclick Scenario.accepting w) in
  Spec.rest_selection_in_range w /\
  len (RestApi.getActiveUrls w') = 1 /\
  RestApi.selectedIndex (RestApi.bridgeState w') = Int 1 /\
  ~ Spec.rest_selection_in_range w'.
Proof.
  intros w w'.
  assert (RestApi.bridgeDisplay w <> Some RestApi.Bridge) as Hd by done.
  assert (2 <= len RestApi.DEFAULT_URLS) as HL by done.
  destruct (mock_remove_keeps_stale_selection Scenario.accepting w
              {| RestApi.select :=
                   {| Dom.options := RestApi.DEFAULT_URLS;
                      Dom.selectedIndex := 1 |};
                 RestApi.response := "Response output will appear here.";
                 RestApi.addInput := "" |}
              eq_refl Hd eq_refl HL eq_refl)
    as (H1 & _ & H2 & H3 & H4).
  split; [exact H1|]. split; [exact H2|]. split; [exact H3 | exact H4].
Defined.
End stale_selection.

(** ** Bridge events after a failed connect *)

Section mock_mode.
Import Js Sdk.

Lemma appends_ret {Req St A} (a : A) : Props.appends (@ret Req St A a).
Proof. intros o s tr. exists []. by rewrite app_nil_r. Qed.

Lemma appends_gets {Req St A} (f : St -> A) : Props.appends (@gets Req St A f).
Proof. intros o s tr. exists []. by rewrite app_nil_r. Qed.

Lemma appends_modify {Req St} (f : St -> St) : Props.appends (@modify Req St f).
Proof. intros o s tr. exists []. by rewrite app_nil_r. Qed.

Lemma appends_settle {Req St A} (c : completion A) :
  Props.appends (@settle Req St A c).
Proof. intros o s tr. exists []. by rewrite app_nil_r. Qed.

Lemma appends_call {Req St} (r : Req) : Props.appends (@call Req St r).
Proof. intros o s tr. exists [r]. unfold call. by destruct (o r). Qed.

Lemma appends_bind {Req St A B} (m : Eff Req St A) (k : A -> Eff Req St B) :
  Props.appends m -> (forall a, Props.appends (k a)) ->
  Props.appends (bind m k).
Proof.
  intros Hm Hk o s tr. destruct (Hm o s tr) as [sent Hs]. unfold bind.
  destruct (m o s tr) as [[s' tr'] [a|e]]; unfold requests in *; simpl in *.
  - destruct (Hk a o s' tr') as [sent' Hs']. exists (sent ++ sent').
    unfold requests in Hs'. rewrite Hs', Hs. by rewrite app_assoc.
  - by exists sent.
Qed.

Lemma appends_catch {Req St A} (m : Eff Req St A) (h : string -> Eff Req St A) :
  Props.appends m -> (forall e, Props.appends (h e)) ->
  Props.appends (catch m h).
Proof.
  intros Hm Hh o s tr. destruct (Hm o s tr) as [sent Hs]. unfold catch.
  destruct (m o s tr) as [[s' tr'] [a|e]]; unfold requests in *; simpl in *.
  - by exists sent.
  - destruct (Hh e o s' tr') as [sent' Hs']. exists (sent ++ sent').
    unfold requests in Hs'. rewrite Hs', Hs. by rewrite app_assoc.
Qed.

Lemma appends_finally {Req St A} (m : Eff Req St A) (f : St -> St) :
  Props.appends m -> Props.appends (finally m f).
Proof.
  intros Hm o s tr. destruct (Hm o s tr) as [sent Hs]. unfold finally.
  destruct (m o s tr) as [[s' tr'] c]. by exists sent.
Qed.

Lemma appends_show_if_display message :
  Props.appends (RestApi.show_if_display message).
Proof.
  unfold RestApi.show_if_display.
  apply appends_bind; [apply appends_gets|]. intros [[]|]; try apply appends_ret.
  unfold RestApi.display_show.
  apply appends_bind; [apply appends_gets|]. intros urls.
  apply appends_bind; [apply appends_modify|]. intros _.
  apply appends_bind; [apply appends_gets|]. intros b.
  destruct (RestApi.bridge b); [|apply appends_settle].
  unfold RestApi.renderBridgePage.
  apply appends_bind; [apply appends_gets|]. intros rendered.
  destruct (negb rendered); (apply appends_bind; [apply appends_call|]);
    intros _; [apply appends_modify | apply appends_ret].
Qed.

Lemma appends_runRequestByIndex fetchAsText index :
  Props.appends (RestApi.runRequestByIndex fetchAsText index).
Proof.
  unfold RestApi.runRequestByIndex.
  apply appends_bind; [apply appends_gets|]. intros [u|]; [|apply appends_ret].
  destruct (len _ =? 0); [apply appends_modify|].
  do 2 (apply appends_bind; [apply appends_modify|]; intros _).
  apply appends_bind; [apply appends_gets|]. intros [|]; [apply appends_modify|].
  apply appends_bind; [apply appends_modify|]; intros _.
  apply appends_bind; [apply appends_show_if_display|]; intros _.
  apply appends_bind; [apply appends_modify|]; intros _.
  apply appends_finally, appends_catch.
  - apply appends_bind; [apply appends_settle|]. intros r.
    do 2 (apply appends_bind; [apply appends_modify|]; intros _).
    apply appends_show_if_display.
  - intros e.
    do 2 (apply appends_bind; [apply appends_modify|]; intros _).
    apply appends_show_if_display.
Qed.

Lemma appends_run_selected fetchAsText :
  Props.appends (RestApi.run_selected fetchAsText).
Proof.
  unfold RestApi.run_selected.
  apply appends_bind; [apply appends_gets|]. intros b.
  destruct (RestApi.onSelectAndRun b);
    [apply appends_runRequestByIndex | apply appends_ret].
Qed.


Lemma syncBrowserSelection_bridgeState index w :
  RestApi.startupRendered
    (RestApi.bridgeState (RestApi.syncBrowserSelection index w))
  = RestApi.startupRendered (RestApi.bridgeState w) /\
  RestApi.statusMessage
    (RestApi.bridgeState (RestApi.syncBrowserSelection index w))
  = RestApi.statusMessage (RestApi.bridgeState w).
Proof.
  unfold RestApi.syncBrowserSelection.
  destruct (RestApi.ui w); [|done]. by destruct (len _ =? 0).
Qed.

(** A connect of the REST-API instance whose acquisition fails: the store
    it leaves. *)
Lemma rest_connect_unavailable_store (promise : Acquisition nat) o w :
  unavailable promise 4000 ->
  let w' := final (run (RestApi.connect promise) o w) in
  RestApi.getActiveUrls w' = RestApi.getActiveUrls (RestApi.ensureUi w) /\
  RestApi.startupRendered (RestApi.bridgeState w') = false /\
  RestApi.bridge (RestApi.bridgeState w') = None /\
  RestApi.statusMessage (RestApi.bridgeState w') = "Select URL and click".
Proof.
  intros H. unfold run, RestApi.connect, bind, modify, gets. simpl.
  rewrite initBridgeDisplay_unavailable by done. simpl.
  destruct w as [? ? [u|] ? ? ?]; simpl; done.
Qed.

(** A scroll event on the handler bound to the handle [h], in a store
    whose flag is not set: the first request of the handler is the startup
    construction on [h], whatever the mode of the display. *)
Lemma scroll_event_renders fetchAsText h event o w :
  RestApi.getActiveUrls w <> [] ->
  RestApi.startupRendered (RestApi.bridgeState w) = false ->
  RestApi.normalizeEventType (RestApi.getRawEventType event)
    = Some SCROLL_BOTTOM_EVENT \/
  RestApi.normalizeEventType (RestApi.getRawEventType event)
    = Some SCROLL_TOP_EVENT ->
  exists index,
    head (requests (run (RestApi.onEvenHubEvent fetchAsText h event) o w))
    = Some (RestApi.CreateStartUpPageContainer h
              (RestApi.pageConfig (RestApi.getActiveUrls w) index
                 (RestApi.statusMessage (RestApi.bridgeState w)))).
Proof.
  intros Hne Hflag Hty.
  unfold run, RestApi.onEvenHubEvent. rewrite bind_gets_eq.
  rewrite (len_nonempty _ Hne). rewrite bind_gets_eq.
  set (urls := RestApi.getActiveUrls w).
  set (current := RestApi.selectedIndex (RestApi.bridgeState w)).
  assert (forall step : number -> number,
    exists index,
      head (requests
        ((modify (RestApi.on_bridgeState (RestApi.set_selectedIndex
            (RestApi.clampIndex
               (if RestApi.hasIncomingIndex urls event
                then RestApi.incomingIndex urls event
                else step current) (len urls)))) ;;;
          let! sel := gets (fun w => RestApi.selectedIndex
                                       (RestApi.bridgeState w)) in
          modify (RestApi.syncBrowserSelection sel) ;;;
          let! b := gets RestApi.bridgeState in
          RestApi.renderBridgePage h urls (RestApi.selectedIndex b)
            (RestApi.statusMessage b) ;;;
          let! sel := gets (fun w => RestApi.selectedIndex
                                       (RestApi.bridgeState w)) in
          if nneq sel current then RestApi.run_selected fetchAsText
          else ret tt) o w []))
      = Some (RestApi.CreateStartUpPageContainer h
                (RestApi.pageConfig urls index
                   (RestApi.statusMessage (RestApi.bridgeState w)))))
    as Hscroll.
  { intros step.
    rewrite bind_modify_eq, bind_gets_eq, bind_modify_eq, bind_gets_eq.
    set (w1 := RestApi.syncBrowserSelection _ _).
    assert (RestApi.startupRendered (RestApi.bridgeState w1) = false /\
            RestApi.statusMessage (RestApi.bridgeState w1)
            = RestApi.statusMessage (RestApi.bridgeState w)) as [Hf1 Hm1].
    { unfold w1.
      destruct (syncBrowserSelection_bridgeState
                  (RestApi.selectedIndex
                     (RestApi.bridgeState
                        (RestApi.on_bridgeState
                           (RestApi.set_selectedIndex
                              (RestApi.clampIndex
                                 (if RestApi.hasIncomingIndex urls event
                                  then RestApi.incomingIndex urls event
                                  else step current) (len urls))) w)))
                  (RestApi.on_bridgeState
                     (RestApi.set_selectedIndex
                        (RestApi.clampIndex
                           (if RestApi.hasIncomingIndex urls event
                            then RestApi.incomingIndex urls event
                            else step current) (len urls))) w))
        as [-> ->].
      by destruct w as [[] ? ? ? ? ?]. }
    exists (RestApi.selectedIndex (RestApi.bridgeState w1)).
    rewrite Hm1. clearbody w1.
    unfold bind at 1. rewrite renderBridgePage_spec, Hf1.
    set (request := RestApi.CreateStartUpPageContainer _ _).
    destruct (o request) as [b|e]; [|done].
    rewrite bind_gets_eq.
    match goal with
    | |- context [(if ?c then _ else _) o ?w' ?tr] =>
        destruct c;
        [destruct (appends_run_selected fetchAsText o w' tr) as [sent ->]
        | ]; done
    end. }
  assert (RestApi.eventTypeOf urls current event
          = RestApi.normalizeEventType (RestApi.getRawEventType event))
    as ->.
  { unfold RestApi.eventTypeOf. by destruct Hty as [-> | ->]. }
  destruct Hty as [-> | ->].
  - rewrite bool_decide_eq_true_2 by done.
    apply (Hscroll (fun i => nadd i (Int 1))).
  - rewrite bool_decide_eq_false_2 by done.
    rewrite bool_decide_eq_true_2 by done.
    apply (Hscroll (fun i => nsub i (Int 1))).
Qed.

(** C8. A connect whose acquisition of the bridge fails or does not
    resolve within 4000 ms returns normally, sends nothing and leaves Mock
    mode; yet the handlers of bridge events that an earlier, successful
    connect registered still write to the glasses. In base_app the
    listener of the bridge client [id] sends at least one request for any
    event; in the REST-API instance the handler bound to the handle [h]
    answers a scroll event over a list that is not empty with a startup
    construction on [h], which carries the status text that the failed
    connect has reset. *)
Theorem mock_mode_bridge_event_still_renders
    (promise : Acquisition unit) (promiseR : Acquisition nat)
    (id h : nat) (event eventR : EvenHubEvent)
    (fetchAsText : string -> completion (string * string))
    (o o' : BaseApp.Request -> reply) (w : BaseApp.World)
    (oR oR' : RestApi.Request -> reply) (wR : RestApi.World) :
  unavailable promise 4000 ->
  unavailable promiseR 4000 ->
  BaseApp.templateClient w = Some (BaseApp.BridgeClient id) ->
  RestApi.bridge (RestApi.bridgeState wR) = Some h ->
  RestApi.eventLoopRegistered (RestApi.bridgeState wR) = true ->
  RestApi.getActiveUrls (RestApi.ensureUi wR) <> [] ->
  RestApi.normalizeEventType (RestApi.getRawEventType eventR)
    = Some SCROLL_BOTTOM_EVENT \/
  RestApi.normalizeEventType (RestApi.getRawEventType eventR)
    = Some SCROLL_TOP_EVENT ->
  let c := run (BaseApp.connect promise) o w in
  let cR := run (RestApi.connect promiseR) oR wR in
  (outcome c = Returned tt /\ requests c = [] /\
   BaseApp.templateClient (final c) = Some BaseApp.MockClient /\
   requests (run (BaseApp.listener id event) o' (final c)) <> []) /\
  (outcome cR = Returned tt /\ requests cR = [] /\
   RestApi.bridgeDisplay (final cR) = Some RestApi.Mock /\
   RestApi.bridge (RestApi.bridgeState (final cR)) = None /\
   exists index,
     head (requests (run (RestApi.onEvenHubEvent fetchAsText h eventR) oR'
                       (final cR)))
     = Some (RestApi.CreateStartUpPageContainer h
               (RestApi.pageConfig (RestApi.getActiveUrls (RestApi.ensureUi wR))
                  index "Select URL and click"))).
Proof.
  intros H HR Hheld Hh Hreg Hne Hty c cR. split.
  - unfold c. rewrite connect_unavailable_base by done.
    repeat split.
    + simpl. by rewrite (proj2 (proj2 (renderBrowserPanel_frame _))).
    + unfold run, BaseApp.listener. rewrite !bind_modify_eq. unfold void.
      match goal with
      | |- context [BaseApp.syncToGlasses id o' ?w' []] =>
          destruct (syncToGlasses_requests id o' w' [])
            as (sent & Hr & Hsent & _);
          destruct (BaseApp.syncToGlasses id o' w' []) as [[w2 tr2] c2]
      end.
      unfold requests in *. cbn [fst snd] in *. by subst tr2.
  - destruct (connect_unavailable_rest promiseR oR wR HR)
      as (Ho & Hr & Hd & _).
    destruct (rest_connect_unavailable_store promiseR oR wR HR)
      as (Hu & Hf & Hb & Hm).
    fold cR in Ho, Hr, Hd, Hu, Hf, Hb, Hm.
    repeat split; try done.
    destruct (scroll_event_renders fetchAsText h eventR oR' (final cR))
      as [index Hi]; [by rewrite Hu | done | done |].
    exists index. by rewrite Hi, Hu, Hm.
Qed.

Lemma mock_mode_bridge_event_still_renders_witness :
  BaseApp.templateClient
    (final (run (BaseApp.connect Pending) Scenario.accepting
              Scenario.base_connected)) = Some BaseApp.MockClient /\
  requests (run (BaseApp.listener 0 (Scenario.sys_event (VNumber (Int 2))))
              Scenario.accepting
              (final (run (BaseApp.connect Pending) Scenario.accepting
                        Scenario.base_connected))) <> [] /\
  RestApi.bridgeDisplay
    (final (run (RestApi.connect Pending) Scenario.accepting
              Scenario.rest_connected)) = Some RestApi.Mock /\
  exists index,
    head (requests
            (run (RestApi.onEvenHubEvent Scenario.offline 7
                    (Scenario.sys_event (VNumber (Int 2))))
               Scenario.accepting
               (final (run (RestApi.connect Pending) Scenario.accepting
                         Scenario.rest_connected))))
    = Some (RestApi.CreateStartUpPageContainer 7
              (RestApi.pageConfig RestApi.DEFAULT_URLS index
                 "Select URL and click")).
Proof.
  assert (RestApi.getActiveUrls (RestApi.ensureUi Scenario.rest_connected)
          <> []) as Hne by done.
  destruct (mock_mode_bridge_event_still_renders Pending Pending 0 7
              (Scenario.sys_event (VNumber (Int 2)))
              (Scenario.sys_event (VNumber (Int 2))) Scenario.offline
              Scenario.accepting Scenario.accepting Scenario.base_connected
              Scenario.accepting Scenario.accepting Scenario.rest_connected
              I I eq_refl eq_refl eq_refl Hne (or_introl eq_refl))
    as ((_ & _ & Hc & Hl) & (_ & _ & Hd & _ & Hi)).
  split; [exact Hc|]. split; [exact Hl|]. split; [exact Hd | exact Hi].
Defined.
End mock_mode.
